(** * repo-man: release metadata store, path derivation, version ordering,
      reconciliation and upload, user database, configuration

    A shallow embedding of the release core of [cmd/server/repository.go] and
    [cmd/server/service.go], of the user database of [cmd/server/user.go]
    and of the loading of the configuration in [cmd/server/config.go],
    followed by the properties stated about them.

    Conventions of the embedding.

    - Go strings are byte strings ([string]).  The functions that walk a
      string rune by rune ([generateSoftwareIDFromName], [strings.ToLower])
      are written byte by byte, which is what the Go code does on ASCII text
      and on ASCII text only.  A property that depends on what they return
      for a name is stated for the names that are ASCII ([is_ascii]).
    - [int] and [int64] are [Z]; where the code can overflow, the 64-bit
      wrap-around is written out ([wrap64]).
    - A [*ReleaseMetadata] is a location in a heap of records: the map of the
      database holds locations, and a field assignment through a pointer is
      seen by every holder of that pointer.
    - The order in which Go ranges over a map is not specified and changes
      from one loop to the next.  Every [range] over a map takes its order
      from a tape of orders carried by the world.
    - A call returns ([Done]), panics ([Panic]), or waits on the mutex of
      the database ([Blocked]).  [sync.RWMutex] is not reentrant: a call
      that waits for a lock it holds itself waits for ever. *)

From Stdlib Require Import ZArith Ascii String List Sorted Lia.
From stdpp Require Import base tactics option list gmap strings.

Local Open Scope Z_scope.

(** ** Package [strings] *)

Module Strings.

(** The separator and the replaced text are one byte long at every call
    site of the repository ("." and " "). *)

Definition push_front (c : ascii) (l : list string) : list string :=
  match l with
  | [] => [String c EmptyString]
  | x :: xs => String c x :: xs
  end.

(** [genSplit]: cut [s] at the first [cuts] separators; the last piece is
    the unsplit remainder. *)
Fixpoint genSplit (sep : ascii) (cuts : nat) (s : string) {struct s} : list string :=
  match s with
  | EmptyString => [EmptyString]
  | String c s' =>
      match cuts with
      | O => [s]
      | S k =>
          if Ascii.eqb c sep then EmptyString :: genSplit sep k s'
          else push_front c (genSplit sep cuts s')
      end
  end.

Fixpoint Count (sep : ascii) (s : string) : nat :=
  match s with
  | EmptyString => O
  | String c s' => (if Ascii.eqb c sep then 1 else 0) + Count sep s'
  end.

(** [strings.Split(s, sep)]: [n < 0] in [genSplit], that is
    [Count(s, sep)] cuts. *)
Definition Split (s : string) (sep : ascii) : list string :=
  genSplit sep (Count sep s) s.

(** [strings.SplitN(s, sep, n)] for [n >= 0]: nil for [n = 0], at most [n]
    pieces otherwise. *)
Definition SplitN (s : string) (sep : ascii) (n : nat) : list string :=
  match n with
  | O => []
  | S k => genSplit sep k s
  end.

(** [strings.ToLower] on ASCII text, where it maps the bytes ["A"] to ["Z"]
    and leaves the others.  (On other text the Go function maps runes by
    the Unicode tables; that part is not modelled.) *)
Definition lower_byte (c : ascii) : ascii :=
  let n := nat_of_ascii c in
  if ((65 <=? n) && (n <=? 90))%nat then ascii_of_nat (n + 32) else c.

Fixpoint ToLower (s : string) : string :=
  match s with
  | EmptyString => EmptyString
  | String c s' => String (lower_byte c) (ToLower s')
  end.

(** [strings.ReplaceAll(s, old, new)] with one-byte [old] and [new]. *)
Fixpoint ReplaceAll (s : string) (old new : ascii) : string :=
  match s with
  | EmptyString => EmptyString
  | String c s' => String (if Ascii.eqb c old then new else c) (ReplaceAll s' old new)
  end.

Fixpoint Join (elems : list string) (sep : string) : string :=
  match elems with
  | [] => EmptyString
  | [x] => x
  | x :: xs => x +:+ sep +:+ Join xs sep
  end.

End Strings.

(** ** Package [strconv] *)

Module Strconv.

Inductive num_error := ErrSyntax | ErrRange.

Definition is_digit (c : ascii) : bool :=
  let n := nat_of_ascii c in ((48 <=? n) && (n <=? 57))%nat.

Definition digit_val (c : ascii) : Z := Z.of_nat (nat_of_ascii c) - 48.

Definition max_uint64 : Z := 2 ^ 64 - 1.

(** The digit loop of [ParseUint] in base 10 (no underscores, no prefix):
    a byte that is not a digit is a syntax error, a value that leaves 64
    bits is a range error, whichever comes first. *)
Fixpoint digits (n : Z) (s : string) : Z + num_error :=
  match s with
  | EmptyString => inl n
  | String c s' =>
      if is_digit c then
        let n1 := n * 10 + digit_val c in
        if max_uint64 <? n1 then inr ErrRange else digits n1 s'
      else inr ErrSyntax
  end.

Definition min_int : Z := - 2 ^ 63.
Definition max_int : Z := 2 ^ 63 - 1.

(** [strconv.Atoi] on a 64-bit [int]: an optional sign, at least one
    decimal digit, and a value that fits. *)
Definition Atoi (s : string) : Z + num_error :=
  match s with
  | EmptyString => inr ErrSyntax
  | String c s' =>
      let neg := Ascii.eqb c "-" in
      let body := if Ascii.eqb c "-" || Ascii.eqb c "+" then s' else s in
      match body with
      | EmptyString => inr ErrSyntax
      | _ =>
          match digits 0 body with
          | inr k => inr k
          | inl un =>
              let v := if neg then - un else un in
              if (min_int <=? v) && (v <=? max_int) then inl v else inr ErrRange
          end
      end
  end.

End Strconv.

(** ** Package [fmt]: the verbs used by the path derivation *)

Module Fmt.

Definition digit_char (d : Z) : ascii := ascii_of_nat (48 + Z.to_nat d).

Fixpoint itoa_go (fuel : nat) (n : Z) (acc : string) : string :=
  match fuel with
  | O => acc
  | S f =>
      let acc' := String (digit_char (n mod 10)) acc in
      if n <? 10 then acc' else itoa_go f (n / 10) acc'
  end.

(** Decimal digits of a non-negative [int] (at most 19 of them). *)
Definition utoa (n : Z) : string := itoa_go 20 n EmptyString.

Fixpoint repeat_byte (c : ascii) (k : nat) : string :=
  match k with
  | O => EmptyString
  | S k' => String c (repeat_byte c k')
  end.

Definition pad_left (c : ascii) (width : nat) (s : string) : string :=
  repeat_byte c (width - String.length s) +:+ s.

(** [%0wd]: the sign first, then zeros up to the width, then the digits. *)
Definition Sprintf_0d (width : nat) (n : Z) : string :=
  if n <? 0 then String "-" (pad_left "0" (width - 1) (utoa (- n)))
  else pad_left "0" width (utoa n).

(** [%0ws]: the string padded on the left to the width; with the [0] flag
    the padding byte is ["0"].  Go counts the width in runes; on an ASCII
    operand these are the bytes. *)
Definition Sprintf_0s (width : nat) (s : string) : string :=
  pad_left "0" width s.

End Fmt.

(** ** Package [path/filepath] (Unix), after its documentation *)

Module Filepath.

(** [Clean] on the list of path elements: empty and ["."] elements go, an
    inner [".."] takes the element before it with it, a [".."] at the
    start of a rooted path goes, and stays in front of a relative one.
    [stack] holds the elements kept so far, last one first. *)
Fixpoint clean_elems (rooted : bool) (stack : list string) (elems : list string)
  : list string :=
  match elems with
  | [] => rev stack
  | e :: es =>
      if String.eqb e "" || String.eqb e "." then clean_elems rooted stack es
      else if String.eqb e ".." then
        match stack with
        | top :: below =>
            if String.eqb top ".." then clean_elems rooted (e :: stack) es
            else clean_elems rooted below es
        | [] => if rooted then clean_elems rooted [] es
                else clean_elems rooted [e] es
        end
      else clean_elems rooted (e :: stack) es
  end.

Definition Clean (path : string) : string :=
  match path with
  | EmptyString => "."
  | String c _ =>
      let rooted := Ascii.eqb c "/" in
      let out := Strings.Join (clean_elems rooted [] (Strings.Split path "/")) "/" in
      if rooted then String "/" out
      else if String.eqb out "" then "." else out
  end.

(** [Join]: empty leading elements are ignored, the rest is joined with
    the separator and cleaned. *)
Fixpoint Join (elem : list string) : string :=
  match elem with
  | [] => EmptyString
  | e :: es => if String.eqb e "" then Join es else Clean (Strings.Join elem "/")
  end.

End Filepath.

(** ** Outcomes of a call *)

(** A call returns, panics, or waits on a lock.  With no other goroutine to
    release the lock, a call that waits does not come back. *)
Inductive outcome (A : Type) :=
| Done (a : A)
| Panic (msg : string)
| Blocked.
Arguments Done {A} a.
Arguments Panic {A} msg.
Arguments Blocked {A}.

(** ** Errors *)

Inductive errno := ENOENT | EACCES | EIO | EPERM | EEXIST.

#[global] Instance errno_eq_dec : EqDecision errno.
Proof. solve_decision. Defined.

(** A Go [error]: what packages [os] and [strconv] hand back, and the values
    built by [fmt.Errorf], with the [%w] operand kept as [cause]. *)
Inductive error :=
| PathError (op : string) (path : string) (no : errno)
| NumError (fn : string) (num : string) (kind : Strconv.num_error)
| Errorf (format : string) (args : list string)
| Wrapf (format : string) (args : list string) (cause : error).

(** The [errors.Unwrap] chain of [e], outermost first. *)
Fixpoint chain (e : error) : list error :=
  match e with
  | Wrapf _ _ e' => e :: chain e'
  | _ => [e]
  end.

(** [os.IsNotExist]: looks at the error itself, not at what it wraps. *)
Definition os_IsNotExist (err : option error) : bool :=
  match err with
  | Some (PathError _ _ ENOENT) => true
  | _ => false
  end.

(** ** Data model ([model.go]) *)

(** [time.Time] is an instant on the time line. *)
Definition Time := Z.
Definition Time_After (t u : Time) : bool := u <? t.

Record ReleaseMetadata := mkReleaseMetadata {
  ID : string;
  SoftwareName : string;
  Version : string;
  ReleaseTimestamp : Time;
  FileSize : Z;
  ReleaseState : string;
  Changelog : string;
  ReleaseDate : Time
}.

Definition set_ReleaseState (st : string) (m : ReleaseMetadata) : ReleaseMetadata :=
  mkReleaseMetadata (ID m) (SoftwareName m) (Version m) (ReleaseTimestamp m)
                    (FileSize m) st (Changelog m) (ReleaseDate m).

Definition set_FileSize (sz : Z) (m : ReleaseMetadata) : ReleaseMetadata :=
  mkReleaseMetadata (ID m) (SoftwareName m) (Version m) (ReleaseTimestamp m)
                    sz (ReleaseState m) (Changelog m) (ReleaseDate m).

Definition set_ReleaseTimestamp (t : Time) (m : ReleaseMetadata) : ReleaseMetadata :=
  mkReleaseMetadata (ID m) (SoftwareName m) (Version m) t
                    (FileSize m) (ReleaseState m) (Changelog m) (ReleaseDate m).

(** ** Versions ([service.go]) *)

(** The struct [Version] of [service.go]; the name [Version] is the field of
    [ReleaseMetadata] here. *)
Record SemVer := mkSemVer {
  Major : Z;
  Minor : Z;
  Patch : Z;
  Original : string
}.

Definition SemVer_zero : SemVer := mkSemVer 0 0 0 "".

Definition parseVersion (versionStr : string) : SemVer * option error :=
  let parts := Strings.SplitN versionStr "." 3 in
  match parts with
  | [p0; p1; p2] =>
      match Strconv.Atoi p0 with
      | inr k => (SemVer_zero, Some (Wrapf "invalid major version: %w" [] (NumError "Atoi" p0 k)))
      | inl major =>
          match Strconv.Atoi p1 with
          | inr k => (SemVer_zero, Some (Wrapf "invalid minor version: %w" [] (NumError "Atoi" p1 k)))
          | inl minor =>
              match Strconv.Atoi p2 with
              | inr k => (SemVer_zero, Some (Wrapf "invalid patch version: %w" [] (NumError "Atoi" p2 k)))
              | inl patch => (mkSemVer major minor patch versionStr, None)
              end
          end
      end
  | _ => (SemVer_zero, Some (Errorf "invalid version format: %s, expected X.Y.Z" [versionStr]))
  end.

Definition GreaterThan (v other : SemVer) : bool :=
  if Major other <? Major v then true
  else if Major v <? Major other then false
  else if Minor other <? Minor v then true
  else if Minor v <? Minor other then false
  else Patch other <? Patch v.

(** ** Path derivation ([repository.go]) *)

Definition wrap64 (n : Z) : Z := (n + 2 ^ 63) mod 2 ^ 64 - 2 ^ 63.

(** The loop of [generateSoftwareIDFromName] on an ASCII name, where the
    runes of the [range] are the bytes. *)
Fixpoint hash_loop (hash : Z) (softwareName : string) : Z :=
  match softwareName with
  | EmptyString => hash
  | String char rest => hash_loop (wrap64 (hash * 31 + Z.of_nat (nat_of_ascii char))) rest
  end.

Definition generateSoftwareIDFromName (softwareName : string) : Z :=
  Z.land (hash_loop 0 softwareName) 1048575.

Definition sanitizeFilename (filename : string) : string :=
  Strings.ReplaceAll (Strings.ToLower filename) " " "_".

Definition getSoftwareDirPath (repoPath softwareName : string) : string :=
  let softwareID := generateSoftwareIDFromName softwareName in
  let dirName := Fmt.Sprintf_0d 6 softwareID +:+ "_" +:+ sanitizeFilename softwareName in
  Filepath.Join [repoPath; dirName].

(** [a[i]] on a slice: a run-time panic when [i] is out of range. *)
Definition index (a : list string) (i : nat) : outcome string :=
  match a !! i with
  | Some x => Done x
  | None => Panic "index out of range"
  end.

Definition getReleaseFilePath (repoPath : string) (metadata : ReleaseMetadata)
  : outcome string :=
  let softwareDirPath := getSoftwareDirPath repoPath (SoftwareName metadata) in
  match index (Strings.Split (Version metadata) ".") 0 with
  | Done v0 =>
      match index (Strings.Split (Version metadata) ".") 1 with
      | Done v1 =>
          match index (Strings.Split (Version metadata) ".") 2 with
          | Done v2 =>
              let fileName :=
                Fmt.Sprintf_0d 6 (generateSoftwareIDFromName (SoftwareName metadata))
                +:+ "_" +:+ sanitizeFilename (SoftwareName metadata)
                +:+ "_" +:+ Fmt.Sprintf_0s 2 v0
                +:+ "." +:+ Fmt.Sprintf_0s 2 v1
                +:+ "." +:+ Fmt.Sprintf_0s 2 v2 +:+ ".tgz" in
              Done (Filepath.Join [softwareDirPath; fileName])
          | Panic m => Panic m
          | Blocked => Blocked
          end
      | Panic m => Panic m
      | Blocked => Blocked
      end
  | Panic m => Panic m
  | Blocked => Blocked
  end.

(** ** The world: heap, database, mutex, file system *)

Definition loc := positive.

(** [sync.RWMutex]: one writer or any number of readers. *)
Record RWMutex := mkRWMutex { writer : bool; readers : nat }.

Inductive syscall := SysStat | SysOpen | SysCreate | SysWrite | SysRemove | SysMkdir.

#[global] Instance syscall_eq_dec : EqDecision syscall.
Proof. solve_decision. Defined.

(** A node of the file system: its size and whether it is a directory. *)
Record FileInfo := mkFileInfo { Size : Z; IsDir : bool }.

Record World := mkWorld {
  heap : gmap loc ReleaseMetadata;            (* the records behind the pointers *)
  filepath : string;                          (* db.filepath *)
  releases : gmap string (gmap string loc);   (* db.releases *)
  mu : RWMutex;                               (* db.mu *)
  RepositoryPath : string;                    (* config.RepositoryPath *)
  nodes : gmap string FileInfo;               (* files and directories, by path *)
  datafile : option (list ReleaseMetadata);   (* the file at db.filepath, see below *)
  faults : list (syscall * string * errno);   (* system calls that fail, and how *)
  clock : Time;                               (* time.Now() *)
  tape : list (list string)                   (* orders of the coming map ranges *)
}.

Definition with_heap (h : gmap loc ReleaseMetadata) (w : World) : World :=
  mkWorld h (filepath w) (releases w) (mu w) (RepositoryPath w) (nodes w)
          (datafile w) (faults w) (clock w) (tape w).
Definition with_releases (r : gmap string (gmap string loc)) (w : World) : World :=
  mkWorld (heap w) (filepath w) r (mu w) (RepositoryPath w) (nodes w)
          (datafile w) (faults w) (clock w) (tape w).
Definition with_mu (m : RWMutex) (w : World) : World :=
  mkWorld (heap w) (filepath w) (releases w) m (RepositoryPath w) (nodes w)
          (datafile w) (faults w) (clock w) (tape w).
Definition with_nodes (n : gmap string FileInfo) (w : World) : World :=
  mkWorld (heap w) (filepath w) (releases w) (mu w) (RepositoryPath w) n
          (datafile w) (faults w) (clock w) (tape w).
Definition with_datafile (d : option (list ReleaseMetadata)) (w : World) : World :=
  mkWorld (heap w) (filepath w) (releases w) (mu w) (RepositoryPath w) (nodes w)
          d (faults w) (clock w) (tape w).
Definition with_tape (t : list (list string)) (w : World) : World :=
  mkWorld (heap w) (filepath w) (releases w) (mu w) (RepositoryPath w) (nodes w)
          (datafile w) (faults w) (clock w) t.

(** ** The monad of Go calls *)

Definition M (A : Type) : Type := World -> outcome A * World.

Definition ret {A} (a : A) : M A := fun w => (Done a, w).

Definition bind {A B} (m : M A) (k : A -> M B) : M B :=
  fun w =>
    match m w with
    | (Done a, w') => k a w'
    | (Panic msg, w') => (Panic msg, w')
    | (Blocked, w') => (Blocked, w')
    end.

(** [defer d] around [body]: [d] runs when [body] returns or panics; a
    goroutine parked inside [body] never reaches it. *)
Definition defer {A} (d : M unit) (body : M A) : M A :=
  fun w =>
    match body w with
    | (Blocked, w') => (Blocked, w')
    | (r, w') => (r, snd (d w'))
    end.

Definition get_world : M World := fun w => (Done w, w).
Definition modify (f : World -> World) : M unit := fun w => (Done tt, f w).
Definition lift {A} (o : outcome A) : M A := fun w => (o, w).

Declare Scope go_scope.
Delimit Scope go_scope with go.
Notation "x <- m ;; k" := (bind m (fun x => k))
  (at level 100, m at next level, right associativity) : go_scope.
Notation "m ;;; k" := (bind m (fun _ => k))
  (at level 100, right associativity) : go_scope.
Local Open Scope go_scope.

(** A [for ... range] loop whose body may [return]: [Some r] leaves the
    function with [r], [None] goes on with the next element. *)
Fixpoint for_range {A R} (l : list A) (body : A -> M (option R)) : M (option R) :=
  match l with
  | [] => ret None
  | x :: rest =>
      r <- body x ;;
      match r with
      | Some v => ret (Some v)
      | None => for_range rest body
      end
  end.

(** *** The mutex *)

(** [sync.RWMutex] is held by one writer or by any number of readers, and
    it is not reentrant: [RLock] waits while a writer holds the lock, also
    when the caller is that writer, and [Lock] waits while anyone holds it.
    A holder that waits for itself waits for ever. *)

Definition mu_Lock : M unit := fun w =>
  if writer (mu w) || negb (Nat.eqb (readers (mu w)) 0) then (Blocked, w)
  else (Done tt, with_mu (mkRWMutex true (readers (mu w))) w).

Definition mu_Unlock : M unit := fun w =>
  if writer (mu w) then (Done tt, with_mu (mkRWMutex false (readers (mu w))) w)
  else (Panic "sync: Unlock of unlocked RWMutex", w).

Definition mu_RLock : M unit := fun w =>
  if writer (mu w) then (Blocked, w)
  else (Done tt, with_mu (mkRWMutex false (S (readers (mu w)))) w).

Definition mu_RUnlock : M unit := fun w =>
  match readers (mu w) with
  | O => (Panic "sync: RUnlock of unlocked RWMutex", w)
  | S n => (Done tt, with_mu (mkRWMutex (writer (mu w)) n) w)
  end.

(** *** Pointers *)

Definition deref (p : loc) : M ReleaseMetadata := fun w =>
  match heap w !! p with
  | Some m => (Done m, w)
  | None => (Panic "invalid memory address or nil pointer dereference", w)
  end.

(** [p.field = v] *)
Definition assign (p : loc) (f : ReleaseMetadata -> ReleaseMetadata) : M unit :=
  m <- deref p ;; modify (fun w => with_heap (<[p := f m]> (heap w)) w).

(** *** Ranging over a map *)

(** The keys of a map in the order asked for: the keys named in [order]
    first, as they come there, then the keys it does not name. *)
Definition arrange (order keys : list string) : list string :=
  filter (fun k => k ∈ keys) (remove_dups order) ++ filter (fun k => k ∉ order) keys.

Definition range_map {V} (m : gmap string V) : M (list (string * V)) := fun w =>
  let ks := arrange (default [] (head (tape w))) ((map_to_list m).*1) in
  (Done (omap (fun k => pair k <$> m !! k) ks), with_tape (tail (tape w)) w).

(** *** Package [os] *)

Fixpoint lookup_fault (c : syscall) (path : string)
  (l : list (syscall * string * errno)) : option errno :=
  match l with
  | [] => None
  | (c', path', no) :: l' =>
      if bool_decide (c' = c /\ path' = path) then Some no else lookup_fault c path l'
  end.

Definition fault_of (c : syscall) (path : string) (w : World) : option errno :=
  lookup_fault c path (faults w).

Definition os_Stat (name : string) : M (FileInfo + error) := fun w =>
  match fault_of SysStat name w with
  | Some no => (Done (inr (PathError "stat" name no)), w)
  | None =>
      match nodes w !! name with
      | Some fi => (Done (inl fi), w)
      | None => (Done (inr (PathError "stat" name ENOENT)), w)
      end
  end.

Definition os_Remove (name : string) : M (option error) := fun w =>
  match fault_of SysRemove name w with
  | Some no => (Done (Some (PathError "remove" name no)), w)
  | None =>
      match nodes w !! name with
      | Some _ => (Done None, with_nodes (delete name (nodes w)) w)
      | None => (Done (Some (PathError "remove" name ENOENT)), w)
      end
  end.

Definition os_MkdirAll (path : string) : M (option error) := fun w =>
  match fault_of SysMkdir path w with
  | Some no => (Done (Some (PathError "mkdir" path no)), w)
  | None =>
      match nodes w !! path with
      | Some fi =>
          if IsDir fi then (Done None, w)
          else (Done (Some (PathError "mkdir" path EEXIST)), w)
      | None => (Done None, with_nodes (<[path := mkFileInfo 0 true]> (nodes w)) w)
      end
  end.

(** ** The release database ([repository.go]) *)

Definition GetReleaseMetadata (softwareName version : string) : M (loc + error) :=
  mu_RLock ;;;
  defer mu_RUnlock (
    w <- get_world ;;
    match releases w !! softwareName with
    | None => ret (inr (Errorf "software package not found: %s" [softwareName]))
    | Some softwareReleases =>
        match softwareReleases !! version with
        | None => ret (inr (Errorf "release version not found for software %s: %s"
                                   [softwareName; version]))
        | Some metadata => ret (inl metadata)
        end
    end).

Definition ListReleasesMetadataForSoftware (softwareName : string)
  : M (list loc + error) :=
  mu_RLock ;;;
  defer mu_RUnlock (
    w <- get_world ;;
    match releases w !! softwareName with
    | None => ret (inr (Errorf "software package not found: %s" [softwareName]))
    | Some softwareReleases =>
        kvs <- range_map softwareReleases ;;
        ret (inl (kvs.*2))
    end).

(** The two nested [range] loops that flatten [db.releases]. *)
Fixpoint flatten (outer : list (string * gmap string loc)) : M (list loc) :=
  match outer with
  | [] => ret []
  | (_, softwareReleases) :: rest =>
      kvs <- range_map softwareReleases ;;
      more <- flatten rest ;;
      ret (kvs.*2 ++ more)
  end.

Definition all_pointers : M (list loc) :=
  w <- get_world ;;
  outer <- range_map (releases w) ;;
  flatten outer.

Definition ListAllReleasesMetadata : M (list loc + error) :=
  mu_RLock ;;;
  defer mu_RUnlock (
    allReleasesMetadata <- all_pointers ;;
    ret (inl allReleasesMetadata)).

(** The file of the database is kept as the records that were last handed
    to the JSON encoder ([Some []] too for a file that [os.Create] has
    truncated and that was not written to).  The text that the encoder
    makes of them, and what a decoder makes of that text, are not modelled:
    a load takes the result of its decoder as a parameter and looks at
    [datafile] only to see whether there is a file.

    [json.Encoder.Encode] follows each pointer of the slice. *)
Fixpoint encode (ps : list loc) : M (list ReleaseMetadata) :=
  match ps with
  | [] => ret []
  | p :: rest =>
      m <- deref p ;;
      ms <- encode rest ;;
      ret (m :: ms)
  end.

Definition saveReleasesMetadata : M (option error) :=
  mu_RLock ;;;
  releasesSlice <- all_pointers ;;
  mu_RUnlock ;;;
  w <- get_world ;;
  match fault_of SysCreate (filepath w) w with
  | Some no =>
      ret (Some (Wrapf "failed to open release metadata database file for writing: %w" []
                       (PathError "open" (filepath w) no)))
  | None =>
      (* os.Create truncates the file *)
      modify (with_datafile (Some [])) ;;;
      match fault_of SysWrite (filepath w) w with
      | Some no =>
          ret (Some (Wrapf "failed to encode release metadata database to JSON: %w" []
                           (PathError "write" (filepath w) no)))
      | None =>
          records <- encode releasesSlice ;;
          modify (with_datafile (Some records)) ;;;
          ret None
      end
  end.

Definition has_software (softwareName : string) (w : World) : bool :=
  bool_decide (is_Some (releases w !! softwareName)).

(** [db.releases[softwareName][version]] read: a missing outer key yields a
    nil map, in which every lookup misses. *)
Definition lookup_release (softwareName version : string) (w : World) : option loc :=
  releases w !! softwareName ≫= fun softwareReleases => softwareReleases !! version.

(** [db.releases[softwareName][version] = metadata]; writing into the nil
    map of a missing outer key panics. *)
Definition store_release (softwareName version : string) (metadata : loc) : M unit :=
  fun w =>
    match releases w !! softwareName with
    | Some softwareReleases =>
        (Done tt,
         with_releases (<[softwareName := <[version := metadata]> softwareReleases]> (releases w)) w)
    | None => (Panic "assignment to entry in nil map", w)
    end.

Definition CreateReleaseMetadata (metadata : loc) : M (option error) :=
  mu_Lock ;;;
  defer mu_Unlock (
    md <- deref metadata ;;
    w <- get_world ;;
    (if has_software (SoftwareName md) w then ret tt
     else modify (fun w => with_releases (<[SoftwareName md := ∅]> (releases w)) w)) ;;;
    w <- get_world ;;
    match lookup_release (SoftwareName md) (Version md) w with
    | Some _ =>
        ret (Some (Errorf "release version already exists for software %s: %s"
                          [SoftwareName md; Version md]))
    | None =>
        store_release (SoftwareName md) (Version md) metadata ;;;
        saveReleasesMetadata
    end).

Definition UpdateReleaseMetadata (metadata : loc) : M (option error) :=
  mu_Lock ;;;
  defer mu_Unlock (
    md <- deref metadata ;;
    w <- get_world ;;
    if negb (has_software (SoftwareName md) w) then
      ret (Some (Errorf "software package not found: %s" [SoftwareName md]))
    else
      match lookup_release (SoftwareName md) (Version md) w with
      | None =>
          ret (Some (Errorf "release version not found for software %s: %s"
                            [SoftwareName md; Version md]))
      | Some _ =>
          store_release (SoftwareName md) (Version md) metadata ;;;
          saveReleasesMetadata
      end).

Definition DeleteReleaseMetadata (softwareName version : string) : M (option error) :=
  mu_Lock ;;;
  defer mu_Unlock (
    w <- get_world ;;
    if negb (has_software softwareName w) then
      ret (Some (Errorf "software package not found: %s" [softwareName]))
    else
      match lookup_release softwareName version w with
      | None =>
          ret (Some (Errorf "release version not found for software %s: %s"
                            [softwareName; version]))
      | Some _ =>
          let remaining := delete version (default ∅ (releases w !! softwareName)) in
          modify (with_releases (<[softwareName := remaining]> (releases w))) ;;;
          (if Nat.eqb (size remaining) 0
           then modify (fun w => with_releases (delete softwareName (releases w)) w)
           else ret tt) ;;;
          saveReleasesMetadata
      end).

(** The body of the [for] loop of [ReconcileReleases] for one record. *)
Definition reconcile_one (repoPath : string) (metadata : loc)
  : M (option (option error)) :=
  md <- deref metadata ;;
  releaseFilePath <- lift (getReleaseFilePath repoPath md) ;;
  st <- os_Stat releaseFilePath ;;
  if os_IsNotExist (match st with inr e => Some e | inl _ => None end) then
    assign metadata (set_ReleaseState "unavailable") ;;;
    err <- UpdateReleaseMetadata metadata ;;
    match err with
    | Some e =>
        ret (Some (Some (Wrapf "failed to update metadata during reconciliation for %s %s: %w"
                               [SoftwareName md; Version md] e)))
    | None => ret None
    end
  else
    match st with
    | inl _ =>
        assign metadata (set_ReleaseState "available") ;;;
        st2 <- os_Stat releaseFilePath ;;
        match st2 with
        | inr e =>
            ret (Some (Some (Wrapf "failed to stat file during reconciliation for %s %s: %w"
                                   [SoftwareName md; Version md] e)))
        | inl fileInfo =>
            if negb (FileSize md =? Size fileInfo) then
              assign metadata (set_FileSize (Size fileInfo)) ;;;
              err <- UpdateReleaseMetadata metadata ;;
              match err with
              | Some e =>
                  ret (Some (Some (Wrapf "failed to update file size during reconciliation for %s %s: %w"
                                         [SoftwareName md; Version md] e)))
              | None => ret None
              end
            else ret None
        end
    | inr e =>
        ret (Some (Some (Wrapf "error checking release file during reconciliation for %s %s: %w"
                               [SoftwareName md; Version md] e)))
    end.

Definition ReconcileReleases (repoPath : string) : M (option error) :=
  r <- ListAllReleasesMetadata ;;
  match r with
  | inr err =>
      ret (Some (Wrapf "failed to list all release metadata for reconciliation: %w" [] err))
  | inl allReleasesMetadata =>
      r <- for_range allReleasesMetadata (reconcile_one repoPath) ;;
      match r with
      | Some result => ret result
      | None => saveReleasesMetadata
      end
  end.

Definition EnsureReleaseDirExists (repoPath softwareName : string) : M (option error) :=
  let dirPath := getSoftwareDirPath repoPath softwareName in
  st <- os_Stat dirPath ;;
  if os_IsNotExist (match st with inr e => Some e | inl _ => None end) then
    err <- os_MkdirAll dirPath ;;
    match err with
    | Some e => ret (Some (Wrapf "failed to create software release directory: %w" [] e))
    | None => ret None
    end
  else ret None.

Definition copyFile (sourcePath destPath : string) : M (option error) :=
  w <- get_world ;;
  match fault_of SysOpen sourcePath w, nodes w !! sourcePath with
  | Some no, _ =>
      ret (Some (Wrapf "failed to open source file: %w" [] (PathError "open" sourcePath no)))
  | None, None =>
      ret (Some (Wrapf "failed to open source file: %w" [] (PathError "open" sourcePath ENOENT)))
  | None, Some src =>
      match fault_of SysCreate destPath w with
      | Some no =>
          ret (Some (Wrapf "failed to create destination file: %w" []
                           (PathError "open" destPath no)))
      | None =>
          modify (fun w => with_nodes (<[destPath := mkFileInfo 0 false]> (nodes w)) w) ;;;
          match fault_of SysWrite destPath w with
          | Some no =>
              ret (Some (Wrapf "failed to copy file: %w" [] (PathError "write" destPath no)))
          | None =>
              modify (fun w => with_nodes (<[destPath := mkFileInfo (Size src) false]> (nodes w)) w) ;;;
              ret None
          end
      end
  end.

Definition StoreReleaseFile (repoPath tgzFilePath : string) (metadata : loc)
  : M (string * option error) :=
  md <- deref metadata ;;
  err <- EnsureReleaseDirExists repoPath (SoftwareName md) ;;
  match err with
  | Some e => ret ("", Some e)
  | None =>
      destFilePath <- lift (getReleaseFilePath repoPath md) ;;
      err <- copyFile tgzFilePath destFilePath ;;
      match err with
      | Some e => ret ("", Some (Wrapf "failed to store release file: %w" [] e))
      | None => ret (destFilePath, None)
      end
  end.

Definition GetReleaseTGZReader (repoPath : string) (metadata : loc)
  : M (string + error) :=
  md <- deref metadata ;;
  releaseFilePath <- lift (getReleaseFilePath repoPath md) ;;
  w <- get_world ;;
  match fault_of SysOpen releaseFilePath w, nodes w !! releaseFilePath with
  | Some no, _ =>
      ret (inr (Wrapf "failed to open release file for reading: %w" []
                      (PathError "open" releaseFilePath no)))
  | None, None =>
      ret (inr (Wrapf "failed to open release file for reading: %w" []
                      (PathError "open" releaseFilePath ENOENT)))
  | None, Some _ => ret (inl releaseFilePath)
  end.

(** ** Package [sort] *)

(** [sort.Slice] on a short slice (up to twelve elements) is the insertion
    sort of the package: each element moves left past the elements it is
    [less] than, and elements that compare equal keep their order.  On
    longer slices the package sorts by other means, with the same result
    whenever no two elements compare equal.  [sift] works on the sorted
    part held last element first. *)
Fixpoint sift {A} (less : A -> A -> bool) (x : A) (sorted : list A) : list A :=
  match sorted with
  | [] => [x]
  | y :: below => if less x y then y :: sift less x below else x :: sorted
  end.

Definition sort_Slice {A} (less : A -> A -> bool) (l : list A) : list A :=
  reverse (fold_left (fun sorted x => sift less x sorted) l []).

(** ** The release service ([service.go]) *)

(** [releases[i].Version] and [releases[i].ReleaseDate] inside a comparison.
    The map never holds a nil pointer ([CreateReleaseMetadata] and
    [UpdateReleaseMetadata] read through the pointer before they store it),
    so the zero values below are never used on a pointer taken from it. *)
Definition version_at (w : World) (p : loc) : SemVer :=
  fst (parseVersion (default "" (Version <$> heap w !! p))).

Definition date_at (w : World) (p : loc) : Time :=
  default 0 (ReleaseDate <$> heap w !! p).

Definition list_less (w : World) (sortField sortOrder : string) (ri rj : loc) : bool :=
  if String.eqb sortField "version" then
    let version1 := version_at w ri in
    let version2 := version_at w rj in
    if String.eqb sortOrder "desc" then GreaterThan version1 version2
    else GreaterThan version2 version1
  else if String.eqb sortField "date" then
    if String.eqb sortOrder "desc" then Time_After (date_at w ri) (date_at w rj)
    else Time_After (date_at w rj) (date_at w ri)
  else
    let version1 := version_at w ri in
    let version2 := version_at w rj in
    GreaterThan version1 version2.

Definition ListReleasesForSoftware (softwareName sortField sortOrder : string)
  : M (list loc + error) :=
  r <- ListReleasesMetadataForSoftware softwareName ;;
  match r with
  | inr err =>
      ret (inr (Wrapf "failed to list releases for software %s: %w" [softwareName] err))
  | inl releases =>
      w <- get_world ;;
      ret (inl (sort_Slice (list_less w sortField sortOrder) releases))
  end.

Definition latest_less (w : World) (ri rj : loc) : bool :=
  let version1 := version_at w ri in
  let version2 := version_at w rj in
  GreaterThan version1 version2.

Definition GetLatestReleaseForSoftware (softwareName : string) : M (loc + error) :=
  r <- ListReleasesMetadataForSoftware softwareName ;;
  match r with
  | inr err =>
      ret (inr (Wrapf "failed to get releases for software %s to find latest: %w"
                      [softwareName] err))
  | inl [] => ret (inr (Errorf "no releases found for software: %s" [softwareName]))
  | inl releases =>
      w <- get_world ;;
      match sort_Slice (latest_less w) releases with
      | first :: _ => ret (inl first)
      | [] => lift (Panic "index out of range")
      end
  end.

Definition UploadRelease (tgzFilePath : string) (metadata : ReleaseMetadata)
  : M (option error) :=
  w <- get_world ;;
  (* the parameter [metadata] has its address taken: it lives in the heap *)
  let p := fresh (dom (heap w)) in
  modify (with_heap (<[p := set_ReleaseTimestamp (clock w) metadata]> (heap w))) ;;;
  r <- StoreReleaseFile (RepositoryPath w) tgzFilePath p ;;
  match r with
  | (_, Some err) => ret (Some (Wrapf "failed to store release file: %w" [] err))
  | (destFilePath, None) =>
      st <- os_Stat destFilePath ;;
      match st with
      | inr err =>
          ret (Some (Wrapf "failed to get file size after storing release: %w" [] err))
      | inl fileInfo =>
          assign p (set_FileSize (Size fileInfo)) ;;;
          assign p (set_ReleaseState "available") ;;;
          err <- CreateReleaseMetadata p ;;
          match err with
          | Some e =>
              _ <- os_Remove destFilePath ;;
              ret (Some (Wrapf "failed to create release metadata and rollback file storage: %w"
                               [] e))
          | None => ret None
          end
      end
  end.

Definition Service_ReconcileReleases : M (option error) :=
  w <- get_world ;;
  ReconcileReleases (RepositoryPath w).

(** ** Worlds used in the examples *)

Definition free_mu : RWMutex := mkRWMutex false 0.

Definition md0 (name version : string) (size : Z) (state : string) : ReleaseMetadata :=
  mkReleaseMetadata "" name version 0 size state "" 0.

Definition empty_world : World :=
  mkWorld ∅ "/data/releases.json" ∅ free_mu "/repo" ∅ None [] 100 [].

Definition acme_path : string := "/repo/891194_acme/891194_acme_01.00.00.tgz".

(** One record, [acme 1.0.0], available with size 1024; its file is not on
    disk. *)
Definition world_missing : World :=
  mkWorld {[ 1%positive := md0 "acme" "1.0.0" 1024 "available" ]}
          "/data/releases.json"
          {[ "acme" := {[ "1.0.0" := 1%positive ]} ]}
          free_mu "/repo" ∅
          (Some [md0 "acme" "1.0.0" 1024 "available"]) [] 100 [].


(** The store of [world_missing], and a record of [acme 2.0.0] that is not
    yet filed. *)
Definition world_second : World :=
  with_heap (<[2%positive := md0 "acme" "2.0.0" 10 "available"]> (heap world_missing))
            world_missing.

(** The store after a first upload of [acme 1.0.0]: the record is there and
    its file is on disk.  A second archive waits in [/tmp], and the file of
    the release cannot be removed. *)
Definition world_retry : World :=
  mkWorld {[ 1%positive := md0 "acme" "1.0.0" 1024 "available" ]}
          "/data/releases.json"
          {[ "acme" := {[ "1.0.0" := 1%positive ]} ]}
          free_mu "/repo"
          {[ "/tmp/x.tgz" := mkFileInfo 77 false;
             "/repo/891194_acme" := mkFileInfo 0 true;
             acme_path := mkFileInfo 1024 false ]}
          (Some [md0 "acme" "1.0.0" 1024 "available"])
          [(SysRemove, acme_path, EPERM)] 100 [].

(** Two releases of [acme] whose version strings differ and whose versions
    compare equal.  The tape holds the orders of the next two ranges over
    the map of [acme]. *)
Definition world_ties : World :=
  mkWorld {[ 1%positive := md0 "acme" "1.0.0" 10 "available";
             2%positive := md0 "acme" "1.00.0" 20 "available" ]}
          "/data/releases.json"
          {[ "acme" := {[ "1.0.0" := 1%positive; "1.00.0" := 2%positive ]} ]}
          free_mu "/repo" ∅ None [] 100
          [["1.0.0"; "1.00.0"]; ["1.00.0"; "1.0.0"]].

(** Three releases of [acme]: 1.0.0 and 1.00.0, which compare equal, and
    2.0.0, which is greater than both.  The tape holds the orders of the
    next two ranges over the map of [acme]. *)
Definition world_three : World :=
  mkWorld {[ 1%positive := md0 "acme" "1.0.0" 10 "available";
             2%positive := md0 "acme" "1.00.0" 20 "available";
             3%positive := md0 "acme" "2.0.0" 30 "available" ]}
          "/data/releases.json"
          {[ "acme" := {[ "1.0.0" := 1%positive; "1.00.0" := 2%positive;
                          "2.0.0" := 3%positive ]} ]}
          free_mu "/repo" ∅ None [] 100
          [["1.0.0"; "1.00.0"; "2.0.0"]; ["1.00.0"; "2.0.0"; "1.0.0"]].

(** Two releases of [acme], 1.0.0 and 2.0.0. *)
Definition world_two : World :=
  mkWorld {[ 1%positive := md0 "acme" "1.0.0" 10 "available";
             2%positive := md0 "acme" "2.0.0" 20 "available" ]}
          "/data/releases.json"
          {[ "acme" := {[ "1.0.0" := 1%positive; "2.0.0" := 2%positive ]} ]}
          free_mu "/repo" ∅ None [] 100 [["2.0.0"; "1.0.0"]].

(** The same record, marked unavailable, after its file has come back with
    another size. *)
Definition world_resized : World :=
  mkWorld {[ 1%positive := md0 "acme" "1.0.0" 1024 "unavailable" ]}
          "/data/releases.json"
          {[ "acme" := {[ "1.0.0" := 1%positive ]} ]}
          free_mu "/repo"
          {[ acme_path := mkFileInfo 2048 false ]}
          (Some [md0 "acme" "1.0.0" 1024 "unavailable"]) [] 100 [].

Definition zlib_path : string := "/repo/595915_zlib/595915_zlib_01.00.00.tgz".

(** Two packages.  The file of [acme 1.0.0] is on disk with the recorded
    size, and the record is marked unavailable; the file of [zlib 1.0.0]
    cannot be stat'ed (permission denied).  [order] is the order of the
    first range over the packages, [order'] of the second. *)
Definition world_denied (order order' : list string) : World :=
  mkWorld {[ 1%positive := md0 "acme" "1.0.0" 1024 "unavailable";
             2%positive := md0 "zlib" "1.0.0" 512 "available" ]}
          "/data/releases.json"
          {[ "acme" := {[ "1.0.0" := 1%positive ]};
             "zlib" := {[ "1.0.0" := 2%positive ]} ]}
          free_mu "/repo"
          {[ acme_path := mkFileInfo 1024 false ]}
          (Some [md0 "acme" "1.0.0" 1024 "unavailable"; md0 "zlib" "1.0.0" 512 "available"])
          [(SysStat, zlib_path, EACCES)] 100
          [order; []; []; order'; []; []].

(** The record of [acme 1.0.0] marked unavailable while its file is on disk
    with the recorded size. *)
Definition world_back : World :=
  mkWorld {[ 1%positive := md0 "acme" "1.0.0" 1024 "unavailable" ]}
          "/data/releases.json"
          {[ "acme" := {[ "1.0.0" := 1%positive ]} ]}
          free_mu "/repo"
          {[ acme_path := mkFileInfo 1024 false ]}
          (Some [md0 "acme" "1.0.0" 1024 "unavailable"]) [] 100 [].

(** ** Specification-side notions *)

(** *** Names *)

(** Text in which every byte is below 128: each byte is one rune, and
    [strings.ToLower] changes the upper-case letters only. *)
Fixpoint is_ascii (s : string) : bool :=
  match s with
  | EmptyString => true
  | String c s' => (nat_of_ascii c <? 128)%nat && is_ascii s'
  end.

(** *** Version strings *)

Fixpoint all_digits (s : string) : bool :=
  match s with
  | EmptyString => true
  | String c s' => Strconv.is_digit c && all_digits s'
  end.

(** The number written by a string of decimal digits, most significant
    digit first. *)
Fixpoint decimal (acc : Z) (s : string) : Z :=
  match s with
  | EmptyString => acc
  | String c s' => decimal (acc * 10 + Strconv.digit_val c) s'
  end.

(** [s] is one or more decimal digits: a non-negative base-10 integer. *)
Definition nat_literal (s : string) : Prop :=
  s <> "" /\ all_digits s = true.

(** [s] writes the integer [v] the way [strconv.Atoi] reads it: an optional
    sign, one or more decimal digits, a value that fits a 64-bit [int]. *)
Definition int_literal (s : string) (v : Z) : Prop :=
  exists sign body,
    s = sign +:+ body /\
    (sign = "" \/ sign = "+" \/ sign = "-") /\
    nat_literal body /\
    v = (if String.eqb sign "-" then - decimal 0 body else decimal 0 body) /\
    Strconv.min_int <= v <= Strconv.max_int.

(** The claim of the specification, in its words: exactly three
    dot-separated, non-negative base-10 integer components. *)
Definition three_nonneg_components (s : string) : Prop :=
  exists a b c,
    s = a +:+ "." +:+ b +:+ "." +:+ c /\
    nat_literal a /\ nat_literal b /\ nat_literal c.

(** What [parseVersion] accepts. *)
Definition three_int_components (s : string) (major minor patch : Z) : Prop :=
  exists a b c,
    s = a +:+ "." +:+ b +:+ "." +:+ c /\
    int_literal a major /\ int_literal b minor /\ int_literal c patch.

(** *** Reported errors *)

(** [result] reports [e]: [e] is the returned error or one of the errors it
    wraps. *)
Definition reports (result : option error) (e : error) : Prop :=
  exists r, result = Some r /\ e ∈ chain r.

(** *** Ordering releases *)

(** One release of the collection has the greatest version: [p] is in the
    collection and its version is greater than the version of every other
    release of it. *)
Definition sole_greatest (w : World) (softwareReleases : gmap string loc) (p : loc)
  : bool :=
  let ps := (map_to_list softwareReleases).*2 in
  existsb (fun q => bool_decide (q = p)) ps &&
  forallb (fun q =>
    bool_decide (q = p) || GreaterThan (version_at w p) (version_at w q)) ps.

(** The sort asked for is by version, descending: said so, or by default. *)
Definition by_version_desc (sortField sortOrder : string) : Prop :=
  (sortField = "version" /\ sortOrder = "desc") \/
  (sortField <> "version" /\ sortField <> "date").

(** *** The store invariant *)

(** Every software name present in the store has at least one release. *)
Definition no_empty_software (w : World) : Prop :=
  forall softwareName softwareReleases,
    releases w !! softwareName = Some softwareReleases -> softwareReleases <> ∅.

(** *** Reconciled records *)

(** [p] is one of the pointers held by the map of the database. *)
Definition held (w : World) (p : loc) : Prop :=
  exists softwareName softwareReleases version,
    releases w !! softwareName = Some softwareReleases /\
    softwareReleases !! version = Some p.

(** The record behind [p] agrees with the disk: its file can be stat'ed, it
    is marked available and its size is the size of the file. *)
Definition settled (repoPath : string) (w : World) (p : loc) : Prop :=
  exists md path fileInfo,
    heap w !! p = Some md /\
    getReleaseFilePath repoPath md = Done path /\
    fault_of SysStat path w = None /\
    nodes w !! path = Some fileInfo /\
    ReleaseState md = "available" /\
    FileSize md = Size fileInfo.

(** The world after a save: the file holds [rs], the tape has moved on. *)
Definition saved (rs : list ReleaseMetadata) (t : list (list string)) (u : World) : World :=
  with_datafile (Some rs) (with_tape t u).

(** *** Paths *)




(** ** Loading the database ([repository.go]) *)

(** The world holds the file of the database as the records last handed to
    the encoder ([datafile]), and there is a file when it holds some.  What
    [json.Decoder.Decode] makes of the bytes of the file is not computed
    here: it is a parameter of the load, [decoded], which is the error of
    the decoder or the elements of the decoded array, a [null] element
    being a nil pointer. *)

(** [os.Stat(db.filepath)], of which only the error is used. *)
Definition stat_datafile : M (option error) := fun w =>
  match fault_of SysStat (filepath w) w with
  | Some no => (Done (Some (PathError "stat" (filepath w) no)), w)
  | None =>
      match datafile w with
      | Some _ => (Done None, w)
      | None => (Done (Some (PathError "stat" (filepath w) ENOENT)), w)
      end
  end.

(** [os.Open(db.filepath)]. *)
Definition open_datafile : M (option error) := fun w =>
  match fault_of SysOpen (filepath w) w with
  | Some no => (Done (Some (PathError "open" (filepath w) no)), w)
  | None =>
      match datafile w with
      | Some _ => (Done None, w)
      | None => (Done (Some (PathError "open" (filepath w) ENOENT)), w)
      end
  end.

(** The slice that a successful [Decode] leaves in [releasesMetadata]: a
    new object for every record of the array, nil for a [null]. *)
Fixpoint decode (elems : list (option ReleaseMetadata)) : M (list (option loc)) :=
  match elems with
  | [] => ret []
  | None :: rest =>
      ps <- decode rest ;;
      ret (None :: ps)
  | Some r :: rest =>
      w <- get_world ;;
      let p := fresh (dom (heap w)) in
      modify (with_heap (<[p := r]> (heap w))) ;;;
      ps <- decode rest ;;
      ret (Some p :: ps)
  end.

(** [metadata.SoftwareName] on a pointer that may be nil. *)
Definition deref_ptr (metadata : option loc) : M (loc * ReleaseMetadata) :=
  match metadata with
  | Some p => md <- deref p ;; ret (p, md)
  | None => lift (Panic "invalid memory address or nil pointer dereference")
  end.

(** The [for] loop that populates the nested map. *)
Fixpoint populate (releasesMetadata : list (option loc)) : M unit :=
  match releasesMetadata with
  | [] => ret tt
  | metadata :: rest =>
      pmd <- deref_ptr metadata ;;
      let '(p, md) := pmd in
      w <- get_world ;;
      (if has_software (SoftwareName md) w then ret tt
       else modify (fun w => with_releases (<[SoftwareName md := ∅]> (releases w)) w)) ;;;
      store_release (SoftwareName md) (Version md) p ;;;
      populate rest
  end.

Definition loadReleasesMetadata (decoded : list (option ReleaseMetadata) + error)
  : M (option error) :=
  err <- stat_datafile ;;
  if os_IsNotExist err then ret None
  else
    err <- open_datafile ;;
    match err with
    | Some e =>
        ret (Some (Wrapf "failed to open release metadata database file: %w" [] e))
    | None =>
        match decoded with
        | inr e =>
            ret (Some (Wrapf "failed to decode release metadata database: %w" [] e))
        | inl elems =>
            releasesMetadata <- decode elems ;;
            modify (with_releases ∅) ;;;
            populate releasesMetadata ;;;
            ret None
        end
    end.

(** [NewJSONReleaseDatabase]: the world holds one database; opening it anew
    on its file gives it an empty map and a free mutex before the load. *)
Definition NewJSONReleaseDatabase (decoded : list (option ReleaseMetadata) + error)
  : M (option error) :=
  modify (fun w => with_mu (mkRWMutex false 0) (with_releases ∅ w)) ;;;
  loadReleasesMetadata decoded.

(** The exported [GetReleaseFilePath] of the database. *)
Definition GetReleaseFilePath (repoPath : string) (metadata : loc) : M string :=
  md <- deref metadata ;;
  lift (getReleaseFilePath repoPath md).

(** ** The release service, continued ([service.go]) *)

Definition GetTotalReleases : M Z :=
  r <- ListAllReleasesMetadata ;;
  let releases := match r with inl l => l | inr _ => [] end in
  ret (Z.of_nat (length releases)).

(** The loop that marks the software names met. *)
Fixpoint mark_packages (releases : list loc) (softwarePackages : gmap string bool)
  : M (gmap string bool) :=
  match releases with
  | [] => ret softwarePackages
  | r :: rest =>
      md <- deref r ;;
      mark_packages rest (<[SoftwareName md := true]> softwarePackages)
  end.

Definition GetTotalSoftwarePackages : M Z :=
  r <- ListAllReleasesMetadata ;;
  let releases := match r with inl l => l | inr _ => [] end in
  softwarePackages <- mark_packages releases ∅ ;;
  ret (Z.of_nat (size softwarePackages)).

Record SoftwarePackageInfo := mkSoftwarePackageInfo {
  Name : string;
  LatestVersion : string;
  LatestReleaseDate : Time
}.

(** The loop over [allReleases].  Each [*SoftwarePackageInfo] is made in the
    loop and held by one key of [packageMap] only, so the map is a map of
    records here. *)
Fixpoint collect_packages (allReleases : list loc)
  (packageMap : gmap string SoftwarePackageInfo) : M (gmap string SoftwarePackageInfo) :=
  match allReleases with
  | [] => ret packageMap
  | release :: rest =>
      r <- deref release ;;
      match packageMap !! SoftwareName r with
      | Some pkgInfo =>
          let currentVersion := fst (parseVersion (LatestVersion pkgInfo)) in
          let newVersion := fst (parseVersion (Version r)) in
          if GreaterThan newVersion currentVersion then
            collect_packages rest
              (<[SoftwareName r :=
                   mkSoftwarePackageInfo (Name pkgInfo) (Version r) (ReleaseDate r)]> packageMap)
          else collect_packages rest packageMap
      | None =>
          collect_packages rest
            (<[SoftwareName r :=
                 mkSoftwarePackageInfo (SoftwareName r) (Version r) (ReleaseDate r)]> packageMap)
      end
  end.

(** [a < b] on Go strings: byte-wise lexicographic. *)
Definition string_lt (a b : string) : bool :=
  match String.compare a b with
  | Lt => true
  | _ => false
  end.

Definition ListSoftwarePackages : M (list SoftwarePackageInfo + error) :=
  r <- ListAllReleasesMetadata ;;
  match r with
  | inr err =>
      ret (inr (Wrapf "failed to list all releases for software packages overview: %w" [] err))
  | inl allReleases =>
      packageMap <- collect_packages allReleases ∅ ;;
      kvs <- range_map packageMap ;;
      ret (inl (sort_Slice (fun a b => string_lt (Name a) (Name b)) (kvs.*2)))
  end.

Definition Service_GetReleaseFilePath (softwareName version : string)
  : M (string * option error) :=
  r <- GetReleaseMetadata softwareName version ;;
  match r with
  | inr err => ret ("", Some err)
  | inl metadata =>
      md <- deref metadata ;;
      if negb (String.eqb (ReleaseState md) "available") then
        ret ("", Some (Errorf "release is not available: %s %s" [softwareName; version]))
      else
        w <- get_world ;;
        r <- GetReleaseTGZReader (RepositoryPath w) metadata ;;
        match r with
        | inr err => ret ("", Some err)
        | inl _ =>
            path <- GetReleaseFilePath (RepositoryPath w) metadata ;;
            ret (path, None)
        end
  end.

(** ** The user database ([user.go]) *)

Record User := mkUser {
  Username : string;
  PasswordHash : string;
  Roles : list string;
  Enabled : bool
}.

Definition set_PasswordHash (h : string) (u : User) : User :=
  mkUser (Username u) h (Roles u) (Enabled u).

Definition set_Enabled (e : bool) (u : User) : User :=
  mkUser (Username u) (PasswordHash u) (Roles u) e.

(** The world of the user database: the records behind the [*User]
    pointers, the database with its mutex, its file as the records last
    handed to the encoder, the system calls that fail and the orders of
    the coming map ranges. *)
Record UserWorld := mkUserWorld {
  uheap : gmap loc User;
  ufilepath : string;                          (* db.filepath *)
  users : gmap string loc;                     (* db.users *)
  umu : RWMutex;                               (* db.mu *)
  userfile : option (list User);               (* the file at db.filepath *)
  ufaults : list (syscall * string * errno);
  utape : list (list string)
}.

Definition with_uheap (h : gmap loc User) (w : UserWorld) : UserWorld :=
  mkUserWorld h (ufilepath w) (users w) (umu w) (userfile w) (ufaults w) (utape w).
Definition with_users (m : gmap string loc) (w : UserWorld) : UserWorld :=
  mkUserWorld (uheap w) (ufilepath w) m (umu w) (userfile w) (ufaults w) (utape w).
Definition with_umu (m : RWMutex) (w : UserWorld) : UserWorld :=
  mkUserWorld (uheap w) (ufilepath w) (users w) m (userfile w) (ufaults w) (utape w).
Definition with_userfile (f : option (list User)) (w : UserWorld) : UserWorld :=
  mkUserWorld (uheap w) (ufilepath w) (users w) (umu w) f (ufaults w) (utape w).
Definition with_utape (t : list (list string)) (w : UserWorld) : UserWorld :=
  mkUserWorld (uheap w) (ufilepath w) (users w) (umu w) (userfile w) (ufaults w) t.

(** Calls on the user database, as [M] for the release database. *)
Definition UM (A : Type) : Type := UserWorld -> outcome A * UserWorld.

Definition uret {A} (a : A) : UM A := fun w => (Done a, w).

Definition ubind {A B} (m : UM A) (k : A -> UM B) : UM B :=
  fun w =>
    match m w with
    | (Done a, w') => k a w'
    | (Panic msg, w') => (Panic msg, w')
    | (Blocked, w') => (Blocked, w')
    end.

Definition udefer {A} (d : UM unit) (body : UM A) : UM A :=
  fun w =>
    match body w with
    | (Blocked, w') => (Blocked, w')
    | (r, w') => (r, snd (d w'))
    end.

Definition uget_world : UM UserWorld := fun w => (Done w, w).
Definition umodify (f : UserWorld -> UserWorld) : UM unit := fun w => (Done tt, f w).

Declare Scope user_scope.
Delimit Scope user_scope with user.
Notation "x <- m ;; k" := (ubind m (fun x => k))
  (at level 100, m at next level, right associativity) : user_scope.
Notation "m ;;; k" := (ubind m (fun _ => k))
  (at level 100, right associativity) : user_scope.

Section user_database.
Local Open Scope user_scope.

Definition umu_Lock : UM unit := fun w =>
  if writer (umu w) || negb (Nat.eqb (readers (umu w)) 0) then (Blocked, w)
  else (Done tt, with_umu (mkRWMutex true (readers (umu w))) w).

Definition umu_Unlock : UM unit := fun w =>
  if writer (umu w) then (Done tt, with_umu (mkRWMutex false (readers (umu w))) w)
  else (Panic "sync: Unlock of unlocked RWMutex", w).

Definition umu_RLock : UM unit := fun w =>
  if writer (umu w) then (Blocked, w)
  else (Done tt, with_umu (mkRWMutex false (S (readers (umu w)))) w).

Definition umu_RUnlock : UM unit := fun w =>
  match readers (umu w) with
  | O => (Panic "sync: RUnlock of unlocked RWMutex", w)
  | S n => (Done tt, with_umu (mkRWMutex (writer (umu w)) n) w)
  end.

Definition uderef (p : loc) : UM User := fun w =>
  match uheap w !! p with
  | Some u => (Done u, w)
  | None => (Panic "invalid memory address or nil pointer dereference", w)
  end.

(** [p.field = v] *)
Definition uassign (p : loc) (f : User -> User) : UM unit :=
  u <- uderef p ;; umodify (fun w => with_uheap (<[p := f u]> (uheap w)) w).

Definition urange_map {V} (m : gmap string V) : UM (list (string * V)) := fun w =>
  let ks := arrange (default [] (head (utape w))) ((map_to_list m).*1) in
  (Done (omap (fun k => pair k <$> m !! k) ks), with_utape (tail (utape w)) w).

Definition ufault_of (c : syscall) (path : string) (w : UserWorld) : option errno :=
  lookup_fault c path (ufaults w).

Definition GetUserByUsername (username : string) : UM (loc + error) :=
  umu_RLock ;;;
  udefer umu_RUnlock (
    w <- uget_world ;;
    match users w !! username with
    | None => uret (inr (Errorf "user not found: %s" [username]))
    | Some user => uret (inl user)
    end).

Definition ListUsers : UM (list loc + error) :=
  umu_RLock ;;;
  udefer umu_RUnlock (
    w <- uget_world ;;
    kvs <- urange_map (users w) ;;
    uret (inl (kvs.*2))).

(** [json.Encoder.Encode] follows each pointer of the slice. *)
Fixpoint uencode (ps : list loc) : UM (list User) :=
  match ps with
  | [] => uret []
  | p :: rest =>
      u <- uderef p ;;
      us <- uencode rest ;;
      uret (u :: us)
  end.

Definition saveUsers : UM (option error) :=
  umu_RLock ;;;
  w <- uget_world ;;
  kvs <- urange_map (users w) ;;
  let usersSlice := kvs.*2 in
  umu_RUnlock ;;;
  w <- uget_world ;;
  match ufault_of SysCreate (ufilepath w) w with
  | Some no =>
      uret (Some (Wrapf "failed to open user database file for writing: %w" []
                        (PathError "open" (ufilepath w) no)))
  | None =>
      (* os.Create truncates the file *)
      umodify (with_userfile (Some [])) ;;;
      match ufault_of SysWrite (ufilepath w) w with
      | Some no =>
          uret (Some (Wrapf "failed to encode user database to JSON: %w" []
                            (PathError "write" (ufilepath w) no)))
      | None =>
          records <- uencode usersSlice ;;
          umodify (with_userfile (Some records)) ;;;
          uret None
      end
  end.

(** The four writes take the lock without [defer]: the early [return] of
    each leaves it held. *)
Definition CreateUser (user : loc) : UM (option error) :=
  umu_Lock ;;;
  u <- uderef user ;;
  w <- uget_world ;;
  match users w !! Username u with
  | Some _ => uret (Some (Errorf "user already exists: %s" [Username u]))
  | None =>
      umodify (fun w => with_users (<[Username u := user]> (users w)) w) ;;;
      umu_Unlock ;;;
      saveUsers
  end.

Definition UpdateUserPassword (username newPasswordHash : string) : UM (option error) :=
  umu_Lock ;;;
  w <- uget_world ;;
  match users w !! username with
  | None => uret (Some (Errorf "user not found: %s" [username]))
  | Some user =>
      uassign user (set_PasswordHash newPasswordHash) ;;;
      umu_Unlock ;;;
      saveUsers
  end.

Definition DeleteUser (username : string) : UM (option error) :=
  umu_Lock ;;;
  w <- uget_world ;;
  match users w !! username with
  | None => uret (Some (Errorf "user not found: %s" [username]))
  | Some _ =>
      umodify (fun w => with_users (delete username (users w)) w) ;;;
      umu_Unlock ;;;
      saveUsers
  end.

Definition EnableDisableUser (username : string) (enabled : bool) : UM (option error) :=
  umu_Lock ;;;
  w <- uget_world ;;
  match users w !! username with
  | None => uret (Some (Errorf "user not found: %s" [username]))
  | Some usr =>
      uassign usr (set_Enabled enabled) ;;;
      umu_Unlock ;;;
      saveUsers
  end.

(** The slice that a successful [Decode] leaves in [users]: a new object
    for every record of the array, nil for a [null].  As for the release
    database, what the decoder makes of the file is a parameter of the
    load. *)
Fixpoint udecode (elems : list (option User)) : UM (list (option loc)) :=
  match elems with
  | [] => uret []
  | None :: rest =>
      ps <- udecode rest ;;
      uret (None :: ps)
  | Some u :: rest =>
      w <- uget_world ;;
      let p := fresh (dom (uheap w)) in
      umodify (with_uheap (<[p := u]> (uheap w))) ;;;
      ps <- udecode rest ;;
      uret (Some p :: ps)
  end.

Fixpoint upopulate (us : list (option loc)) : UM unit :=
  match us with
  | [] => uret tt
  | None :: rest =>
      fun w => (Panic "invalid memory address or nil pointer dereference", w)
  | Some u :: rest =>
      r <- uderef u ;;
      umodify (fun w => with_users (<[Username r := u]> (users w)) w) ;;;
      upopulate rest
  end.

Definition loadUsers (decoded : list (option User) + error) : UM (option error) :=
  w <- uget_world ;;
  let err :=
    match ufault_of SysStat (ufilepath w) w with
    | Some no => Some (PathError "stat" (ufilepath w) no)
    | None =>
        match userfile w with
        | Some _ => None
        | None => Some (PathError "stat" (ufilepath w) ENOENT)
        end
    end in
  if os_IsNotExist err then uret None
  else
    match ufault_of SysOpen (ufilepath w) w, userfile w with
    | Some no, _ =>
        uret (Some (Wrapf "failed to open user database file: %w" []
                          (PathError "open" (ufilepath w) no)))
    | None, None =>
        uret (Some (Wrapf "failed to open user database file: %w" []
                          (PathError "open" (ufilepath w) ENOENT)))
    | None, Some _ =>
        match decoded with
        | inr e => uret (Some (Wrapf "failed to decode user database: %w" [] e))
        | inl elems =>
            us <- udecode elems ;;
            umodify (with_users ∅) ;;;
            upopulate us ;;;
            uret None
        end
    end.

(** [NewJSONUserDatabase]: the world holds one user database; opening it
    anew on its file gives it an empty map and a free mutex before the
    load. *)
Definition NewJSONUserDatabase (decoded : list (option User) + error)
  : UM (option error) :=
  umodify (fun w => with_umu (mkRWMutex false 0) (with_users ∅ w)) ;;;
  loadUsers decoded.

End user_database.

(** Example worlds of the user database. *)
Definition alice : User := mkUser "alice" "5f4dcc3b" ["user"] true.
Definition bob : User := mkUser "bob" "e99a18c4" ["user"] true.

(** [alice] is in the database; a record of [bob] and a second record
    named [alice] are not yet. *)
Definition users_one : UserWorld :=
  mkUserWorld {[ 1%positive := alice; 2%positive := bob;
                 3%positive := mkUser "alice" "" [] false ]}
              "/data/users.json" {[ "alice" := 1%positive ]} free_mu
              (Some [alice]) [] [].

(** A world whose user file holds two records named [alice], before the
    database is opened. *)
Definition users_twice : UserWorld :=
  mkUserWorld ∅ "/data/users.json" ∅ free_mu
              (Some [alice; bob; mkUser "alice" "0d107d09" ["user"] false]) [] [].

(** ** Configuration ([config.go]) *)

Module Configuration.

Record Config := mkConfig {
  LogFilePath : string;
  APIServerAddress : string;
  DataPath : string;
  RepositoryPath : string;
  ShutdownDelay : Z;
  ConfigFileUsed : string
}.

Definition defaultLogFilePath : string := "gemini.rel-man.log".
Definition defaultAPIServerAddress : string := ":8080".
Definition defaultDataPath : string := "./data".
Definition defaultRepositoryPath : string := "./repository".
Definition defaultShutdownDelay : Z := 5.
Definition configFileName : string := "gemini.rel-man.config.json".

(** What a configuration file sets: the members of the JSON object that
    are there ([ConfigFileUsed] is never read from the file). *)
Record ConfigFile := mkConfigFile {
  log_file_path : option string;
  api_listener : option string;
  data_path : option string;
  repository_path : option string;
  shutdown_delay_seconds : option Z
}.

(** A file as [loadConfigFile] meets it: it cannot be opened, it does not
    decode into a [Config], or it decodes. *)
Inductive file :=
| Unopenable (no : errno)
| Undecodable (cause : error)
| Decodable (fields : ConfigFile).

(** The host: its environment and its files, by path; a path that is not
    there does not exist. *)
Record Host := mkHost {
  environ : gmap string string;
  files : gmap string file
}.

(** A line written to the standard output, with the operands of its
    format kept as they are. *)
Inductive printed :=
| Println (line : string)
| Printf (format : string) (args : list string)
| Printf_error (format : string) (err : error).

(** [os.Getenv]: the empty string for a variable that is not set. *)
Definition os_Getenv (h : Host) (key : string) : string :=
  default "" (environ h !! key).

Definition DefaultConfig : Config :=
  mkConfig defaultLogFilePath defaultAPIServerAddress defaultDataPath
           defaultRepositoryPath defaultShutdownDelay "".

Definition getConfigFilePath (h : Host) : string :=
  let envPath := os_Getenv h "QFT_RELMAN_CONFIG_PATH" in
  if negb (String.eqb envPath "") then envPath else configFileName.

(** [json.Decoder.Decode(cfg)]: the members of the file overwrite the
    fields, the others stay. *)
Definition decode_into (cfg : Config) (fields : ConfigFile) : Config :=
  mkConfig (default (LogFilePath cfg) (log_file_path fields))
           (default (APIServerAddress cfg) (api_listener fields))
           (default (DataPath cfg) (data_path fields))
           (default (RepositoryPath cfg) (repository_path fields))
           (default (ShutdownDelay cfg) (shutdown_delay_seconds fields))
           (ConfigFileUsed cfg).

(** [cfg] is a pointer in the code; the function hands back the
    configuration it leaves behind it.  After a failed decode the caller
    drops the configuration. *)
Definition loadConfigFile (h : Host) (cfg : Config) (path : string)
  : Config * option error :=
  match files h !! path with
  | None => (cfg, Some (PathError "open" path ENOENT))
  | Some (Unopenable no) => (cfg, Some (PathError "open" path no))
  | Some (Undecodable cause) =>
      (cfg, Some (Wrapf "failed to decode config file: %w" [] cause))
  | Some (Decodable fields) => (decode_into cfg fields, None)
  end.

Definition setIfEnvExists (h : Host) (configValue : string) (envName : string) : string :=
  let val := os_Getenv h envName in
  if negb (String.eqb val "") then val else configValue.

Definition applyEnvironmentVariables (h : Host) (cfg : Config) : Config * list printed :=
  let logFilePath := setIfEnvExists h (LogFilePath cfg) "QFT_RELMAN_LOG_FILE_PATH" in
  let apiServerAddress := setIfEnvExists h (APIServerAddress cfg) "QFT_RELMAN_API_ADDRESS" in
  let dataPath := setIfEnvExists h (DataPath cfg) "QFT_RELMAN_DATA_PATH" in
  let repositoryPath := setIfEnvExists h (RepositoryPath cfg) "QFT_RELMAN_REPO_PATH" in
  let val := os_Getenv h "QFT_RELMAN_SHUTDOWN_DELAY" in
  if negb (String.eqb val "") then
    match Strconv.Atoi val with
    | inl delay =>
        (mkConfig logFilePath apiServerAddress dataPath repositoryPath delay
                  (ConfigFileUsed cfg), [])
    | inr kind =>
        (mkConfig logFilePath apiServerAddress dataPath repositoryPath
                  (ShutdownDelay cfg) (ConfigFileUsed cfg),
         [Printf_error
            "Warning: Invalid value for QFT_RELMAN_SHUTDOWN_DELAY, using default. Error: %v\n"
            (NumError "Atoi" val kind)])
    end
  else
    (mkConfig logFilePath apiServerAddress dataPath repositoryPath
              (ShutdownDelay cfg) (ConfigFileUsed cfg), []).

Definition validateConfig (cfg : Config) : option error :=
  if String.eqb (APIServerAddress cfg) "" then
    Some (Errorf "API listener address cannot be empty" [])
  else if String.eqb (DataPath cfg) "" then
    Some (Errorf "data path cannot be empty" [])
  else if String.eqb (RepositoryPath cfg) "" then
    Some (Errorf "repository path cannot be empty" [])
  else if ShutdownDelay cfg <? 0 then
    Some (Errorf "shutdown delay must be non-negative" [])
  else None.

Definition with_ConfigFileUsed (path : string) (cfg : Config) : Config :=
  mkConfig (LogFilePath cfg) (APIServerAddress cfg) (DataPath cfg)
           (RepositoryPath cfg) (ShutdownDelay cfg) path.

(** [LoadConfig]: the configuration or the error, and what was printed. *)
Definition LoadConfig (h : Host) : (Config + error) * list printed :=
  let cfg := DefaultConfig in
  let configFilePath := getConfigFilePath h in
  match loadConfigFile h cfg configFilePath with
  | (cfg, Some err) =>
      if negb (os_IsNotExist (Some err)) then
        (inr (Wrapf "failed to load config file: %w" [] err), [])
      else
        let out1 :=
          [Println "Configuration file not found, using default values and environment variables."] in
        let '(cfg, out2) := applyEnvironmentVariables h cfg in
        match validateConfig cfg with
        | Some err => (inr (Wrapf "configuration validation failed: %w" [] err), out1 ++ out2)
        | None => (inl cfg, out1 ++ out2)
        end
  | (cfg, None) =>
      let cfg := with_ConfigFileUsed configFilePath cfg in
      let out1 := [Printf "Configuration loaded from file: %s\n" [configFilePath]] in
      let '(cfg, out2) := applyEnvironmentVariables h cfg in
      match validateConfig cfg with
      | Some err => (inr (Wrapf "configuration validation failed: %w" [] err), out1 ++ out2)
      | None => (inl cfg, out1 ++ out2)
      end
  end.

(** What the file at the configuration path sets, when it decodes. *)
Definition file_fields (h : Host) : ConfigFile :=
  match files h !! getConfigFilePath h with
  | Some (Decodable fields) => fields
  | _ => mkConfigFile None None None None None
  end.


(** A host whose configuration file sets the listener address and the data
    path, and whose environment sets the data path. *)
Definition layered_host : Host :=
  mkHost {[ "QFT_RELMAN_DATA_PATH" := "/srv/data" ]}
         {[ configFileName :=
              Decodable (mkConfigFile None (Some ":9090") (Some "/var/data") None None) ]}.

End Configuration.

(** ** A further example world *)

(** The two packages of [world_denied], ranged over in key order. *)
Definition world_denied_both : World := world_denied [] [].

(** [world_retry] with no failing system call: the file of [acme 1.0.0]
    can be removed. *)
Definition world_clear : World :=
  mkWorld (heap world_retry) (filepath world_retry) (releases world_retry) free_mu
          (RepositoryPath world_retry) (nodes world_retry) (datafile world_retry)
          [] (clock world_retry) (tape world_retry).

(** A world whose file holds two records of [acme 1.0.0] and one of
    [zlib 1.0.0], before the database is opened. *)
Definition world_twice : World :=
  mkWorld ∅ "/data/releases.json" ∅ free_mu "/repo" ∅
          (Some [md0 "acme" "1.0.0" 1024 "available";
                 md0 "zlib" "1.0.0" 512 "available";
                 md0 "acme" "1.0.0" 2048 "available"]) [] 100 [].

(** ** Notions used in the further properties *)

(** What [sanitizeFilename] does to one byte. *)
Definition sanitize_byte (c : ascii) : ascii :=
  if Ascii.eqb (Strings.lower_byte c) " " then "_"%char else Strings.lower_byte c.

(** Every pointer held by the map leads to a record, and the record
    carries the name and the version it is filed under. *)
Definition filed_by_key (w : World) : bool :=
  forallb (fun nsr : string * gmap string loc =>
    forallb (fun vp : string * loc =>
      match heap w !! vp.2 with
      | Some md => String.eqb (SoftwareName md) nsr.1 && String.eqb (Version md) vp.1
      | None => false
      end) (map_to_list nsr.2)) (map_to_list (releases w)).

(** The pointers held by the map, software by software. *)
Definition held_pointers (w : World) : list loc :=
  map_to_list (releases w) ≫= fun nsr => (map_to_list nsr.2).*2.

(** The software names that have a release. *)
Definition with_release (w : World) : gmap string (gmap string loc) :=
  filter (fun nsr => nsr.2 <> ∅) (releases w).

(** What the loop of [ListSoftwarePackages] keeps true of [packageMap]
    after the releases [visited]: an entry is filed under its own name and
    carries the version and the date of a visited release of that name, and
    no visited release of the name has a greater version. *)
Definition overview_of (u : World) (visited : list loc)
  (packageMap : gmap string SoftwarePackageInfo) : Prop :=
  (forall k e, packageMap !! k = Some e ->
     Name e = k /\
     exists p md, p ∈ visited /\ heap u !! p = Some md /\ SoftwareName md = k /\
                  Version md = LatestVersion e /\ ReleaseDate md = LatestReleaseDate e) /\
  (forall p md, p ∈ visited -> heap u !! p = Some md ->
     exists e, packageMap !! SoftwareName md = Some e /\
       GreaterThan (fst (parseVersion (Version md)))
                   (fst (parseVersion (LatestVersion e))) = false).

(** The record the store holds for a name and a version, if any. *)
Definition record_at (w : World) (softwareName version : string)
  : option ReleaseMetadata :=
  lookup_release softwareName version w ≫= fun p => heap w !! p.

Definition has_key (softwareName version : string) (r : ReleaseMetadata) : bool :=
  String.eqb (SoftwareName r) softwareName && String.eqb (Version r) version.

(** The last record of a list that carries the name and the version. *)
Definition last_filed (softwareName version : string) (rs : list ReleaseMetadata)
  : option ReleaseMetadata :=
  last (filter (fun r => has_key softwareName version r = true) rs).

(** The same, for a list of pointers into a heap. *)
Definition last_pointer (h : gmap loc ReleaseMetadata) (softwareName version : string)
  (ps : list loc) : option loc :=
  last (filter (fun p => has_key softwareName version <$> h !! p = Some true) ps).

(** The record the user database holds for a name, if any. *)
Definition user_at (w : UserWorld) (username : string) : option User :=
  users w !! username ≫= fun p => uheap w !! p.

(** The file of the user database holds the records of the map, one for
    each name. *)
Definition on_file (w : UserWorld) : Prop :=
  exists rs,
    userfile w = Some rs /\
    length rs = size (users w) /\
    forall r, r ∈ rs <-> exists n, user_at w n = Some r.

(** Every pointer of the map leads to a record, and the record carries the
    name it is filed under. *)
Definition keyed_by_name (w : UserWorld) : bool :=
  forallb (fun np : string * loc =>
    match uheap w !! np.2 with
    | Some u => String.eqb (Username u) np.1
    | None => false
    end) (map_to_list (users w)).

(** The last record of a list that carries the name. *)
Definition last_named (username : string) (us : list User) : option User :=
  last (filter (fun u => Username u = username) us).

(* ================================================================== *)
(** * Properties *)
(* ================================================================== *)

Example parse_1_2_10 : parseVersion "1.2.10" = (mkSemVer 1 2 10 "1.2.10", None).
Proof. reflexivity. Qed.

Example parse_1_2 : snd (parseVersion "1.2") =
  Some (Errorf "invalid version format: %s, expected X.Y.Z" ["1.2"]).
Proof. reflexivity. Qed.

Example parse_four : snd (parseVersion "1.2.3.4") =
  Some (Wrapf "invalid patch version: %w" [] (NumError "Atoi" "3.4" Strconv.ErrSyntax)).
Proof. reflexivity. Qed.

Example compare_numeric :
  GreaterThan (fst (parseVersion "1.2.10")) (fst (parseVersion "1.2.9")) = true.
Proof. reflexivity. Qed.

Example compare_major :
  GreaterThan (fst (parseVersion "2.0.0")) (fst (parseVersion "1.9.9")) = true.
Proof. reflexivity. Qed.

Example compare_equal :
  GreaterThan (fst (parseVersion "1.0.0")) (fst (parseVersion "1.0.0")) = false.
Proof. reflexivity. Qed.

Example parse_negative : parseVersion "-1.2.3" = (mkSemVer (-1) 2 3 "-1.2.3", None).
Proof. reflexivity. Qed.

Example parse_overflow :
  snd (parseVersion "9223372036854775808.0.0") =
  Some (Wrapf "invalid major version: %w" []
          (NumError "Atoi" "9223372036854775808" Strconv.ErrRange)).
Proof. reflexivity. Qed.

Example id_seven_digits :
  generateSoftwareIDFromName "docker" = 1011232 /\
  Fmt.Sprintf_0d 6 (generateSoftwareIDFromName "docker") = "1011232".
Proof. split; reflexivity. Qed.


(** ** Splitting *)

Section split.
Variable sep : ascii.

Lemma Count_app a b :
  Strings.Count sep (a +:+ b) = (Strings.Count sep a + Strings.Count sep b)%nat.
Proof. induction a as [|c a IH]; simpl; [done | rewrite IH; lia]. Qed.


Lemma genSplit_cut k a rest :
  Strings.Count sep a = 0%nat ->
  Strings.genSplit sep (S k) (a +:+ String sep rest) = a :: Strings.genSplit sep k rest.
Proof.
  induction a as [|c a IH]; intros H; simpl in *.
  - by rewrite Ascii.eqb_refl.
  - destruct (Ascii.eqb c sep); simpl in H; [lia|].
    rewrite IH by lia. done.
Qed.

(** Either nothing is cut, or the first piece is what stands before the
    first separator. *)
Lemma genSplit_inv k s :
  ((k = 0%nat \/ Strings.Count sep s = 0%nat) /\ Strings.genSplit sep k s = [s]) \/
  (exists k' a rest, k = S k' /\ s = a +:+ String sep rest /\
     Strings.Count sep a = 0%nat /\
     Strings.genSplit sep k s = a :: Strings.genSplit sep k' rest).
Proof.
  induction s as [|c s IH]; simpl.
  - left. split; [by right | done].
  - destruct k as [|k]; [left; split; [by left | done]|].
    destruct (Ascii.eqb c sep) eqn:E.
    + apply Ascii.eqb_eq in E as ->. right. exists k, "", s. simpl. done.
    + destruct IH as [[Hk Hs]|(k' & a & rest & Hk & -> & Ha & Hs)].
      * left. destruct Hk as [Hk|Hk]; [done|]. split; [right; simpl; lia|].
        rewrite Hs. done.
      * right. exists k', (String c a), rest. simpl. rewrite E. simpl.
        rewrite Hs. repeat split; try done; lia.
Qed.

Lemma genSplit_length k s :
  length (Strings.genSplit sep k s) = S (Nat.min k (Strings.Count sep s)).
Proof.
  revert k. induction s as [|c s IH]; intros k; simpl.
  - by rewrite Nat.min_0_r.
  - destruct k as [|k]; [done|].
    destruct (Ascii.eqb c sep); simpl.
    + by rewrite IH.
    + specialize (IH (S k)). destruct (Strings.genSplit sep (S k) s); simpl in *; done.
Qed.

End split.

(** ** Reading integers *)

Lemma digit_val_range c : Strconv.is_digit c = true -> 0 <= Strconv.digit_val c <= 9.
Proof.
  unfold Strconv.is_digit, Strconv.digit_val.
  intros [H1%Nat.leb_le H2%Nat.leb_le]%andb_prop. lia.
Qed.

Lemma decimal_ge acc s : all_digits s = true -> 0 <= acc -> acc <= decimal acc s.
Proof.
  revert acc. induction s as [|c s IH]; intros acc Hs Hacc; simpl in *; [lia|].
  apply andb_prop in Hs as [Hc Hs]. pose proof (digit_val_range c Hc).
  specialize (IH (acc * 10 + Strconv.digit_val c) Hs). lia.
Qed.

Lemma digits_decimal acc s v :
  0 <= acc ->
  Strconv.digits acc s = inl v <->
  all_digits s = true /\ v = decimal acc s /\ (s = "" \/ v <= Strconv.max_uint64).
Proof.
  revert acc. induction s as [|c s IH]; intros acc Hacc; simpl.
  - split; [intros [= <-]; auto | intros (_ & -> & _); done].
  - destruct (Strconv.is_digit c) eqn:Hc; simpl.
    2: { split; [done | intros [? _]; done]. }
    pose proof (digit_val_range c Hc) as Hd.
    destruct (Z.ltb_spec Strconv.max_uint64 (acc * 10 + Strconv.digit_val c)) as [Hov|Hok].
    + split; [done|]. intros (Hs & -> & [?|Hle]); [done|].
      pose proof (decimal_ge (acc * 10 + Strconv.digit_val c) s Hs). lia.
    + rewrite IH by lia. split.
      * intros (Hs & -> & [->|Hle]); simpl; repeat split; auto.
      * intros (Hs & -> & [?|Hle]); [done|]. repeat split; auto.
Qed.

Lemma digit_not_dot s : all_digits s = true -> Strings.Count "." s = 0%nat.
Proof.
  induction s as [|c s IH]; simpl; [done|].
  intros [Hc Hs]%andb_prop. rewrite IH by done.
  destruct (Ascii.eqb c ".") eqn:E; [|done].
  apply Ascii.eqb_eq in E as ->. done.
Qed.

Lemma Atoi_int_literal s v : Strconv.Atoi s = inl v <-> int_literal s v.
Proof.
  unfold Strconv.Atoi, int_literal, nat_literal. split.
  - destruct s as [|c s]; [done|].
    destruct (Ascii.eqb c "-") eqn:Em; [|destruct (Ascii.eqb c "+") eqn:Ep];
      cbv zeta; cbn [orb].
    + apply Ascii.eqb_eq in Em as ->.
      destruct s as [|d s]; [done|].
      destruct (Strconv.digits 0 (String d s)) as [un|] eqn:Hd; [|done].
      apply digits_decimal in Hd as (Hall & -> & _); [|done].
      destruct (_ && _) eqn:Hr; [|done]. intros [= <-].
      apply andb_prop in Hr as [?%Z.leb_le ?%Z.leb_le].
      exists "-", (String d s). simpl. auto 10.
    + apply Ascii.eqb_eq in Ep as ->.
      destruct s as [|d s]; [done|].
      destruct (Strconv.digits 0 (String d s)) as [un|] eqn:Hd; [|done].
      apply digits_decimal in Hd as (Hall & -> & _); [|done].
      destruct (_ && _) eqn:Hr; [|done]. intros [= <-].
      apply andb_prop in Hr as [?%Z.leb_le ?%Z.leb_le].
      exists "+", (String d s). simpl. auto 10.
    + destruct (Strconv.digits 0 (String c s)) as [un|] eqn:Hd; [|done].
      apply digits_decimal in Hd as (Hall & -> & _); [|done].
      destruct (_ && _) eqn:Hr; [|done]. intros [= <-].
      apply andb_prop in Hr as [?%Z.leb_le ?%Z.leb_le].
      exists "", (String c s). simpl. auto 10.
  - intros (sign & body & -> & Hsign & [Hne Hall] & -> & Hlo & Hhi).
    assert (Hd : Strconv.digits 0 body = inl (decimal 0 body)).
    { apply digits_decimal; [done|]. repeat split; [done|]. right.
      unfold Strconv.min_int, Strconv.max_int, Strconv.max_uint64 in *.
      destruct Hsign as [->|[->| ->]]; simpl in Hlo, Hhi; lia. }
    destruct body as [|d body]; [done|].
    destruct Hsign as [->|[->| ->]].
    + change ("" +:+ String d body) with (String d body).
      change (all_digits (String d body)) with
        (Strconv.is_digit d && all_digits body) in Hall.
      apply andb_prop in Hall as [Hdig Hall].
      destruct (Ascii.eqb d "-") eqn:Em.
      { apply Ascii.eqb_eq in Em as ->. vm_compute in Hdig. done. }
      destruct (Ascii.eqb d "+") eqn:Ep.
      { apply Ascii.eqb_eq in Ep as ->. vm_compute in Hdig. done. }
      cbv zeta. cbn [orb]. rewrite Hd.
      change (if ("" =? "-")%string then - decimal 0 (String d body)
              else decimal 0 (String d body)) with (decimal 0 (String d body)) in Hlo, Hhi.
      apply Z.leb_le in Hlo, Hhi. rewrite Hlo, Hhi. done.
    + change ("+" +:+ String d body) with (String "+" (String d body)).
      cbv beta iota zeta. change (("+" =? "-")%char) with false.
      change (("+" =? "+")%char) with true. cbn [orb]. rewrite Hd.
      change (if ("+" =? "-")%string then - decimal 0 (String d body)
              else decimal 0 (String d body)) with (decimal 0 (String d body)) in Hlo, Hhi.
      apply Z.leb_le in Hlo, Hhi. rewrite Hlo, Hhi. done.
    + change ("-" +:+ String d body) with (String "-" (String d body)).
      cbv beta iota zeta. change (("-" =? "-")%char) with true. cbn [orb]. rewrite Hd.
      change (if ("-" =? "-")%string then - decimal 0 (String d body)
              else decimal 0 (String d body)) with (- decimal 0 (String d body)) in Hlo, Hhi.
      apply Z.leb_le in Hlo, Hhi. rewrite Hlo, Hhi. done.
Qed.

Lemma int_literal_dotfree s v : int_literal s v -> Strings.Count "." s = 0%nat.
Proof.
  intros (sign & body & -> & Hsign & [_ Hall] & _).
  rewrite Count_app, (digit_not_dot body) by done.
  destruct Hsign as [->|[->| ->]]; done.
Qed.

Lemma SplitN_three s a b c :
  Strings.SplitN s "." 3 = [a; b; c] <->
  s = a +:+ "." +:+ b +:+ "." +:+ c /\
  Strings.Count "." a = 0%nat /\ Strings.Count "." b = 0%nat.
Proof.
  unfold Strings.SplitN. split.
  - intros H.
    destruct (genSplit_inv "." 2 s) as [[_ Hs]|(k1 & a' & r1 & [= <-] & -> & Ha & Hs)];
      [congruence|].
    rewrite Hs in H. injection H as -> H.
    destruct (genSplit_inv "." 1 r1) as [[_ Hr]|(k2 & b' & r2 & [= <-] & -> & Hb & Hr)];
      [congruence|].
    rewrite Hr in H. injection H as -> H.
    destruct r2; simpl in H; injection H as <-; done.
  - intros (-> & Ha & Hb).
    change (a +:+ "." +:+ b +:+ "." +:+ c) with (a +:+ String "." (b +:+ String "." c)).
    rewrite genSplit_cut, genSplit_cut by done.
    destruct c; done.
Qed.

Lemma parseVersion_ok_inv s v :
  parseVersion s = (v, None) ->
  exists a b c major minor patch,
    Strings.SplitN s "." 3 = [a; b; c] /\
    Strconv.Atoi a = inl major /\ Strconv.Atoi b = inl minor /\
    Strconv.Atoi c = inl patch /\ v = mkSemVer major minor patch s.
Proof.
  unfold parseVersion.
  destruct (Strings.SplitN s "." 3) as [|a [|b [|c [|? ?]]]]; try done.
  destruct (Strconv.Atoi a) as [major|] eqn:Ha; [|done].
  destruct (Strconv.Atoi b) as [minor|] eqn:Hb; [|done].
  destruct (Strconv.Atoi c) as [patch|] eqn:Hc; [|done].
  intros [= <-]. exists a, b, c, major, minor, patch. done.
Qed.

(** C5, as amended.  [parseVersion] succeeds exactly on the strings made of
    three dot-separated components each of which is an optionally signed
    run of decimal digits whose value fits a 64-bit [int], and then returns
    the three values with the original string; every other string, ["1.2"]
    among them, is refused with an error. *)
Theorem parseVersion_accepts_exactly (s : string) :
  (forall v, parseVersion s = (v, None) <->
     exists major minor patch,
       three_int_components s major minor patch /\ v = mkSemVer major minor patch s) /\
  (snd (parseVersion s) = None <->
     exists major minor patch, three_int_components s major minor patch) /\
  snd (parseVersion "1.2") <> None.
Proof.
  assert (Hiff : forall v, parseVersion s = (v, None) <->
     exists major minor patch,
       three_int_components s major minor patch /\ v = mkSemVer major minor patch s).
  { intros v. split.
    - intros (a & b & c & major & minor & patch & Hs & Ha & Hb & Hc & ->)%parseVersion_ok_inv.
      apply SplitN_three in Hs as (-> & _ & _).
      exists major, minor, patch. split; [|done].
      exists a, b, c. by rewrite <- !Atoi_int_literal.
    - intros (major & minor & patch & (a & b & c & Hs & Ha & Hb & Hc) & ->).
      assert (Hsp : Strings.SplitN s "." 3 = [a; b; c]).
      { apply SplitN_three. eauto using int_literal_dotfree. }
      unfold parseVersion. rewrite Hsp.
      apply Atoi_int_literal in Ha, Hb, Hc. rewrite Ha, Hb, Hc. done. }
  split; [exact Hiff|]. split; [|done].
  split.
  - pose proof (Hiff (fst (parseVersion s))) as [Hv _].
    destruct (parseVersion s) as [v e]. simpl in *. intros ->.
    destruct (Hv eq_refl) as (major & minor & patch & H & _). eauto.
  - intros (major & minor & patch & H).
    assert (Hp : parseVersion s = (mkSemVer major minor patch s, None)) by (apply Hiff; eauto).
    by rewrite Hp.
Qed.

Lemma parseVersion_accepts_exactly_witness :
  parseVersion "1.2.10" = (mkSemVer 1 2 10 "1.2.10", None).
Proof.
  apply (proj1 (parseVersion_accepts_exactly "1.2.10")).
  exists 1, 2, 10. split; [|reflexivity].
  exists "1", "2", "10". split; [reflexivity|].
  unfold int_literal, nat_literal.
  split; [|split];
    [exists "", "1" | exists "", "2" | exists "", "10"];
    (split; [reflexivity|]; split; [by left|]; split; [done|]; split; [reflexivity|];
     vm_compute; split; discriminate).
Defined.

(** C5, as stated, fails: a component with a minus sign is accepted, so a
    string that is not made of three non-negative components parses. *)
Lemma parseVersion_accepts_negative :
  ~ (snd (parseVersion "-1.2.3") = None <-> three_nonneg_components "-1.2.3").
Proof.
  intros [H _]. specialize (H eq_refl).
  destruct H as (a & b & c & Hs & [Hne Hall] & _).
  destruct a as [|x a]; [done|].
  simpl in Hs. injection Hs as <- _. done.
Qed.

(** ** Path derivation *)

Lemma Split_length s sep : length (Strings.Split s sep) = S (Strings.Count sep s).
Proof. unfold Strings.Split. rewrite genSplit_length. lia. Qed.

Lemma index_Done (a : list string) i :
  (i < length a)%nat -> exists x, a !! i = Some x /\ index a i = Done x.
Proof.
  intros H. destruct (lookup_lt_is_Some_2 a i H) as [x Hx].
  exists x. unfold index. by rewrite Hx.
Qed.

Lemma index_Panic (a : list string) i :
  (length a <= i)%nat -> index a i = Panic "index out of range".
Proof. intros H. unfold index. by rewrite lookup_ge_None_2. Qed.

Lemma getReleaseFilePath_few_dots repoPath md :
  (Strings.Count "." (Version md) < 2)%nat ->
  getReleaseFilePath repoPath md = Panic "index out of range".
Proof.
  intros H. unfold getReleaseFilePath.
  pose proof (Split_length (Version md) ".") as Hlen.
  destruct (index_Done (Strings.Split (Version md) ".") 0) as (v0 & _ & ->); [lia|].
  destruct (decide (Strings.Count "." (Version md) = 0%nat)) as [H0|H0].
  - rewrite index_Panic by lia. done.
  - destruct (index_Done (Strings.Split (Version md) ".") 1) as (v1 & _ & ->); [lia|].
    rewrite index_Panic by lia. done.
Qed.

Lemma getReleaseFilePath_two_dots repoPath md :
  (2 <= Strings.Count "." (Version md))%nat ->
  exists path, getReleaseFilePath repoPath md = Done path.
Proof.
  intros H. unfold getReleaseFilePath.
  pose proof (Split_length (Version md) ".") as Hlen.
  destruct (index_Done (Strings.Split (Version md) ".") 0) as (v0 & _ & ->); [lia|].
  destruct (index_Done (Strings.Split (Version md) ".") 1) as (v1 & _ & ->); [lia|].
  destruct (index_Done (Strings.Split (Version md) ".") 2) as (v2 & _ & ->); [lia|].
  eauto.
Qed.

(** C9.  The path derivation returns exactly when the version string holds
    at least two dots; with fewer, indexing the split result panics, and the
    panic goes through [GetReleaseTGZReader], through the loop body of
    [ReconcileReleases], and through [StoreReleaseFile] once the directory
    step has passed: none of them returns an error instead. *)
Theorem path_derivation_panics (repoPath : string) (md : ReleaseMetadata) :
  ((Strings.Count "." (Version md) < 2)%nat <->
     getReleaseFilePath repoPath md = Panic "index out of range") /\
  ((2 <= Strings.Count "." (Version md))%nat <->
     exists path, getReleaseFilePath repoPath md = Done path) /\
  (forall (w : World) (p : loc) (tgz : string),
     heap w !! p = Some md ->
     (Strings.Count "." (Version md) < 2)%nat ->
     GetReleaseTGZReader repoPath p w = (Panic "index out of range", w) /\
     reconcile_one repoPath p w = (Panic "index out of range", w) /\
     (forall w', EnsureReleaseDirExists repoPath (SoftwareName md) w = (Done None, w') ->
        StoreReleaseFile repoPath tgz p w = (Panic "index out of range", w'))).
Proof.
  split; [|split].
  - split; [apply getReleaseFilePath_few_dots|].
    intros Hp. destruct (decide (Strings.Count "." (Version md) < 2)%nat); [done|].
    destruct (getReleaseFilePath_two_dots repoPath md) as [path Hd]; [lia|]. congruence.
  - split; [apply getReleaseFilePath_two_dots|].
    intros [path Hd]. destruct (decide (2 <= Strings.Count "." (Version md))%nat); [done|].
    rewrite getReleaseFilePath_few_dots in Hd by lia. done.
  - intros w p tgz Hp Hfew.
    pose proof (getReleaseFilePath_few_dots repoPath md Hfew) as Hpanic.
    unfold GetReleaseTGZReader, reconcile_one, StoreReleaseFile, bind, deref, lift.
    rewrite Hp, Hpanic. repeat split.
    intros w' ->. done.
Qed.

Lemma path_derivation_panics_witness :
  getReleaseFilePath "/repo" (md0 "acme" "1.2" 0 "available") = Panic "index out of range".
Proof.
  apply (proj1 (proj1 (path_derivation_panics "/repo" (md0 "acme" "1.2" 0 "available")))).
  vm_compute. lia.
Defined.

(** ** Strings: append, length, counting *)

Lemma str_app_cons x (a b : string) : String x a +:+ b = String x (a +:+ b).
Proof. reflexivity. Qed.


Lemma str_length_app (a b : string) :
  String.length (a +:+ b) = (String.length a + String.length b)%nat.
Proof. induction a as [|x a IH]; [done | rewrite str_app_cons; simpl; by rewrite IH]. Qed.

Lemma repeat_byte_length c k : String.length (Fmt.repeat_byte c k) = k.
Proof. induction k as [|k IH]; simpl; [done | by rewrite IH]. Qed.

Lemma pad_left_length c width s :
  String.length (Fmt.pad_left c width s) = Nat.max width (String.length s).
Proof. unfold Fmt.pad_left. rewrite str_length_app, repeat_byte_length. lia. Qed.

Lemma pad_left_wide c width s :
  (width <= String.length s)%nat -> Fmt.pad_left c width s = s.
Proof.
  intros H. unfold Fmt.pad_left.
  replace (width - String.length s)%nat with 0%nat by lia. done.
Qed.

Lemma Count_repeat_byte sep c k :
  c <> sep -> Strings.Count sep (Fmt.repeat_byte c k) = 0%nat.
Proof.
  intros Hc. induction k as [|k IH]; simpl; [done|].
  rewrite IH. destruct (Ascii.eqb c sep) eqn:E; [|done].
  by apply Ascii.eqb_eq in E.
Qed.


(** ** Decimal rendering *)









(** ** Splitting at every separator *)

Section split_all.
Variable sep : ascii.

Lemma genSplit_nonempty k s : Strings.genSplit sep k s <> [].
Proof.
  revert k. induction s as [|c s IH]; intros k; simpl; [done|].
  destruct k as [|k]; [done|].
  destruct (Ascii.eqb c sep); [done|].
  specialize (IH (S k)). destruct (Strings.genSplit sep (S k) s); done.
Qed.

Lemma push_front_app c (l l' : list string) :
  l <> [] -> Strings.push_front c (l ++ l') = Strings.push_front c l ++ l'.
Proof. destruct l; done. Qed.




End split_all.

(** ** Cleaning a path that is already clean *)






(** ** The layout of a release path *)









(** ** The store: refusing a duplicate *)

Lemma with_mu_same w : with_mu (mu w) w = w.
Proof. by destruct w. Qed.

Lemma lookup_release_Some softwareName version w q :
  lookup_release softwareName version w = Some q ->
  exists softwareReleases,
    releases w !! softwareName = Some softwareReleases /\
    softwareReleases !! version = Some q.
Proof.
  unfold lookup_release. destruct (releases w !! softwareName) as [sr|]; [|done].
  simpl. eauto.
Qed.

(** ** Upload and its rollback *)

Ltac go_step :=
  cbv beta iota zeta delta
    [bind ret defer get_world modify lift assign deref for_range].

Lemma Create_derefs (p : loc) (w w' : World) (r : option error) :
  CreateReleaseMetadata p w = (Done r, w') -> is_Some (heap w !! p).
Proof.
  unfold CreateReleaseMetadata, mu_Lock. go_step.
  destruct (writer (mu w) || negb (readers (mu w) =? 0)%nat); [done|]. simpl.
  destruct (heap w !! p); [eauto | done].
Qed.

Lemma os_Remove_returns name w : exists r w', os_Remove name w = (Done r, w').
Proof.
  unfold os_Remove. destruct (fault_of SysRemove name w); [eauto|].
  destruct (nodes w !! name); eauto.
Qed.

(** C1, as amended.  When the archive has been placed and its size read,
    and [CreateReleaseMetadata] then fails with [e], [UploadRelease] calls
    [os.Remove] on the placed file and returns [e] wrapped in the rollback
    message.  What [os.Remove] returns is dropped: the result is the same
    whether the removal succeeds or fails, and reports [e] and what [e]
    wraps, nothing else. *)
Theorem upload_rollback_returns_primary
  (tgzFilePath : string) (metadata : ReleaseMetadata) (w w1 w2 : World)
  (destFilePath : string) (fileInfo : FileInfo) (e : error) :
  let p := fresh (dom (heap w)) in
  StoreReleaseFile (RepositoryPath w) tgzFilePath p
    (with_heap (<[p := set_ReleaseTimestamp (clock w) metadata]> (heap w)) w)
    = (Done (destFilePath, None), w1) ->
  os_Stat destFilePath w1 = (Done (inl fileInfo), w1) ->
  CreateReleaseMetadata p
    (snd ((assign p (set_FileSize (Size fileInfo)) ;;;
           assign p (set_ReleaseState "available")) w1))
    = (Done (Some e), w2) ->
  let result :=
    Wrapf "failed to create release metadata and rollback file storage: %w" [] e in
  UploadRelease tgzFilePath metadata w
    = (Done (Some result), snd (os_Remove destFilePath w2)) /\
  (forall x, reports (Some result) x <-> x = result \/ x ∈ chain e).
Proof.
  intros p Hstore Hstat Hcreate result. split.
  - pose proof (Create_derefs _ _ _ _ Hcreate) as [m Hm].
    assert (Hp : is_Some (heap w1 !! p)).
    { revert Hm. go_step.
      destruct (heap w1 !! p) as [m1|] eqn:E; [eauto | simpl; rewrite E; done]. }
    destruct Hp as [m1 Hm1].
    revert Hcreate. unfold UploadRelease. go_step. fold p.
    rewrite Hstore, Hstat, Hm1. simpl. rewrite lookup_insert_eq. simpl. intros ->.
    destruct (os_Remove_returns destFilePath w2) as (r & w3 & ->). done.
  - intros x. unfold reports. split.
    + intros (r & [= <-] & Hx). simpl in Hx. by apply elem_of_cons in Hx.
    + intros Hx. exists result. split; [done|]. simpl. by apply elem_of_cons.
Qed.

Lemma upload_rollback_returns_primary_witness :
  fst (UploadRelease "/tmp/x.tgz" (md0 "acme" "1.0.0" 0 "") world_retry)
  = Done (Some (Wrapf "failed to create release metadata and rollback file storage: %w" []
                  (Errorf "release version already exists for software %s: %s"
                          ["acme"; "1.0.0"]))).
Proof.
  set (metadata := md0 "acme" "1.0.0" 0 "").
  set (w := world_retry).
  set (p := fresh (dom (heap w))).
  set (w1 := snd (StoreReleaseFile (RepositoryPath w) "/tmp/x.tgz" p
                    (with_heap (<[p := set_ReleaseTimestamp (clock w) metadata]> (heap w)) w))).
  set (fi := mkFileInfo 77 false).
  set (w2 := snd ((assign p (set_FileSize (Size fi)) ;;;
                   assign p (set_ReleaseState "available")) w1)).
  assert (H1 : StoreReleaseFile (RepositoryPath w) "/tmp/x.tgz" p
             (with_heap (<[p := set_ReleaseTimestamp (clock w) metadata]> (heap w)) w)
           = (Done (acme_path, None), w1)) by (vm_compute; reflexivity).
  assert (H2 : os_Stat acme_path w1 = (Done (inl fi), w1)) by (vm_compute; reflexivity).
  assert (H3 : CreateReleaseMetadata p w2
           = (Done (Some (Errorf "release version already exists for software %s: %s"
                            ["acme"; "1.0.0"])), w2)) by (vm_compute; reflexivity).
  destruct (upload_rollback_returns_primary "/tmp/x.tgz" metadata w w1 w2 acme_path fi
              _ H1 H2 H3) as [H _].
  rewrite H. reflexivity.
Defined.

(** C1, as stated, fails: in a world where the placed file cannot be
    removed, the retried upload returns the already-exists error alone; the
    error of [os.Remove] is not reported, and the file stays on disk. *)
Lemma upload_rollback_drops_removal_error :
  let run := UploadRelease "/tmp/x.tgz" (md0 "acme" "1.0.0" 0 "") world_retry in
  let primary := Errorf "release version already exists for software %s: %s"
                        ["acme"; "1.0.0"] in
  let removal := PathError "remove" acme_path EPERM in
  (exists result, fst run = Done result /\
     reports result primary /\ ~ reports result removal) /\
  fst (os_Remove acme_path (snd run)) = Done (Some removal) /\
  nodes (snd run) !! acme_path = Some (mkFileInfo 77 false).
Proof.
  split; [|split; vm_compute; reflexivity].
  eexists. split; [vm_compute; reflexivity|]. split.
  - eexists. split; [reflexivity|]. simpl. apply elem_of_cons. right. apply elem_of_cons. by left.
  - intros (r & [= <-] & Hr). simpl in Hr.
    apply elem_of_cons in Hr as [Hr|Hr]; [discriminate|].
    apply elem_of_cons in Hr as [Hr|Hr]; [discriminate|].
    by apply elem_of_nil in Hr.
Qed.

(** ** Ranging over a map *)

Lemma arrange_elem order keys k : k ∈ arrange order keys <-> k ∈ keys.
Proof.
  unfold arrange. rewrite elem_of_app, !list_elem_of_filter, elem_of_remove_dups.
  destruct (decide (k ∈ order)); tauto.
Qed.

Lemma range_map_spec {V} (m : gmap string V) (w : World) :
  exists kvs,
    range_map m w = (Done kvs, with_tape (tail (tape w)) w) /\
    forall k v, (k, v) ∈ kvs <-> m !! k = Some v.
Proof.
  eexists. split; [reflexivity|]. intros k v.
  rewrite list_elem_of_omap. split.
  - intros (k' & _ & Hk'). destruct (m !! k') as [v'|] eqn:E; [|done].
    simpl in Hk'. by injection Hk' as -> ->.
  - intros Hkv. exists k. rewrite Hkv. split; [|done].
    apply arrange_elem, list_elem_of_fmap. exists (k, v).
    split; [done|]. by apply elem_of_map_to_list.
Qed.

Lemma ListReleasesMetadataForSoftware_spec softwareName w softwareReleases :
  mu w = free_mu ->
  releases w !! softwareName = Some softwareReleases ->
  exists l,
    ListReleasesMetadataForSoftware softwareName w
      = (Done (inl l), with_tape (tail (tape w)) w) /\
    forall p, p ∈ l <-> exists v, softwareReleases !! v = Some p.
Proof.
  intros Hmu Hsr.
  destruct (range_map_spec softwareReleases (with_mu (mkRWMutex false 1) w))
    as (kvs & Hrange & Hkvs).
  exists (kvs.*2). split.
  - unfold ListReleasesMetadataForSoftware, mu_RLock, mu_RUnlock. go_step.
    rewrite Hmu. cbn -[range_map]. rewrite Hsr, Hrange. cbn.
    f_equal. destruct w. simpl in *. by subst.
  - intros p. rewrite list_elem_of_fmap. split.
    + intros ([k v] & -> & Hin). exists k. by apply Hkvs.
    + intros (v & Hv). exists (v, p). split; [done|]. by apply Hkvs.
Qed.

(** ** Sorting *)

Section sorting.
Context {A : Type} (less : A -> A -> bool).
Hypothesis less_asym : forall x y, less x y = true -> less y x = false.
Hypothesis less_negtrans :
  forall x y z, less x y = false -> less y z = false -> less x z = false.

(** In the part already sorted, held last element first, no element is
    [less] than one that comes after it. *)
Abbreviation later_not_less := (fun x y : A => less x y = false).

Lemma sift_elem x sorted y : y ∈ sift less x sorted <-> y = x \/ y ∈ sorted.
Proof.
  induction sorted as [|z sorted IH]; simpl.
  - rewrite list_elem_of_singleton, elem_of_nil. tauto.
  - destruct (less x z); rewrite !elem_of_cons, ?IH; tauto.
Qed.

Lemma sift_sorted x sorted :
  StronglySorted later_not_less sorted ->
  StronglySorted later_not_less (sift less x sorted).
Proof.
  induction sorted as [|z sorted IH]; intros Hs; simpl.
  - repeat constructor.
  - apply StronglySorted_inv in Hs as [Hs Hz].
    destruct (less x z) eqn:E.
    + constructor; [by apply IH|].
      apply Forall_forall. intros y [->|Hy]%sift_elem.
      * by apply less_asym.
      * by eapply Forall_forall in Hz.
    + constructor; [by constructor|].
      constructor; [done|].
      apply Forall_forall. intros y Hy.
      eapply Forall_forall in Hz; [|done].
      by apply (less_negtrans x z y).
Qed.

Lemma fold_sift_elem l acc y :
  y ∈ fold_left (fun sorted x => sift less x sorted) l acc <-> y ∈ l \/ y ∈ acc.
Proof.
  revert acc. induction l as [|x l IH]; intros acc; simpl.
  - rewrite elem_of_nil. tauto.
  - rewrite IH, sift_elem, elem_of_cons. tauto.
Qed.

Lemma fold_sift_sorted l acc :
  StronglySorted later_not_less acc ->
  StronglySorted later_not_less (fold_left (fun sorted x => sift less x sorted) l acc).
Proof.
  revert acc. induction l as [|x l IH]; intros acc Hacc; simpl; [done|].
  by apply IH, sift_sorted.
Qed.

Lemma sort_Slice_elem l y : y ∈ sort_Slice less l <-> y ∈ l.
Proof.
  unfold sort_Slice. rewrite elem_of_reverse, fold_sift_elem, elem_of_nil. tauto.
Qed.

Lemma sort_Slice_nonempty l x : x ∈ l -> exists h t, sort_Slice less l = h :: t.
Proof.
  intros Hx%sort_Slice_elem.
  destruct (sort_Slice less l) as [|h t]; [by apply elem_of_nil in Hx | eauto].
Qed.

(** Nothing in the slice is [less] than the first element of the sorted
    slice. *)
Lemma sort_Slice_head l h t :
  sort_Slice less l = h :: t -> h ∈ l /\ forall y, y ∈ l -> less y h = false.
Proof.
  intros Hsort.
  assert (Hh : h ∈ l) by (apply sort_Slice_elem; rewrite Hsort; by left).
  split; [done|]. intros y Hy.
  apply sort_Slice_elem in Hy. rewrite Hsort in Hy.
  apply elem_of_cons in Hy as [->|Hy].
  - destruct (less h h) eqn:E; [|done]. by rewrite (less_asym h h E) in E.
  - unfold sort_Slice in Hsort.
    pose proof (fold_sift_sorted l [] (SSorted_nil _)) as Hs.
    apply (f_equal reverse) in Hsort. rewrite reverse_involutive in Hsort.
    rewrite Hsort, reverse_cons in Hs.
    clear Hsort Hh. apply elem_of_reverse in Hy.
    revert Hs Hy. generalize (reverse t). intros l' Hs Hy'. induction l' as [|z l' IH]; [by apply elem_of_nil in Hy'|].
    apply StronglySorted_inv in Hs as [Hs Hz].
    apply elem_of_cons in Hy' as [->|Hy'].
    + eapply Forall_forall in Hz; [exact Hz|]. apply elem_of_app. right. by left.
    + by apply IH.
Qed.

End sorting.

(** ** Latest release and sorted list *)

Ltac ltb_cases :=
  repeat match goal with
         | |- context [?a <? ?b] => destruct (Z.ltb_spec a b)
         | H : context [?a <? ?b] |- _ => destruct (Z.ltb_spec a b)
         end.

Lemma GreaterThan_asym v o : GreaterThan v o = true -> GreaterThan o v = false.
Proof. unfold GreaterThan. ltb_cases; (done || lia). Qed.

Lemma GreaterThan_negtrans x y z :
  GreaterThan x y = false -> GreaterThan y z = false -> GreaterThan x z = false.
Proof. unfold GreaterThan. ltb_cases; (done || lia). Qed.

Lemma latest_less_asym w p q : latest_less w p q = true -> latest_less w q p = false.
Proof. apply GreaterThan_asym. Qed.

Lemma latest_less_negtrans w p q r :
  latest_less w p q = false -> latest_less w q r = false -> latest_less w p r = false.
Proof. apply GreaterThan_negtrans. Qed.

Lemma list_less_by_version_desc w sortField sortOrder :
  by_version_desc sortField sortOrder ->
  list_less w sortField sortOrder = latest_less w.
Proof.
  unfold list_less, latest_less.
  intros [[-> ->]|[H1 H2]]; [done|].
  apply String.eqb_neq in H1, H2. by rewrite H1, H2.
Qed.

Lemma latest_less_heap w w' : heap w' = heap w -> latest_less w' = latest_less w.
Proof. intros H. unfold latest_less, version_at. by rewrite H. Qed.

Lemma sole_greatest_spec w softwareReleases p :
  sole_greatest w softwareReleases p = true ->
  (exists v, softwareReleases !! v = Some p) /\
  forall v q, softwareReleases !! v = Some q -> q <> p ->
    GreaterThan (version_at w p) (version_at w q) = true.
Proof.
  unfold sole_greatest. intros [Hex Hall]%andb_true_iff. split.
  - apply existsb_exists in Hex as (q & Hq & Hqp).
    apply bool_decide_eq_true_1 in Hqp as ->.
    apply list_elem_of_In, list_elem_of_fmap in Hq as ([v q] & -> & Hin).
    exists v. by apply elem_of_map_to_list.
  - intros v q Hq Hne. rewrite forallb_forall in Hall.
    assert (Hin : In q (map_to_list softwareReleases).*2).
    { apply list_elem_of_In, list_elem_of_fmap.
      exists (v, q). split; [done|]. by apply elem_of_map_to_list. }
    specialize (Hall q Hin). rewrite bool_decide_false in Hall by done. done.
Qed.

(** The listing of the database, while no writer holds the mutex. *)
Lemma ListReleasesMetadataForSoftware_readable softwareName w softwareReleases :
  writer (mu w) = false ->
  releases w !! softwareName = Some softwareReleases ->
  exists l,
    ListReleasesMetadataForSoftware softwareName w
      = (Done (inl l), with_tape (tail (tape w)) w) /\
    forall p, p ∈ l <-> exists v, softwareReleases !! v = Some p.
Proof.
  intros Hw Hsr.
  destruct (range_map_spec softwareReleases
              (with_mu (mkRWMutex false (S (readers (mu w)))) w)) as (kvs & Hrange & Hkvs).
  exists (kvs.*2). split.
  - unfold ListReleasesMetadataForSoftware, mu_RLock, mu_RUnlock. go_step.
    rewrite Hw. cbn -[range_map]. rewrite Hsr, Hrange. cbn.
    f_equal. destruct w as [? ? ? [? ?] ? ? ? ? ? ?]. simpl in *. by subst.
  - intros p. rewrite list_elem_of_fmap. split.
    + intros ([k v] & -> & Hin). exists k. by apply Hkvs.
    + intros (v & Hv). exists (v, p). split; [done|]. by apply Hkvs.
Qed.

(** C8, as amended.  While no writer holds the mutex, and when one release
    of the software has the greatest version (its version is greater than
    the version of every other release of the software), that release is
    the first element of [ListReleasesForSoftware] sorted by version,
    descending, and it is the record returned by
    [GetLatestReleaseForSoftware], whatever the orders in which the two
    calls range over the map.  The releases below the greatest may compare
    equal among themselves. *)
Theorem latest_is_head_when_greatest_is_unique
  (w w' : World) (softwareName sortField sortOrder : string)
  (softwareReleases : gmap string loc) (p : loc) :
  writer (mu w) = false -> writer (mu w') = false ->
  heap w' = heap w -> releases w' = releases w ->
  releases w !! softwareName = Some softwareReleases ->
  sole_greatest w softwareReleases p = true ->
  by_version_desc sortField sortOrder ->
  exists l,
    fst (ListReleasesForSoftware softwareName sortField sortOrder w) = Done (inl l) /\
    fst (GetLatestReleaseForSoftware softwareName w') = Done (inl p) /\
    head l = Some p.
Proof.
  intros Hmu Hmu' Hheap Hrel Hsr Hsole Hsort.
  destruct (sole_greatest_spec _ _ _ Hsole) as [[v0 Hp0] Hgreatest].
  destruct (ListReleasesMetadataForSoftware_readable softwareName w softwareReleases Hmu Hsr)
    as (l1 & Hl1 & Hin1).
  destruct (ListReleasesMetadataForSoftware_readable softwareName w' softwareReleases Hmu')
    as (l2 & Hl2 & Hin2); [by rewrite Hrel|].
  assert (Hp1 : p ∈ l1) by (apply Hin1; eauto).
  assert (Hp2 : p ∈ l2) by (apply Hin2; eauto).
  assert (Hhead : forall l h t,
            (forall q, q ∈ l <-> exists v, softwareReleases !! v = Some q) ->
            sort_Slice (latest_less w) l = h :: t -> h = p).
  { intros l h t Hin Hs.
    destruct (sort_Slice_head _ (latest_less_asym w) (latest_less_negtrans w) _ _ _ Hs)
      as [Hh Hmax].
    destruct (decide (h = p)) as [|Hne]; [done|]. exfalso.
    apply Hin in Hh as [v Hv].
    assert (Hp : p ∈ l) by (apply Hin; eauto).
    specialize (Hmax p Hp). unfold latest_less in Hmax.
    rewrite (Hgreatest v h Hv Hne) in Hmax. done. }
  destruct l2 as [|x2 l2]; [by apply elem_of_nil in Hp2|].
  destruct (sort_Slice_nonempty (latest_less w) l1 p Hp1) as (h1 & t1 & Hs1).
  destruct (sort_Slice_nonempty (latest_less w) _ p Hp2) as (h2 & t2 & Hs2).
  pose proof (Hhead _ _ _ Hin1 Hs1) as ->.
  pose proof (Hhead _ _ _ Hin2 Hs2) as ->.
  exists (p :: t1).
  unfold ListReleasesForSoftware, GetLatestReleaseForSoftware. go_step.
  rewrite Hl1, Hl2.
  rewrite (list_less_by_version_desc _ _ _ Hsort).
  rewrite (latest_less_heap w (with_tape (tail (tape w)) w) eq_refl).
  rewrite (latest_less_heap w (with_tape (tail (tape w')) w') Hheap).
  rewrite Hs1, Hs2. done.
Qed.

Lemma latest_is_head_when_greatest_is_unique_witness :
  exists l,
    fst (ListReleasesForSoftware "acme" "version" "desc" world_three) = Done (inl l) /\
    fst (GetLatestReleaseForSoftware "acme"
           (with_tape [["1.00.0"; "2.0.0"; "1.0.0"]] world_three)) = Done (inl 3%positive) /\
    head l = Some 3%positive.
Proof.
  assert (Hsole : sole_greatest world_three
                    {[ "1.0.0" := 1%positive; "1.00.0" := 2%positive;
                       "2.0.0" := 3%positive ]} 3%positive = true)
    by (vm_compute; reflexivity).
  assert (Hsr : releases world_three !! "acme"
                = Some {[ "1.0.0" := 1%positive; "1.00.0" := 2%positive;
                          "2.0.0" := 3%positive ]})
    by (vm_compute; reflexivity).
  apply (latest_is_head_when_greatest_is_unique
           world_three (with_tape [["1.00.0"; "2.0.0"; "1.0.0"]] world_three)
           "acme" "version" "desc" _ 3%positive
           eq_refl eq_refl eq_refl eq_refl Hsr Hsole).
  left. split; reflexivity.
Defined.

(** C8, as stated, fails: with two releases that share the greatest
    version ("1.0.0" and "1.00.0" compare equal), the list keeps the order
    in which the map was ranged over, and the two calls need not range in
    the same order. *)
Lemma latest_differs_from_head_on_ties :
  let listed := ListReleasesForSoftware "acme" "version" "desc" world_ties in
  let latest := GetLatestReleaseForSoftware "acme" (snd listed) in
  heap (snd listed) = heap world_ties /\
  releases (snd listed) = releases world_ties /\
  exists l first,
    fst listed = Done (inl l) /\ fst latest = Done (inl first) /\
    head l <> Some first.
Proof.
  split; [reflexivity|]. split; [reflexivity|].
  exists [1%positive; 2%positive], 2%positive.
  split; [vm_compute; reflexivity|]. split; [vm_compute; reflexivity|].
  discriminate.
Qed.

(** ** Writing to the store: the mutex *)

(** [saveReleasesMetadata] asks for the read lock; under the write lock it
    parks. *)
Lemma save_parks_under_write_lock w :
  writer (mu w) = true -> saveReleasesMetadata w = (Blocked, w).
Proof.
  intros H. unfold saveReleasesMetadata, mu_RLock. go_step. by rewrite H.
Qed.

Lemma store_release_mu softwareName version p w w' :
  store_release softwareName version p w = (Done tt, w') -> mu w' = mu w.
Proof.
  unfold store_release. destruct (releases w !! softwareName); [|done].
  by intros [= <-].
Qed.

(** An update that gets as far as saving never comes back: what
    [UpdateReleaseMetadata] returns is always one of its not-found errors,
    and the world is then as before, the mutex apart. *)
Lemma Update_returns p w r w' :
  UpdateReleaseMetadata p w = (Done r, w') ->
  (exists e, r = Some e) /\ w' = with_mu (mkRWMutex false (readers (mu w))) w.
Proof.
  unfold UpdateReleaseMetadata, mu_Lock, mu_Unlock. go_step.
  destruct (writer (mu w) || negb (readers (mu w) =? 0)%nat); [done|].
  cbn -[saveReleasesMetadata has_software lookup_release store_release].
  destruct (heap w !! p) as [md|]; [|done].
  destruct (has_software _ _);
    cbn -[saveReleasesMetadata has_software lookup_release store_release].
  2: { intros [= <- <-]. eauto. }
  destruct (lookup_release _ _ _);
    cbn -[saveReleasesMetadata has_software lookup_release store_release].
  2: { intros [= <- <-]. eauto. }
  destruct (store_release _ _ _ _) as [[[]| |] w1] eqn:Hst;
    cbn -[saveReleasesMetadata]; try done.
  rewrite save_parks_under_write_lock; [done|].
  by rewrite (store_release_mu _ _ _ _ _ Hst).
Qed.

Lemma Create_returns p w r w' :
  CreateReleaseMetadata p w = (Done r, w') -> exists e, r = Some e.
Proof.
  unfold CreateReleaseMetadata, mu_Lock, mu_Unlock. go_step.
  destruct (writer (mu w) || negb (readers (mu w) =? 0)%nat); [done|].
  cbn -[saveReleasesMetadata has_software lookup_release store_release].
  destruct (heap w !! p) as [md|]; [|done].
  destruct (has_software _ _);
    cbn -[saveReleasesMetadata has_software lookup_release store_release].
  - destruct (lookup_release _ _ _);
      cbn -[saveReleasesMetadata has_software lookup_release store_release].
    { intros [= <- <-]. eauto. }
    destruct (store_release _ _ _ _) as [[[]| |] w1] eqn:Hst;
      cbn -[saveReleasesMetadata]; try done.
    rewrite save_parks_under_write_lock; [done|].
    by rewrite (store_release_mu _ _ _ _ _ Hst).
  - destruct (lookup_release _ _ _);
      cbn -[saveReleasesMetadata has_software lookup_release store_release].
    { intros [= <- <-]. eauto. }
    destruct (store_release _ _ _ _) as [[[]| |] w1] eqn:Hst;
      cbn -[saveReleasesMetadata]; try done.
    rewrite save_parks_under_write_lock; [done|].
    by rewrite (store_release_mu _ _ _ _ _ Hst).
Qed.

Lemma Delete_returns softwareName version w r w' :
  DeleteReleaseMetadata softwareName version w = (Done r, w') -> exists e, r = Some e.
Proof.
  unfold DeleteReleaseMetadata, mu_Lock, mu_Unlock. go_step.
  destruct (writer (mu w) || negb (readers (mu w) =? 0)%nat); [done|].
  cbn -[saveReleasesMetadata has_software lookup_release].
  destruct (has_software _ _); cbn -[saveReleasesMetadata has_software lookup_release].
  2: { intros [= <- <-]. eauto. }
  destruct (lookup_release _ _ _); cbn -[saveReleasesMetadata has_software lookup_release].
  2: { intros [= <- <-]. eauto. }
  destruct (size _ =? 0)%nat; cbn -[saveReleasesMetadata];
    rewrite save_parks_under_write_lock; done.
Qed.

(** ** Listing and saving *)

Lemma flatten_spec outer u :
  exists ps t,
    flatten outer u = (Done ps, with_tape t u) /\
    forall p, p ∈ ps <->
      exists n sr v, (n, sr) ∈ outer /\ sr !! v = Some p.
Proof.
  revert u. induction outer as [|[n sr] outer IH]; intros u.
  - exists [], (tape u). split; [by destruct u|].
    intros p. split; [by intros ?%elem_of_nil|].
    by intros (? & ? & ? & ?%elem_of_nil & _).
  - destruct (range_map_spec sr u) as (kvs & Hr & Hkvs).
    destruct (IH (with_tape (tail (tape u)) u)) as (ps & t & Hf & Hps).
    exists (kvs.*2 ++ ps), t. split.
    + simpl. go_step. rewrite Hr, Hf. done.
    + intros p. rewrite elem_of_app, list_elem_of_fmap, Hps. split.
      * intros [([k q] & -> & Hin)|(n' & sr' & v & Hin & Hv)].
        -- exists n, sr, k. split; [by left | by apply Hkvs].
        -- exists n', sr', v. split; [by right | done].
      * intros (n' & sr' & v & Hin & Hv).
        apply elem_of_cons in Hin as [[= -> ->]|Hin].
        -- left. exists (v, p). split; [done | by apply Hkvs].
        -- right. eauto.
Qed.

Lemma all_pointers_spec u :
  exists ps t,
    all_pointers u = (Done ps, with_tape t u) /\ forall p, p ∈ ps <-> held u p.
Proof.
  destruct (range_map_spec (releases u) u) as (outer & Hr & Houter).
  destruct (flatten_spec outer (with_tape (tail (tape u)) u)) as (ps & t & Hf & Hps).
  exists ps, t. split.
  - unfold all_pointers. go_step. rewrite Hr, Hf. done.
  - intros p. rewrite Hps. unfold held. split.
    + intros (n & sr & v & Hin & Hv). exists n, sr, v. split; [by apply Houter | done].
    + intros (n & sr & v & Hin & Hv). exists n, sr, v. split; [by apply Houter | done].
Qed.

Lemma with_mu_restore u :
  writer (mu u) = false ->
  with_mu (mkRWMutex false (readers (mu u))) u = u.
Proof. destruct u as [? ? ? [wr rd] ? ? ? ? ? ?]. simpl. by intros ->. Qed.

Lemma ListAll_spec u :
  writer (mu u) = false ->
  exists ps t,
    ListAllReleasesMetadata u = (Done (inl ps), with_tape t u) /\
    forall p, p ∈ ps <-> held u p.
Proof.
  intros Hw.
  destruct (all_pointers_spec (with_mu (mkRWMutex false (S (readers (mu u)))) u))
    as (ps & t & Ha & Hps).
  exists ps, t. split; [|exact Hps].
  unfold ListAllReleasesMetadata, mu_RLock, mu_RUnlock. go_step.
  rewrite Hw, Ha. cbn. f_equal.
  destruct u as [? ? ? [? ?] ? ? ? ? ? ?]. simpl in *. by subst.
Qed.

Lemma ListAll_blocked u :
  writer (mu u) = true -> ListAllReleasesMetadata u = (Blocked, u).
Proof.
  intros Hw. unfold ListAllReleasesMetadata, mu_RLock. go_step. by rewrite Hw.
Qed.

Lemma encode_heap ps u :
  encode ps u =
  match mapM (fun p => heap u !! p) ps with
  | Some rs => (Done rs, u)
  | None => (Panic "invalid memory address or nil pointer dereference", u)
  end.
Proof.
  induction ps as [|p ps IH]; [done|].
  simpl. go_step. destruct (heap u !! p) as [m|]; [|done].
  rewrite IH. simpl. by destruct (mapM _ ps).
Qed.

Lemma mapM_heap_elem (h : gmap loc ReleaseMetadata) ps rs :
  mapM (fun p => h !! p) ps = Some rs ->
  forall r, r ∈ rs <-> exists p, p ∈ ps /\ h !! p = Some r.
Proof.
  intros H%mapM_Some. induction H as [|p r' ps rs Hp _ IH]; intros r.
  - split; [by intros ?%elem_of_nil | by intros (? & ?%elem_of_nil & _)].
  - rewrite elem_of_cons, IH. split.
    + intros [->|(q & Hq & Hr)]; [exists p; split; [by left | done]|].
      exists q. split; [by right | done].
    + intros (q & [->|Hq]%elem_of_cons & Hr); [left; congruence|]. right. eauto.
Qed.

Lemma mapM_heap_live (h : gmap loc ReleaseMetadata) ps :
  (forall p, p ∈ ps -> is_Some (h !! p)) -> is_Some (mapM (fun p => h !! p) ps).
Proof.
  intros H. apply mapM_is_Some, Forall_forall. done.
Qed.

(** What [saveReleasesMetadata] does when the read lock can be taken. *)
Lemma save_unfold u :
  writer (mu u) = false ->
  exists ps t,
    (forall p, p ∈ ps <-> held u p) /\
    saveReleasesMetadata u =
      match fault_of SysCreate (filepath u) u with
      | Some no =>
          (Done (Some (Wrapf "failed to open release metadata database file for writing: %w"
                         [] (PathError "open" (filepath u) no))), with_tape t u)
      | None =>
          match fault_of SysWrite (filepath u) u with
          | Some no =>
              (Done (Some (Wrapf "failed to encode release metadata database to JSON: %w"
                             [] (PathError "write" (filepath u) no))), saved [] t u)
          | None =>
              match mapM (fun p => heap u !! p) ps with
              | Some rs => (Done None, saved rs t u)
              | None => (Panic "invalid memory address or nil pointer dereference",
                         saved [] t u)
              end
          end
      end.
Proof.
  intros Hw.
  destruct (all_pointers_spec (with_mu (mkRWMutex false (S (readers (mu u)))) u))
    as (ps & t & Ha & Hps).
  exists ps, t. split; [exact Hps|].
  unfold saveReleasesMetadata, mu_RLock, mu_RUnlock. go_step.
  rewrite Hw, Ha. cbn -[encode fault_of].
  unfold fault_of. cbn -[encode lookup_fault].
  assert (Hu : with_tape t (with_mu (mkRWMutex false (readers (mu u))) u) = with_tape t u)
    by (by rewrite with_mu_restore).
  destruct (lookup_fault SysCreate _ _).
  { f_equal. exact Hu. }
  cbn -[encode lookup_fault].
  destruct (lookup_fault SysWrite _ _).
  { f_equal. unfold saved. by rewrite <- Hu. }
  rewrite encode_heap. cbn -[mapM].
  destruct (mapM _ ps); cbn; f_equal; unfold saved; by rewrite <- Hu.
Qed.

(** ** One record of the reconciliation loop *)

Lemma os_Stat_unfold path u :
  os_Stat path u =
  (Done (match fault_of SysStat path u with
         | Some no => inr (PathError "stat" path no)
         | None =>
             match nodes u !! path with
             | Some fi => inl fi
             | None => inr (PathError "stat" path ENOENT)
             end
         end), u).
Proof.
  unfold os_Stat. destruct (fault_of SysStat path u); [done|].
  by destruct (nodes u !! path).
Qed.

Ltac update_cases :=
  match goal with
  | |- context [UpdateReleaseMetadata ?p ?u] =>
      let HU := fresh "HU" in
      destruct (UpdateReleaseMetadata p u) as [[[?|]| |] ?] eqn:HU;
      [ | apply Update_returns in HU as [[? [=]] _] | | ]
  end.

(** The loop goes on to the next record only from one place: the file is
    there and its size is the recorded one.  The record is then marked
    available, and nothing else changes. *)
Lemma reconcile_one_inv repoPath p u u' :
  reconcile_one repoPath p u = (Done None, u') ->
  exists md path fi,
    heap u !! p = Some md /\
    getReleaseFilePath repoPath md = Done path /\
    fault_of SysStat path u = None /\
    nodes u !! path = Some fi /\
    FileSize md = Size fi /\
    u' = with_heap (<[p := set_ReleaseState "available" md]> (heap u)) u.
Proof.
  unfold reconcile_one. go_step.
  destruct (heap u !! p) as [md|] eqn:Hp; [|done].
  destruct (getReleaseFilePath repoPath md) as [path| |] eqn:Hpath; [|done|done].
  rewrite os_Stat_unfold.
  destruct (fault_of SysStat path u) as [no|] eqn:Hf.
  { destruct no; cbn -[UpdateReleaseMetadata]; try done.
    rewrite Hp. cbn -[UpdateReleaseMetadata]. update_cases; done. }
  destruct (nodes u !! path) as [fi|] eqn:Hn.
  2: { cbn -[UpdateReleaseMetadata]. rewrite Hp. cbn -[UpdateReleaseMetadata].
       update_cases; done. }
  cbn -[UpdateReleaseMetadata os_Stat]. rewrite Hp. cbn -[UpdateReleaseMetadata os_Stat].
  rewrite os_Stat_unfold. unfold fault_of in *. cbn -[UpdateReleaseMetadata].
  rewrite Hf, Hn.
  destruct (FileSize md =? Size fi) eqn:Hsz; cbn -[UpdateReleaseMetadata].
  - intros [= <-]. apply Z.eqb_eq in Hsz. exists md, path, fi. done.
  - rewrite lookup_insert_eq. cbn -[UpdateReleaseMetadata]. update_cases; done.
Qed.

Lemma set_ReleaseState_same md : set_ReleaseState (ReleaseState md) md = md.
Proof. by destruct md. Qed.

Lemma with_heap_same u : with_heap (heap u) u = u.
Proof. by destruct u. Qed.

(** A settled record is passed over without a change. *)
Lemma reconcile_one_settled repoPath p u :
  settled repoPath u p -> reconcile_one repoPath p u = (Done None, u).
Proof.
  intros (md & path & fi & Hp & Hpath & Hf & Hn & Hst & Hsz).
  unfold reconcile_one. go_step. rewrite Hp, Hpath, os_Stat_unfold, Hf, Hn.
  cbn -[os_Stat]. rewrite Hp. cbn -[os_Stat].
  rewrite os_Stat_unfold. unfold fault_of in *. cbn. rewrite Hf, Hn.
  rewrite Hsz, Z.eqb_refl. cbn. f_equal.
  rewrite <- Hst, set_ReleaseState_same, insert_id by done.
  apply with_heap_same.
Qed.

(** The body of the loop never asks to return nil. *)
Lemma reconcile_one_result repoPath p u r u' :
  reconcile_one repoPath p u = (Done (Some r), u') -> exists e, r = Some e.
Proof.
  unfold reconcile_one. go_step.
  destruct (heap u !! p) as [md|] eqn:Hp; [|done].
  destruct (getReleaseFilePath repoPath md) as [path| |] eqn:Hpath; [|done|done].
  rewrite os_Stat_unfold.
  destruct (fault_of SysStat path u) as [no|] eqn:Hf.
  { destruct no; cbn -[UpdateReleaseMetadata]; try (intros [= <- _]; eauto).
    rewrite Hp. cbn -[UpdateReleaseMetadata].
    update_cases; try done. intros [= <- _]. eauto. }
  destruct (nodes u !! path) as [fi|] eqn:Hn.
  2: { cbn -[UpdateReleaseMetadata]. rewrite Hp. cbn -[UpdateReleaseMetadata].
       update_cases; try done. intros [= <- _]. eauto. }
  cbn -[UpdateReleaseMetadata os_Stat]. rewrite Hp. cbn -[UpdateReleaseMetadata os_Stat].
  rewrite os_Stat_unfold. unfold fault_of in *. cbn -[UpdateReleaseMetadata].
  rewrite Hf, Hn.
  destruct (FileSize md =? Size fi) eqn:Hsz; cbn -[UpdateReleaseMetadata]; [done|].
  rewrite lookup_insert_eq. cbn -[UpdateReleaseMetadata].
  update_cases; try done. intros [= <- _]. eauto.
Qed.

(** ** Reconciliation: drift repair *)

Lemma Update_heap p u : heap (snd (UpdateReleaseMetadata p u)) = heap u.
Proof.
  unfold UpdateReleaseMetadata, mu_Lock, mu_Unlock. go_step.
  destruct (writer (mu u) || negb (readers (mu u) =? 0)%nat); [done|].
  cbn -[saveReleasesMetadata has_software lookup_release store_release].
  destruct (heap u !! p) as [md|]; [|done].
  destruct (has_software _ _); [|done].
  cbn -[saveReleasesMetadata has_software lookup_release store_release].
  destruct (lookup_release _ _ _); [|done].
  unfold store_release at 1. cbn -[saveReleasesMetadata].
  destruct (releases u !! SoftwareName md); [|done].
  rewrite save_parks_under_write_lock; done.
Qed.

(** What the loop does in memory for a record that needs a repair, and
    that it does not get past that record. *)
Lemma reconcile_one_missing repoPath p u md path :
  heap u !! p = Some md ->
  getReleaseFilePath repoPath md = Done path ->
  fault_of SysStat path u = None ->
  nodes u !! path = None ->
  heap (snd (reconcile_one repoPath p u)) !! p = Some (set_ReleaseState "unavailable" md) /\
  forall u', reconcile_one repoPath p u <> (Done None, u').
Proof.
  intros Hp Hpath Hf Hn. split.
  - unfold reconcile_one. go_step. rewrite Hp, Hpath, os_Stat_unfold, Hf, Hn.
    cbn -[UpdateReleaseMetadata]. rewrite Hp. cbn -[UpdateReleaseMetadata].
    match goal with |- context [UpdateReleaseMetadata p ?v] =>
      pose proof (Update_heap p v) as Hh;
      destruct (UpdateReleaseMetadata p v) as [[[e|]| |] v'] end;
      simpl in *; rewrite Hh; apply lookup_insert_eq.
  - intros u' (md' & path' & fi & Hp' & Hpath' & _ & Hn' & _)%reconcile_one_inv.
    congruence.
Qed.

Lemma reconcile_one_resized repoPath p u md path fi :
  heap u !! p = Some md ->
  getReleaseFilePath repoPath md = Done path ->
  fault_of SysStat path u = None ->
  nodes u !! path = Some fi ->
  FileSize md <> Size fi ->
  heap (snd (reconcile_one repoPath p u)) !! p
    = Some (set_FileSize (Size fi) (set_ReleaseState "available" md)) /\
  forall u', reconcile_one repoPath p u <> (Done None, u').
Proof.
  intros Hp Hpath Hf Hn Hsz. split.
  - unfold reconcile_one. go_step. rewrite Hp, Hpath, os_Stat_unfold, Hf, Hn.
    cbn -[UpdateReleaseMetadata os_Stat]. rewrite Hp.
    cbn -[UpdateReleaseMetadata os_Stat].
    rewrite os_Stat_unfold. unfold fault_of in *. cbn -[UpdateReleaseMetadata].
    rewrite Hf, Hn. apply Z.eqb_neq in Hsz. rewrite Hsz.
    cbn -[UpdateReleaseMetadata]. rewrite lookup_insert_eq.
    cbn -[UpdateReleaseMetadata].
    match goal with |- context [UpdateReleaseMetadata p ?v] =>
      pose proof (Update_heap p v) as Hh;
      destruct (UpdateReleaseMetadata p v) as [[[e|]| |] v'] end;
      simpl in *; rewrite Hh; apply lookup_insert_eq.
  - intros u' (md' & path' & fi' & Hp' & Hpath' & _ & Hn' & Hsz' & _)%reconcile_one_inv.
    congruence.
Qed.

(** C4 (the code departs from the claim).  For a record it reaches whose
    file is gone, the loop of [ReconcileReleases] sets the state to
    unavailable in memory; for one whose file is there with another size, it
    sets the state to available and the size to the observed one.  In both
    cases it then calls [UpdateReleaseMetadata], which never returns nil:
    the write lock is held when [saveReleasesMetadata] asks for the read
    lock, and the call parks.  The pass does not get past the first record
    that needs a repair: with the record of [acme 1.0.0] available and its
    file gone, and with the file back under another size, the call does not
    return and nothing reaches the file of the database. *)
Theorem reconcile_parks_on_repair :
  (forall repoPath p u md path,
     heap u !! p = Some md ->
     getReleaseFilePath repoPath md = Done path ->
     fault_of SysStat path u = None ->
     nodes u !! path = None ->
     heap (snd (reconcile_one repoPath p u)) !! p
       = Some (set_ReleaseState "unavailable" md) /\
     forall u', reconcile_one repoPath p u <> (Done None, u')) /\
  (forall repoPath p u md path fi,
     heap u !! p = Some md ->
     getReleaseFilePath repoPath md = Done path ->
     fault_of SysStat path u = None ->
     nodes u !! path = Some fi ->
     FileSize md <> Size fi ->
     heap (snd (reconcile_one repoPath p u)) !! p
       = Some (set_FileSize (Size fi) (set_ReleaseState "available" md)) /\
     forall u', reconcile_one repoPath p u <> (Done None, u')) /\
  (forall p w w', UpdateReleaseMetadata p w <> (Done None, w')) /\
  (let run := Service_ReconcileReleases world_missing in
   fst run = Blocked /\
   heap (snd run) !! 1%positive = Some (md0 "acme" "1.0.0" 1024 "unavailable") /\
   datafile (snd run) = datafile world_missing /\
   mu (snd run) = mkRWMutex true 0) /\
  (let run := Service_ReconcileReleases world_resized in
   fst run = Blocked /\
   heap (snd run) !! 1%positive = Some (md0 "acme" "1.0.0" 2048 "available") /\
   datafile (snd run) = datafile world_resized /\
   mu (snd run) = mkRWMutex true 0).
Proof.
  split; [exact reconcile_one_missing|].
  split; [exact reconcile_one_resized|].
  split; [|split].
  - intros p w w' H. apply Update_returns in H as [[e He] _]. done.
  - vm_compute. repeat split.
  - vm_compute. repeat split.
Qed.

(** ** The reconciliation loop *)

Lemma for_range_app {A R} (body : A -> M (option R)) l1 l2 u :
  for_range (l1 ++ l2) body u =
  match for_range l1 body u with
  | (Done None, u1) => for_range l2 body u1
  | other => other
  end.
Proof.
  revert u. induction l1 as [|x l1 IH]; intros u; [done|].
  simpl. unfold bind.
  destruct (body x u) as [[[v|]| |] u1]; try done.
Qed.

Lemma settled_step repoPath p u md path fi :
  heap u !! p = Some md ->
  getReleaseFilePath repoPath md = Done path ->
  fault_of SysStat path u = None ->
  nodes u !! path = Some fi ->
  FileSize md = Size fi ->
  let u' := with_heap (<[p := set_ReleaseState "available" md]> (heap u)) u in
  settled repoPath u' p /\
  (forall q, settled repoPath u q -> settled repoPath u' q) /\
  (forall q, is_Some (heap u !! q) -> is_Some (heap u' !! q)).
Proof.
  intros Hp Hpath Hf Hn Hsz u'.
  assert (Hnew : settled repoPath u' p).
  { exists (set_ReleaseState "available" md), path, fi.
    unfold u'. simpl. rewrite lookup_insert_eq. done. }
  split; [exact Hnew|]. split.
  - intros q Hq. destruct (decide (q = p)) as [->|Hne]; [exact Hnew|].
    destruct Hq as (md' & path' & fi' & H1 & H2 & H3 & H4 & H5 & H6).
    exists md', path', fi'. unfold u'. simpl. rewrite lookup_insert_ne by done. done.
  - intros q Hq. unfold u'. simpl.
    destruct (decide (q = p)) as [->|Hne];
      [rewrite lookup_insert_eq | rewrite lookup_insert_ne by done]; eauto.
Qed.

(** A pass that runs through a list of records without returning leaves
    each of them settled, keeps settled what was, and touches the heap
    only. *)
Lemma loop_inv repoPath l u u' :
  for_range l (reconcile_one repoPath) u = (Done None, u') ->
  (forall p, p ∈ l -> settled repoPath u' p) /\
  (forall q, settled repoPath u q -> settled repoPath u' q) /\
  (forall q, is_Some (heap u !! q) -> is_Some (heap u' !! q)) /\
  exists h, u' = with_heap h u.
Proof.
  revert u. induction l as [|p l IH]; intros u.
  - intros [= <-]. split; [by intros ? ?%elem_of_nil|].
    repeat split; try done. exists (heap u). by rewrite with_heap_same.
  - simpl. unfold bind at 1.
    destruct (reconcile_one repoPath p u) as [[[v|]| |] u1] eqn:Hone; try done.
    intros Hrest.
    apply reconcile_one_inv in Hone as (md & path & fi & Hp & Hpath & Hf & Hn & Hsz & ->).
    destruct (settled_step repoPath p u md path fi Hp Hpath Hf Hn Hsz) as (Hs1 & Hs2 & Hs3).
    destruct (IH _ Hrest) as (Hl & Hkeep & Hlive & h & ->).
    split; [|split; [|split]].
    + intros q [->|Hq]%elem_of_cons; [by apply Hkeep | by apply Hl].
    + intros q Hq. by apply Hkeep, Hs2.
    + intros q Hq. by apply Hlive, Hs3.
    + by exists h.
Qed.

Lemma loop_settled repoPath l u :
  (forall p, p ∈ l -> settled repoPath u p) ->
  for_range l (reconcile_one repoPath) u = (Done None, u).
Proof.
  induction l as [|p l IH]; intros Hl; [done|].
  simpl. unfold bind at 1.
  rewrite reconcile_one_settled by (apply Hl; by left).
  apply IH. intros q Hq. apply Hl. by right.
Qed.

Lemma loop_result repoPath l u r u' :
  for_range l (reconcile_one repoPath) u = (Done (Some r), u') -> exists e, r = Some e.
Proof.
  revert u. induction l as [|p l IH]; intros u; [done|].
  simpl. unfold bind at 1.
  destruct (reconcile_one repoPath p u) as [[[v|]| |] u1] eqn:Hone; try done.
  - intros [= <- <-]. by eapply reconcile_one_result.
  - apply IH.
Qed.

(** ** Reconciliation: an unexpected error *)

(** C2, as amended.  When the pass has gone through the records [before]
    without returning and the stat of the next record fails with an error
    other than not-exist, [ReconcileReleases] stops there: it returns that
    error, wrapped, and visits no further record.  Nothing is undone: the
    world is the one left by the records already visited, each of which
    stays marked available with the size of its file. *)
Theorem reconcile_stops_at_stat_error
  (repoPath : string) (w w0 w1 : World) (before after : list loc) (p : loc)
  (md : ReleaseMetadata) (path : string) (e : error) :
  ListAllReleasesMetadata w = (Done (inl (before ++ p :: after)), w0) ->
  for_range before (reconcile_one repoPath) w0 = (Done None, w1) ->
  heap w1 !! p = Some md ->
  getReleaseFilePath repoPath md = Done path ->
  os_Stat path w1 = (Done (inr e), w1) ->
  os_IsNotExist (Some e) = false ->
  ReconcileReleases repoPath w =
    (Done (Some (Wrapf "error checking release file during reconciliation for %s %s: %w"
                   [SoftwareName md; Version md] e)), w1) /\
  (forall q, q ∈ before -> settled repoPath w1 q).
Proof.
  intros Hlist Hbefore Hp Hpath Hstat Hne. split.
  - unfold ReconcileReleases. unfold bind at 1. rewrite Hlist.
    unfold bind at 1. rewrite for_range_app, Hbefore.
    simpl. unfold bind at 1.
    assert (Hone : reconcile_one repoPath p w1 =
      (Done (Some (Some (Wrapf "error checking release file during reconciliation for %s %s: %w"
                           [SoftwareName md; Version md] e))), w1)).
    { unfold reconcile_one. go_step. rewrite Hp, Hpath, Hstat.
      cbn -[os_IsNotExist]. rewrite Hne. done. }
    rewrite Hone. done.
  - by apply loop_inv in Hbefore as [H _].
Qed.

Lemma reconcile_stops_at_stat_error_witness :
  fst (ReconcileReleases "/repo" (world_denied ["acme"; "zlib"] []))
  = Done (Some (Wrapf "error checking release file during reconciliation for %s %s: %w"
                  ["zlib"; "1.0.0"] (PathError "stat" zlib_path EACCES))).
Proof.
  set (w := world_denied ["acme"; "zlib"] []).
  set (w0 := snd (ListAllReleasesMetadata w)).
  set (w1 := snd (for_range [1%positive] (reconcile_one "/repo") w0)).
  assert (H1 : ListAllReleasesMetadata w = (Done (inl ([1%positive] ++ [2%positive])), w0))
    by (vm_compute; reflexivity).
  assert (H2 : for_range [1%positive] (reconcile_one "/repo") w0 = (Done None, w1))
    by (vm_compute; reflexivity).
  assert (H3 : heap w1 !! 2%positive = Some (md0 "zlib" "1.0.0" 512 "available"))
    by (vm_compute; reflexivity).
  assert (H4 : getReleaseFilePath "/repo" (md0 "zlib" "1.0.0" 512 "available")
               = Done zlib_path) by (vm_compute; reflexivity).
  assert (H5 : os_Stat zlib_path w1 = (Done (inr (PathError "stat" zlib_path EACCES)), w1))
    by (vm_compute; reflexivity).
  destruct (reconcile_stops_at_stat_error "/repo" w w0 w1 [1%positive] [] 2%positive
              _ _ _ H1 H2 H3 H4 H5 eq_refl) as [H _].
  rewrite H. reflexivity.
Defined.

(** C2, as stated, fails: the pass over [acme] then [zlib] returns the
    permission error of [zlib], and the record of [acme], visited first,
    has changed state in the store. *)
Lemma reconcile_abort_keeps_earlier_repairs :
  let w := world_denied ["acme"; "zlib"] [] in
  let run := ReconcileReleases "/repo" w in
  fst run = Done (Some (Wrapf
      "error checking release file during reconciliation for %s %s: %w"
      ["zlib"; "1.0.0"] (PathError "stat" zlib_path EACCES))) /\
  heap w !! 1%positive = Some (md0 "acme" "1.0.0" 1024 "unavailable") /\
  heap (snd run) !! 1%positive = Some (md0 "acme" "1.0.0" 1024 "available") /\
  heap (snd run) <> heap w.
Proof.
  split; [vm_compute; reflexivity|]. split; [reflexivity|].
  split; [vm_compute; reflexivity|].
  intros H. apply (f_equal (fun h : gmap loc ReleaseMetadata => h !! 1%positive)) in H.
  vm_compute in H. discriminate.
Qed.

(** ** Reconciliation: running it twice *)

(** A pass that returns nil: the list, the loop that ran through it, the
    save at the end. *)
Lemma reconcile_nil_inv repoPath w w1 :
  ReconcileReleases repoPath w = (Done None, w1) ->
  exists l t u1,
    (forall p, p ∈ l <-> held w p) /\
    for_range l (reconcile_one repoPath) (with_tape t w) = (Done None, u1) /\
    saveReleasesMetadata u1 = (Done None, w1).
Proof.
  intros H.
  destruct (writer (mu w)) eqn:Hw.
  { unfold ReconcileReleases, bind in H. by rewrite ListAll_blocked in H. }
  destruct (ListAll_spec w Hw) as (l & t & Hlist & Hl).
  exists l, t. unfold ReconcileReleases in H. unfold bind at 1 in H.
  rewrite Hlist in H. unfold bind at 1 in H.
  destruct (for_range l (reconcile_one repoPath) (with_tape t w))
    as [[[res|]| |] u1] eqn:Hloop; try done.
  - apply loop_result in Hloop as [e ->]. done.
  - exists u1. done.
Qed.

(** C3, as amended.  When a reconciliation pass has returned without an
    error, a second pass on the world it left, with the file system as it
    was, returns without an error too and changes nothing: the records, the
    map and the files on disk are the same, and the file of the database
    holds the same records, whatever the orders in which the two passes
    range over the map. *)
Theorem reconcile_twice (repoPath : string) (w w1 : World) :
  ReconcileReleases repoPath w = (Done None, w1) ->
  exists w2 rs1 rs2,
    ReconcileReleases repoPath w1 = (Done None, w2) /\
    heap w2 = heap w1 /\ releases w2 = releases w1 /\ nodes w2 = nodes w1 /\
    datafile w1 = Some rs1 /\ datafile w2 = Some rs2 /\
    (forall r, r ∈ rs2 <-> r ∈ rs1).
Proof.
  intros (l & t & u1 & Hl & Hloop & Hsave)%reconcile_nil_inv.
  destruct (loop_inv _ _ _ _ Hloop) as (Hsettled & _ & _ & h & ->).
  set (u1 := with_heap h (with_tape t w)) in *.
  destruct (writer (mu u1)) eqn:Hw.
  { by rewrite save_parks_under_write_lock in Hsave. }
  destruct (save_unfold u1 Hw) as (ps1 & t1 & Hps1 & Hsave1).
  rewrite Hsave in Hsave1.
  destruct (fault_of SysCreate (filepath u1) u1) eqn:Hc; [done|].
  destruct (fault_of SysWrite (filepath u1) u1) eqn:Hwr; [done|].
  destruct (mapM (fun p => heap u1 !! p) ps1) as [rs1|] eqn:Hrs1; [|done].
  injection Hsave1 as ->.
  assert (Hlive : forall p, held u1 p -> is_Some (heap u1 !! p)).
  { intros p Hp%Hps1. assert (His : is_Some (mapM (fun p => heap u1 !! p) ps1)) by eauto.
    apply mapM_is_Some in His. rewrite Forall_forall in His. exact (His p Hp). }
  set (w1 := saved rs1 t1 u1).
  assert (Hheld : forall p, held w1 p <-> held w p) by done.
  destruct (ListAll_spec w1 Hw) as (l2 & t2 & Hlist2 & Hl2).
  assert (Hsettled2 : forall p, p ∈ l2 -> settled repoPath (with_tape t2 w1) p).
  { intros p Hp. apply Hl2, Hheld, Hl in Hp. exact (Hsettled p Hp). }
  pose proof (loop_settled repoPath l2 _ Hsettled2) as Hloop2.
  destruct (save_unfold (with_tape t2 w1) Hw) as (ps2 & t3 & Hps2 & Hsave2).
  change (fault_of SysCreate (filepath (with_tape t2 w1)) (with_tape t2 w1))
    with (fault_of SysCreate (filepath u1) u1) in Hsave2.
  change (fault_of SysWrite (filepath (with_tape t2 w1)) (with_tape t2 w1))
    with (fault_of SysWrite (filepath u1) u1) in Hsave2.
  rewrite Hc, Hwr in Hsave2.
  change (heap (with_tape t2 w1)) with (heap u1) in Hsave2.
  destruct (mapM_heap_live (heap u1) ps2) as [rs2 Hrs2].
  { intros p Hp. apply Hps2 in Hp. by apply Hlive. }
  rewrite Hrs2 in Hsave2.
  exists (saved rs2 t3 (with_tape t2 w1)), rs1, rs2.
  split; [|repeat split; try done].
  - unfold ReconcileReleases. unfold bind at 1. rewrite Hlist2.
    unfold bind at 1. rewrite Hloop2. exact Hsave2.
  - rewrite (mapM_heap_elem _ _ _ Hrs2). intros (p & Hp & Hr).
    apply (mapM_heap_elem _ _ _ Hrs1). exists p. split; [|done].
    apply Hps1. by apply Hps2 in Hp.
  - rewrite (mapM_heap_elem _ _ _ Hrs1). intros (p & Hp & Hr).
    apply (mapM_heap_elem _ _ _ Hrs2). exists p. split; [|done].
    apply Hps2. by apply Hps1 in Hp.
Qed.

Lemma reconcile_twice_witness :
  exists w2 rs1 rs2,
    ReconcileReleases "/repo" (snd (ReconcileReleases "/repo" world_back)) = (Done None, w2) /\
    heap w2 = heap (snd (ReconcileReleases "/repo" world_back)) /\
    releases w2 = releases (snd (ReconcileReleases "/repo" world_back)) /\
    nodes w2 = nodes (snd (ReconcileReleases "/repo" world_back)) /\
    datafile (snd (ReconcileReleases "/repo" world_back)) = Some rs1 /\
    datafile w2 = Some rs2 /\
    (forall r, r ∈ rs2 <-> r ∈ rs1).
Proof.
  apply (reconcile_twice "/repo" world_back).
  vm_compute. reflexivity.
Defined.

(** C3, as stated, fails: the stat of [zlib] is refused on both passes and
    the disk does not change in between.  The first pass meets [zlib] first
    and returns at once; the second meets [acme] first and marks it
    available before it returns: a change made by the second call. *)
Lemma reconcile_second_pass_mutates :
  let w := world_denied ["zlib"; "acme"] ["acme"; "zlib"] in
  let first := ReconcileReleases "/repo" w in
  let second := ReconcileReleases "/repo" (snd first) in
  nodes (snd first) = nodes w /\ faults (snd first) = faults w /\
  heap (snd first) = heap w /\
  heap (snd first) !! 1%positive = Some (md0 "acme" "1.0.0" 1024 "unavailable") /\
  heap (snd second) !! 1%positive = Some (md0 "acme" "1.0.0" 1024 "available") /\
  heap (snd second) <> heap (snd first).
Proof.
  repeat split; try (vm_compute; reflexivity).
  intros H. apply (f_equal (fun h : gmap loc ReleaseMetadata => h !! 1%positive)) in H.
  vm_compute in H. discriminate.
Qed.

(** ** The store invariant *)

Lemma no_empty_insert w softwareName softwareReleases :
  no_empty_software w -> softwareReleases <> ∅ ->
  forall n sr, <[softwareName := softwareReleases]> (releases w) !! n = Some sr -> sr <> ∅.
Proof.
  intros Hinv Hne n sr. destruct (decide (softwareName = n)) as [->|Hn].
  - rewrite lookup_insert_eq. by intros [= <-].
  - rewrite lookup_insert_ne by done. apply Hinv.
Qed.

Lemma store_release_no_empty softwareName version p w w' :
  no_empty_software w ->
  store_release softwareName version p w = (Done tt, w') ->
  no_empty_software w'.
Proof.
  intros Hinv. unfold store_release.
  destruct (releases w !! softwareName) as [sr|]; [|done].
  intros [= <-]. intros n sr'. simpl. apply no_empty_insert; [done|].
  apply insert_non_empty.
Qed.

Lemma store_release_outcome softwareName version p w :
  (exists w', store_release softwareName version p w = (Done tt, w')) \/
  store_release softwareName version p w = (Panic "assignment to entry in nil map", w).
Proof.
  unfold store_release. destruct (releases w !! softwareName); eauto.
Qed.

(** Whatever way a write to the store ends, no software name is left with
    an empty collection of releases. *)
Lemma store_writes_keep_invariant w :
  no_empty_software w ->
  (forall p, no_empty_software (snd (CreateReleaseMetadata p w))) /\
  (forall p, no_empty_software (snd (UpdateReleaseMetadata p w))) /\
  (forall n v, no_empty_software (snd (DeleteReleaseMetadata n v w))).
Proof.
  intros Hinv. split; [|split].
  - intros p. unfold CreateReleaseMetadata, mu_Lock, mu_Unlock. go_step.
    destruct (writer (mu w) || negb (readers (mu w) =? 0)%nat); [done|].
    cbn -[saveReleasesMetadata has_software lookup_release store_release].
    destruct (heap w !! p) as [md|]; [|done].
    destruct (has_software _ _) eqn:Hhas;
      cbn -[saveReleasesMetadata has_software lookup_release store_release].
    + destruct (lookup_release _ _ _); [done|].
      match goal with |- context [store_release ?n ?v ?q ?u] =>
        destruct (store_release_outcome n v q u) as [[w' Hst]| ->];
        [rewrite Hst; pose proof (store_release_no_empty n v q u w' Hinv Hst) as Hinv';
         pose proof (store_release_mu _ _ _ _ _ Hst) as Hmu' | done] end.
      rewrite save_parks_under_write_lock by (by rewrite Hmu'). done.
    + unfold lookup_release at 1. cbn -[saveReleasesMetadata store_release].
      rewrite lookup_insert_eq. cbn -[saveReleasesMetadata store_release].
      rewrite lookup_empty.
      unfold store_release. cbn -[saveReleasesMetadata]. rewrite lookup_insert_eq.
      rewrite save_parks_under_write_lock by done.
      cbn. intros n sr. rewrite insert_insert_eq.
      apply no_empty_insert; [done | apply insert_non_empty].
  - intros p. unfold UpdateReleaseMetadata, mu_Lock, mu_Unlock. go_step.
    destruct (writer (mu w) || negb (readers (mu w) =? 0)%nat); [done|].
    cbn -[saveReleasesMetadata has_software lookup_release store_release].
    destruct (heap w !! p) as [md|]; [|done].
    destruct (has_software _ _); [|done].
    cbn -[saveReleasesMetadata has_software lookup_release store_release].
    destruct (lookup_release _ _ _); [|done].
    match goal with |- context [store_release ?n ?v ?q ?u] =>
      destruct (store_release_outcome n v q u) as [[w' Hst]| ->];
      [rewrite Hst; pose proof (store_release_no_empty n v q u w' Hinv Hst) as Hinv';
       pose proof (store_release_mu _ _ _ _ _ Hst) as Hmu' | done] end.
    rewrite save_parks_under_write_lock by (by rewrite Hmu'). done.
  - intros n v. unfold DeleteReleaseMetadata, mu_Lock, mu_Unlock. go_step.
    destruct (writer (mu w) || negb (readers (mu w) =? 0)%nat); [done|].
    cbn -[saveReleasesMetadata has_software lookup_release].
    destruct (has_software _ _); [|done].
    cbn -[saveReleasesMetadata has_software lookup_release].
    destruct (lookup_release _ _ _); [|done].
    cbn -[saveReleasesMetadata].
    destruct (size _ =? 0)%nat eqn:Hsz; cbn -[saveReleasesMetadata];
      rewrite save_parks_under_write_lock by done; cbn.
    + intros n' sr. simpl. rewrite delete_insert_eq.
      destruct (decide (n = n')) as [->|Hn]; [by rewrite lookup_delete_eq|].
      rewrite lookup_delete_ne by done. apply Hinv.
    + intros n' sr. simpl. apply no_empty_insert; [done|].
      intros Hem. rewrite Hem, map_size_empty in Hsz. done.
Qed.

(** ** Creating a release that is there *)

Lemma Create_free_existing w metadata md q :
  mu w = free_mu ->
  heap w !! metadata = Some md ->
  lookup_release (SoftwareName md) (Version md) w = Some q ->
  CreateReleaseMetadata metadata w
    = (Done (Some (Errorf "release version already exists for software %s: %s"
                     [SoftwareName md; Version md])), w).
Proof.
  intros Hmu Hp Hq.
  destruct (lookup_release_Some _ _ _ _ Hq) as (sr & Hsr & Hv).
  unfold CreateReleaseMetadata, bind, defer, mu_Lock, mu_Unlock, deref, get_world, ret.
  rewrite Hmu. simpl. rewrite Hp. unfold has_software. simpl.
  rewrite bool_decide_true by (by rewrite Hsr). simpl.
  unfold lookup_release. simpl. rewrite Hsr. simpl. rewrite Hv. simpl.
  f_equal. rewrite <- (with_mu_same w) at 2. by rewrite Hmu.
Qed.

(** A new key is filed, and the call then waits in [saveReleasesMetadata]
    with the write lock held. *)
Lemma Create_free_fresh w metadata md :
  mu w = free_mu ->
  heap w !! metadata = Some md ->
  lookup_release (SoftwareName md) (Version md) w = None ->
  CreateReleaseMetadata metadata w
    = (Blocked,
       with_mu (mkRWMutex true 0)
         (with_releases
            (<[SoftwareName md :=
                 <[Version md := metadata]> (default ∅ (releases w !! SoftwareName md))]>
               (releases w)) w)).
Proof.
  intros Hmu Hp Hq.
  unfold CreateReleaseMetadata, mu_Lock, mu_Unlock. go_step.
  rewrite Hmu. cbn -[saveReleasesMetadata has_software lookup_release store_release].
  rewrite Hp. unfold has_software.
  cbn -[saveReleasesMetadata lookup_release store_release].
  destruct (releases w !! SoftwareName md) as [sr|] eqn:Hsr.
  - rewrite bool_decide_true by done.
    cbn -[saveReleasesMetadata lookup_release store_release].
    unfold lookup_release in *. cbn -[saveReleasesMetadata store_release].
    rewrite Hq.
    unfold store_release. cbn -[saveReleasesMetadata]. rewrite Hsr.
    rewrite save_parks_under_write_lock by done. done.
  - rewrite bool_decide_false by (by intros [? ?]).
    cbn -[saveReleasesMetadata lookup_release store_release].
    unfold lookup_release. cbn -[saveReleasesMetadata store_release].
    rewrite lookup_insert_eq. cbn -[saveReleasesMetadata store_release].
    rewrite lookup_empty.
    unfold store_release. cbn -[saveReleasesMetadata]. rewrite lookup_insert_eq.
    rewrite save_parks_under_write_lock by done.
    cbn. by rewrite insert_insert_eq.
Qed.

(** While a writer holds the mutex, every operation of the store waits. *)
Lemma locked_store_parks u :
  writer (mu u) = true ->
  (forall n v, GetReleaseMetadata n v u = (Blocked, u)) /\
  (forall n, ListReleasesMetadataForSoftware n u = (Blocked, u)) /\
  ListAllReleasesMetadata u = (Blocked, u) /\
  (forall p, CreateReleaseMetadata p u = (Blocked, u)) /\
  (forall p, UpdateReleaseMetadata p u = (Blocked, u)) /\
  (forall n v, DeleteReleaseMetadata n v u = (Blocked, u)) /\
  (forall repoPath, ReconcileReleases repoPath u = (Blocked, u)) /\
  saveReleasesMetadata u = (Blocked, u).
Proof.
  intros Hw. repeat split; intros;
    unfold GetReleaseMetadata, ListReleasesMetadataForSoftware, ListAllReleasesMetadata,
      CreateReleaseMetadata, UpdateReleaseMetadata, DeleteReleaseMetadata,
      ReconcileReleases, ListAllReleasesMetadata, saveReleasesMetadata,
      mu_Lock, mu_RLock; go_step; by rewrite Hw.
Qed.

(** C7 (the code departs from the claim).  On a store whose mutex is
    free, creating a record whose key is there returns the already-exists
    error and changes nothing, as the claim says.  But a key that
    [CreateReleaseMetadata] itself filed is never refused that way: the
    call that filed it is parked in [saveReleasesMetadata] with the write
    lock held, and every later create, the one with the same key among
    them, waits for that lock for ever. *)
Theorem duplicate_create_parks_behind_first_create :
  (forall w metadata md q,
     mu w = free_mu ->
     heap w !! metadata = Some md ->
     lookup_release (SoftwareName md) (Version md) w = Some q ->
     CreateReleaseMetadata metadata w
       = (Done (Some (Errorf "release version already exists for software %s: %s"
                        [SoftwareName md; Version md])), w)) /\
  (forall w metadata md,
     mu w = free_mu ->
     heap w !! metadata = Some md ->
     lookup_release (SoftwareName md) (Version md) w = None ->
     let first := CreateReleaseMetadata metadata w in
     fst first = Blocked /\
     lookup_release (SoftwareName md) (Version md) (snd first) = Some metadata /\
     datafile (snd first) = datafile w /\
     forall again, CreateReleaseMetadata again (snd first) = (Blocked, snd first)) /\
  (let first := CreateReleaseMetadata 2%positive world_second in
   let again := CreateReleaseMetadata 2%positive (snd first) in
   fst first = Blocked /\
   lookup_release "acme" "2.0.0" (snd first) = Some 2%positive /\
   fst again = Blocked /\
   snd again = snd first /\
   mu (snd again) = mkRWMutex true 0).
Proof.
  split; [|split].
  - intros w metadata md q. apply Create_free_existing.
  - intros w metadata md Hmu Hp Hq first. unfold first.
    rewrite (Create_free_fresh _ _ _ Hmu Hp Hq). cbn [fst snd].
    split; [done|]. split.
    { unfold lookup_release. simpl. rewrite lookup_insert_eq. simpl.
      by rewrite lookup_insert_eq. }
    split; [done|]. intros again.
    match goal with |- CreateReleaseMetadata _ ?u = _ =>
      destruct (locked_store_parks u eq_refl) as (_ & _ & _ & H & _)
    end.
    apply H.
  - vm_compute. repeat split.
Qed.

(** ** Deleting the last release *)

(** C10 (the code departs from the claim).  The map itself keeps the
    invariant: however a write ends, no name is left with an empty
    collection, and deleting the only release of [acme] takes the name out
    of the map.  But [DeleteReleaseMetadata] then parks in
    [saveReleasesMetadata] with the write lock held: it never returns a nil
    error, nothing reaches the file, and the lookups that follow park on
    the mutex instead of returning not-found. *)
Theorem delete_last_release_parks :
  (forall w, no_empty_software w ->
     (forall p, no_empty_software (snd (CreateReleaseMetadata p w))) /\
     (forall p, no_empty_software (snd (UpdateReleaseMetadata p w))) /\
     (forall n v, no_empty_software (snd (DeleteReleaseMetadata n v w)))) /\
  (let run := DeleteReleaseMetadata "acme" "1.0.0" world_missing in
   fst run = Blocked /\
   releases (snd run) !! "acme" = None /\
   datafile (snd run) = datafile world_missing /\
   mu (snd run) = mkRWMutex true 0 /\
   fst (GetReleaseMetadata "acme" "1.0.0" (snd run)) = Blocked /\
   fst (ListReleasesMetadataForSoftware "acme" (snd run)) = Blocked) /\
  (forall n v w r w', DeleteReleaseMetadata n v w = (Done r, w') -> exists e, r = Some e).
Proof.
  split; [exact store_writes_keep_invariant|]. split.
  - vm_compute. repeat split.
  - exact Delete_returns.
Qed.
(* ================================================================== *)
(** * Further properties of the code *)

(** ** The order of versions *)

(** X1.  [GreaterThan] is a strict order on the triple (major, minor,
    patch), and two versions that neither is greater than the other have
    the same triple: the original string plays no part in the order. *)
Theorem GreaterThan_strict_order :
  (forall v, GreaterThan v v = false) /\
  (forall x y z,
     GreaterThan x y = true -> GreaterThan y z = true -> GreaterThan x z = true) /\
  (forall v o,
     GreaterThan v o = true \/ GreaterThan o v = true \/
     (Major v = Major o /\ Minor v = Minor o /\ Patch v = Patch o)) /\
  (forall v o,
     Major v = Major o -> Minor v = Minor o -> Patch v = Patch o ->
     GreaterThan v o = false /\ GreaterThan o v = false).
Proof.
  repeat split.
  - intros v. unfold GreaterThan. ltb_cases; (done || lia).
  - intros x y z. unfold GreaterThan. ltb_cases; (done || lia).
  - intros v o. unfold GreaterThan. ltb_cases; auto; right; right; lia.
  - unfold GreaterThan. ltb_cases; (done || lia).
  - unfold GreaterThan. ltb_cases; (done || lia).
Qed.

(** ** Paths: several versions, one file *)

Lemma Split_zero_cuts sep s : Strings.genSplit sep 0 s = [s].
Proof. by destruct s. Qed.

Lemma Split_cons_other sep c s :
  Ascii.eqb c sep = false ->
  Strings.Split (String c s) sep = Strings.push_front c (Strings.Split s sep).
Proof.
  intros Hc. unfold Strings.Split. simpl. rewrite Hc. simpl.
  destruct (Strings.Count sep s) eqn:E; [|done].
  by rewrite Split_zero_cuts.
Qed.

Lemma Split_cons_sep sep s :
  Strings.Split (String sep s) sep = "" :: Strings.Split s sep.
Proof. unfold Strings.Split. simpl. by rewrite Ascii.eqb_refl. Qed.

Lemma Split_nonempty s sep : Strings.Split s sep <> [].
Proof. unfold Strings.Split. apply genSplit_nonempty. Qed.

(** Cutting at a separator cuts the pieces of both sides. *)
Lemma Split_app_sep sep a b :
  Strings.Split (a +:+ String sep b) sep = Strings.Split a sep ++ Strings.Split b sep.
Proof.
  induction a as [|c a IH].
  - change ("" +:+ String sep b) with (String sep b). by rewrite Split_cons_sep.
  - rewrite str_app_cons. destruct (Ascii.eqb c sep) eqn:Hc.
    + apply Ascii.eqb_eq in Hc as ->. by rewrite !Split_cons_sep, IH.
    + rewrite !Split_cons_other, IH by done.
      apply push_front_app, Split_nonempty.
Qed.

(** X2.  Only the first three dot-separated components of the version go
    into the path: a release whose version has further components is
    stored in the file of the release without them. *)
Theorem release_path_ignores_further_components
  (repoPath : string) (md md' : ReleaseMetadata) (suffix : string) :
  SoftwareName md' = SoftwareName md ->
  Version md' = Version md +:+ "." +:+ suffix ->
  (2 <= Strings.Count "." (Version md))%nat ->
  getReleaseFilePath repoPath md' = getReleaseFilePath repoPath md /\
  exists path, getReleaseFilePath repoPath md = Done path.
Proof.
  intros Hn Hv Hdots. split; [|by apply getReleaseFilePath_two_dots].
  unfold getReleaseFilePath, index. rewrite Hn, Hv.
  change ("." +:+ suffix) with (String "." suffix).
  rewrite Split_app_sep.
  pose proof (Split_length (Version md) ".") as Hlen.
  rewrite !lookup_app_l by lia. done.
Qed.

Lemma release_path_ignores_further_components_witness :
  getReleaseFilePath "/repo" (md0 "acme" "1.2.3.4" 0 "available")
  = getReleaseFilePath "/repo" (md0 "acme" "1.2.3" 0 "available").
Proof.
  apply (release_path_ignores_further_components "/repo"
           (md0 "acme" "1.2.3" 0 "available") (md0 "acme" "1.2.3.4" 0 "available") "4");
    [reflexivity | reflexivity | simpl; lia].
Defined.

Lemma Split_sepfree sep s : Strings.Count sep s = 0%nat -> Strings.Split s sep = [s].
Proof. intros H. unfold Strings.Split. rewrite H. apply Split_zero_cuts. Qed.

Lemma Split_three sep x y z :
  Strings.Count sep x = 0%nat -> Strings.Count sep y = 0%nat ->
  Strings.Count sep z = 0%nat ->
  Strings.Split (x +:+ String sep (y +:+ String sep z)) sep = [x; y; z].
Proof.
  intros Hx Hy Hz. by rewrite !Split_app_sep, !Split_sepfree.
Qed.

Lemma Count_Sprintf_0s sep width s :
  sep <> "0"%char -> Strings.Count sep (Fmt.Sprintf_0s width s) = Strings.Count sep s.
Proof.
  intros Hsep. unfold Fmt.Sprintf_0s, Fmt.pad_left.
  rewrite Count_app, Count_repeat_byte by done. done.
Qed.

Lemma Sprintf_0s_idemp width s :
  Fmt.Sprintf_0s width (Fmt.Sprintf_0s width s) = Fmt.Sprintf_0s width s.
Proof.
  unfold Fmt.Sprintf_0s. apply pad_left_wide. rewrite pad_left_length. lia.
Qed.

(** X3.  The path is built from the padded components, so a version and
    the version with its components written padded ("1.2.3" and
    "01.02.03") are stored in one file, under two keys of the store. *)
Theorem release_path_same_for_padded_version
  (repoPath : string) (md md' : ReleaseMetadata) (x y z : string) :
  SoftwareName md' = SoftwareName md ->
  Strings.Count "." x = 0%nat -> Strings.Count "." y = 0%nat ->
  Strings.Count "." z = 0%nat ->
  Version md = x +:+ "." +:+ y +:+ "." +:+ z ->
  Version md' = Fmt.Sprintf_0s 2 x +:+ "." +:+ Fmt.Sprintf_0s 2 y +:+ "." +:+
                Fmt.Sprintf_0s 2 z ->
  getReleaseFilePath repoPath md' = getReleaseFilePath repoPath md.
Proof.
  intros Hn Hx Hy Hz Hv Hv'.
  unfold getReleaseFilePath, index. rewrite Hn, Hv, Hv'.
  change (?a +:+ "." +:+ ?b +:+ "." +:+ ?c)
    with (a +:+ String "." (b +:+ String "." c)).
  rewrite !Split_three by (rewrite ?Count_Sprintf_0s; done).
  simpl. by rewrite !Sprintf_0s_idemp.
Qed.

Lemma release_path_same_for_padded_version_witness :
  getReleaseFilePath "/repo" (md0 "acme" "01.02.03" 0 "available")
  = getReleaseFilePath "/repo" (md0 "acme" "1.2.3" 0 "available").
Proof.
  apply (release_path_same_for_padded_version "/repo"
           (md0 "acme" "1.2.3" 0 "available") (md0 "acme" "01.02.03" 0 "available")
           "1" "2" "3"); reflexivity.
Defined.

(** ** File names *)

Lemma sanitizeFilename_cons c s :
  sanitizeFilename (String c s) = String (sanitize_byte c) (sanitizeFilename s).
Proof. reflexivity. Qed.

Lemma sanitize_byte_idemp c : sanitize_byte (sanitize_byte c) = sanitize_byte c.
Proof. destruct c as [[] [] [] [] [] [] [] []]; reflexivity. Qed.

Lemma sanitize_byte_shape c :
  Ascii.eqb (sanitize_byte c) " " = false /\
  ((65 <=? nat_of_ascii (sanitize_byte c)) && (nat_of_ascii (sanitize_byte c) <=? 90))%nat
    = false.
Proof. destruct c as [[] [] [] [] [] [] [] []]; split; reflexivity. Qed.

Lemma sanitize_byte_other c :
  Ascii.eqb c " " = false ->
  ((65 <=? nat_of_ascii c) && (nat_of_ascii c <=? 90))%nat = false ->
  sanitize_byte c = c.
Proof.
  destruct c as [[] [] [] [] [] [] [] []]; intros H1 H2; try reflexivity;
    (discriminate H1 || discriminate H2).
Qed.

Lemma sanitizeFilename_bytes (name : string) :
  sanitizeFilename (sanitizeFilename name) = sanitizeFilename name /\
  String.length (sanitizeFilename name) = String.length name /\
  (forall i c, String.get i (sanitizeFilename name) = Some c ->
     c <> " "%char /\ ~ (65 <= nat_of_ascii c <= 90)%nat) /\
  (forall i c, String.get i name = Some c ->
     c <> " "%char -> ~ (65 <= nat_of_ascii c <= 90)%nat ->
     String.get i (sanitizeFilename name) = Some c).
Proof.
  induction name as [|c name (IH1 & IH2 & IH3 & IH4)]; [repeat split; done|].
  rewrite !sanitizeFilename_cons.
  split; [by rewrite sanitize_byte_idemp, IH1|].
  split; [simpl; by rewrite IH2|].
  split.
  - intros i c0. destruct i as [|i]; simpl; [intros [= <-]|apply IH3].
    destruct (sanitize_byte_shape c) as [H1 H2]. split.
    + by apply Ascii.eqb_neq.
    + intros [Ha Hb]. apply andb_false_iff in H2 as [H|H];
        apply Nat.leb_gt in H; lia.
  - intros i c0. destruct i as [|i]; simpl; [|apply IH4].
    intros [= <-] Hsp Hup. f_equal. apply sanitize_byte_other.
    + by apply Ascii.eqb_neq.
    + apply andb_false_iff.
      destruct (65 <=? nat_of_ascii c)%nat eqn:E1; [right|by left].
      apply Nat.leb_le in E1. apply Nat.leb_gt. lia.
Qed.

Lemma sanitize_byte_ascii c :
  (nat_of_ascii c <? 128)%nat = true -> (nat_of_ascii (sanitize_byte c) <? 128)%nat = true.
Proof.
  destruct c as [[] [] [] [] [] [] [] []]; intros H; try reflexivity; discriminate H.
Qed.

Lemma sanitizeFilename_ascii name :
  is_ascii name = true -> is_ascii (sanitizeFilename name) = true.
Proof.
  induction name as [|c name IH]; [done|].
  rewrite sanitizeFilename_cons. simpl.
  intros [Hc Hname]%andb_true_iff.
  apply andb_true_iff. split; [by apply sanitize_byte_ascii | by apply IH].
Qed.

(** X4.  On an ASCII name, [sanitizeFilename] works byte by byte: the
    result is ASCII, has the length of the name, no space and no
    upper-case letter, and sanitizing it again changes nothing.  Every
    other byte stays where it is, the path separator and the dot among
    them. *)
Theorem sanitizeFilename_shape (name : string) :
  is_ascii name = true ->
  is_ascii (sanitizeFilename name) = true /\
  sanitizeFilename (sanitizeFilename name) = sanitizeFilename name /\
  String.length (sanitizeFilename name) = String.length name /\
  (forall i c, String.get i (sanitizeFilename name) = Some c ->
     c <> " "%char /\ ~ (65 <= nat_of_ascii c <= 90)%nat) /\
  (forall i c, String.get i name = Some c ->
     c <> " "%char -> ~ (65 <= nat_of_ascii c <= 90)%nat ->
     String.get i (sanitizeFilename name) = Some c).
Proof.
  intros Hascii. split; [by apply sanitizeFilename_ascii|].
  apply sanitizeFilename_bytes.
Qed.

Lemma sanitizeFilename_shape_witness :
  is_ascii (sanitizeFilename "Acme Tool/1.x") = true /\
  sanitizeFilename (sanitizeFilename "Acme Tool/1.x") = sanitizeFilename "Acme Tool/1.x".
Proof.
  destruct (sanitizeFilename_shape "Acme Tool/1.x" eq_refl) as (H1 & H2 & _).
  exact (conj H1 H2).
Defined.

(** ** Sorting: the result is the slice, in order *)

Lemma StronglySorted_snoc {A} (R : A -> A -> Prop) l x :
  StronglySorted R l -> Forall (fun y => R y x) l -> StronglySorted R (l ++ [x]).
Proof.
  induction l as [|y l IH]; simpl; intros Hs Hx.
  - constructor; [constructor | constructor].
  - apply StronglySorted_inv in Hs as [Hs Hy].
    apply Forall_cons in Hx as [Hyx Hx].
    constructor; [by apply IH|].
    apply Forall_app. split; [done | by constructor].
Qed.

Lemma StronglySorted_reverse {A} (R : A -> A -> Prop) l :
  StronglySorted R l -> StronglySorted (fun x y => R y x) (reverse l).
Proof.
  induction 1 as [|x l Hs IH Hx]; [constructor|].
  rewrite reverse_cons. apply StronglySorted_snoc; [done|].
  apply Forall_forall. intros y Hy. rewrite elem_of_reverse in Hy.
  by eapply Forall_forall in Hx.
Qed.

Section sorting_perm.
Context {A : Type} (less : A -> A -> bool).

Lemma sift_perm x sorted : sift less x sorted ≡ₚ x :: sorted.
Proof.
  induction sorted as [|y sorted IH]; simpl; [done|].
  destruct (less x y); [|done]. rewrite IH. apply perm_swap.
Qed.

Lemma fold_sift_perm l acc :
  fold_left (fun sorted x => sift less x sorted) l acc ≡ₚ l ++ acc.
Proof.
  revert acc. induction l as [|x l IH]; intros acc; simpl; [done|].
  rewrite IH, sift_perm. by rewrite Permutation_middle.
Qed.

Lemma sort_Slice_perm l : sort_Slice less l ≡ₚ l.
Proof.
  unfold sort_Slice. rewrite reverse_Permutation, fold_sift_perm.
  by rewrite app_nil_r.
Qed.

Hypothesis less_asym : forall x y, less x y = true -> less y x = false.
Hypothesis less_negtrans :
  forall x y z, less x y = false -> less y z = false -> less x z = false.

(** No element of the sorted slice is [less] than one before it. *)
Lemma sort_Slice_sorted l :
  StronglySorted (fun x y => less y x = false) (sort_Slice less l).
Proof.
  unfold sort_Slice.
  apply (StronglySorted_reverse (fun x y => less x y = false)).
  apply fold_sift_sorted; [done | done | constructor].
Qed.

End sorting_perm.

(** ** Ranging over a map: every entry once *)

Lemma arrange_perm order keys : NoDup keys -> arrange order keys ≡ₚ keys.
Proof.
  intros Hnd. apply NoDup_Permutation; [|done|apply arrange_elem].
  unfold arrange. apply NoDup_app. split; [|split].
  - apply NoDup_filter, NoDup_remove_dups.
  - intros k [_ Hk]%list_elem_of_filter [Hk' _]%list_elem_of_filter.
    apply Hk'. by rewrite elem_of_remove_dups in Hk.
  - by apply NoDup_filter.
Qed.

Lemma omap_lookup_keys {V} (m : gmap string V) (l : list (string * V)) :
  (forall k v, (k, v) ∈ l -> m !! k = Some v) ->
  omap (fun k => pair k <$> m !! k) (l.*1) = l.
Proof.
  induction l as [|[k v] l IH]; intros H; simpl; [done|].
  rewrite (H k v) by (by left). simpl. f_equal.
  apply IH. intros k' v' Hin. apply H. by right.
Qed.

Lemma range_map_perm {V} (m : gmap string V) (w : World) :
  exists kvs,
    range_map m w = (Done kvs, with_tape (tail (tape w)) w) /\
    kvs ≡ₚ map_to_list m.
Proof.
  eexists. split; [reflexivity|].
  rewrite arrange_perm by apply NoDup_fst_map_to_list.
  apply reflexive_eq, omap_lookup_keys.
  intros k v. apply elem_of_map_to_list.
Qed.

Lemma ListReleasesMetadataForSoftware_perm softwareName w softwareReleases :
  mu w = free_mu ->
  releases w !! softwareName = Some softwareReleases ->
  exists l,
    ListReleasesMetadataForSoftware softwareName w
      = (Done (inl l), with_tape (tail (tape w)) w) /\
    l ≡ₚ (map_to_list softwareReleases).*2.
Proof.
  intros Hmu Hsr.
  destruct (range_map_perm softwareReleases
              (with_mu (mkRWMutex false (S (readers (mu w)))) w)) as (kvs & Hr & Hp).
  exists (kvs.*2). split; [|by rewrite Hp].
  unfold ListReleasesMetadataForSoftware, mu_RLock, mu_RUnlock. go_step.
  rewrite Hmu. cbn -[range_map]. rewrite Hsr.
  rewrite Hmu in Hr. cbn -[range_map] in Hr. rewrite Hr. cbn.
  f_equal. destruct w. simpl in *. by subst.
Qed.

Lemma ListReleasesMetadataForSoftware_unknown softwareName w :
  mu w = free_mu ->
  releases w !! softwareName = None ->
  ListReleasesMetadataForSoftware softwareName w
    = (Done (inr (Errorf "software package not found: %s" [softwareName])), w).
Proof.
  intros Hmu Hsr.
  unfold ListReleasesMetadataForSoftware, mu_RLock, mu_RUnlock. go_step.
  rewrite Hmu. cbn. rewrite Hsr. cbn. f_equal.
  destruct w. simpl in *. by subst.
Qed.

Lemma Time_After_asym t u : Time_After t u = true -> Time_After u t = false.
Proof. unfold Time_After. ltb_cases; (done || lia). Qed.

Lemma Time_After_negtrans t u v :
  Time_After t u = false -> Time_After u v = false -> Time_After t v = false.
Proof. unfold Time_After. ltb_cases; (done || lia). Qed.

Lemma list_less_asym w sortField sortOrder p q :
  list_less w sortField sortOrder p q = true ->
  list_less w sortField sortOrder q p = false.
Proof.
  unfold list_less.
  destruct (String.eqb sortField "version"), (String.eqb sortField "date"),
    (String.eqb sortOrder "desc");
    first [apply GreaterThan_asym | apply Time_After_asym].
Qed.

Lemma list_less_negtrans w sortField sortOrder p q r :
  list_less w sortField sortOrder p q = false ->
  list_less w sortField sortOrder q r = false ->
  list_less w sortField sortOrder p r = false.
Proof.
  unfold list_less.
  destruct (String.eqb sortField "version"), (String.eqb sortField "date"),
    (String.eqb sortOrder "desc");
    first [apply GreaterThan_negtrans | apply Time_After_negtrans
          | intros; by eapply GreaterThan_negtrans
          | intros; by eapply Time_After_negtrans ].
Qed.

(** X5.  With the mutex free, [ListReleasesForSoftware] returns every
    release of the software once, whatever the sort asked for, and in the
    order of the comparison: no release of the result is [less] than one
    listed before it.  The store is left as it was.  For a name the store
    does not hold, the result is the wrapped not-found error. *)
Theorem list_releases_is_sorted_permutation
  (w : World) (softwareName sortField sortOrder : string) :
  mu w = free_mu ->
  (forall softwareReleases,
     releases w !! softwareName = Some softwareReleases ->
     exists l,
       ListReleasesForSoftware softwareName sortField sortOrder w
         = (Done (inl l), with_tape (tail (tape w)) w) /\
       l ≡ₚ (map_to_list softwareReleases).*2 /\
       StronglySorted (fun p q => list_less w sortField sortOrder q p = false) l) /\
  (releases w !! softwareName = None ->
   ListReleasesForSoftware softwareName sortField sortOrder w
     = (Done (inr (Wrapf "failed to list releases for software %s: %w" [softwareName]
                     (Errorf "software package not found: %s" [softwareName]))), w)).
Proof.
  intros Hmu. split.
  - intros softwareReleases Hsr.
    destruct (ListReleasesMetadataForSoftware_perm _ _ _ Hmu Hsr) as (l & Hl & Hp).
    exists (sort_Slice (list_less w sortField sortOrder) l). split; [|split].
    + unfold ListReleasesForSoftware. go_step. by rewrite Hl.
    + by rewrite sort_Slice_perm.
    + apply sort_Slice_sorted.
      * apply list_less_asym.
      * apply list_less_negtrans.
  - intros Hsr. unfold ListReleasesForSoftware. go_step.
    by rewrite ListReleasesMetadataForSoftware_unknown.
Qed.

Lemma list_releases_is_sorted_permutation_witness :
  exists l,
    ListReleasesForSoftware "acme" "date" "asc" world_two
      = (Done (inl l), with_tape (tail (tape world_two)) world_two) /\
    l ≡ₚ (map_to_list ({[ "1.0.0" := 1%positive; "2.0.0" := 2%positive ]}
                        : gmap string loc)).*2 /\
    StronglySorted (fun p q => list_less world_two "date" "asc" q p = false) l.
Proof.
  apply (proj1 (list_releases_is_sorted_permutation world_two "acme" "date" "asc"
                  eq_refl)).
  reflexivity.
Defined.

(** X6.  With the mutex free, [GetLatestReleaseForSoftware] returns a
    release of the software that no release of the software is greater
    than.  A name the store does not hold gives the wrapped not-found
    error, and a name held with no release the no-releases error. *)
Theorem latest_release_is_maximal (w : World) (softwareName : string) :
  mu w = free_mu ->
  (releases w !! softwareName = None ->
   GetLatestReleaseForSoftware softwareName w
     = (Done (inr (Wrapf "failed to get releases for software %s to find latest: %w"
                     [softwareName]
                     (Errorf "software package not found: %s" [softwareName]))), w)) /\
  (releases w !! softwareName = Some ∅ ->
   fst (GetLatestReleaseForSoftware softwareName w)
     = Done (inr (Errorf "no releases found for software: %s" [softwareName]))) /\
  (forall softwareReleases,
     releases w !! softwareName = Some softwareReleases ->
     softwareReleases <> ∅ ->
     exists first version,
       GetLatestReleaseForSoftware softwareName w
         = (Done (inl first), with_tape (tail (tape w)) w) /\
       softwareReleases !! version = Some first /\
       forall version' q,
         softwareReleases !! version' = Some q ->
         GreaterThan (version_at w q) (version_at w first) = false).
Proof.
  intros Hmu. split; [|split].
  - intros Hsr. unfold GetLatestReleaseForSoftware. go_step.
    by rewrite ListReleasesMetadataForSoftware_unknown.
  - intros Hsr.
    destruct (ListReleasesMetadataForSoftware_perm _ _ _ Hmu Hsr) as (l & Hl & Hp).
    rewrite map_to_list_empty in Hp. apply Permutation_nil_r in Hp. subst l.
    unfold GetLatestReleaseForSoftware. go_step. by rewrite Hl.
  - intros softwareReleases Hsr Hne.
    destruct (ListReleasesMetadataForSoftware_spec _ _ _ Hmu Hsr) as (l & Hl & Hin).
    destruct (map_choose _ Hne) as (v0 & p0 & Hp0).
    assert (Hp0l : p0 ∈ l) by (apply Hin; eauto).
    destruct (sort_Slice_nonempty (latest_less w) l p0 Hp0l) as (first & t & Hsort).
    destruct (sort_Slice_head (latest_less w) (latest_less_asym w) (latest_less_negtrans w)
                l first t Hsort) as [Hfirst Hmax].
    apply Hin in Hfirst as [version Hversion].
    exists first, version. split; [|split; [done|]].
    + unfold GetLatestReleaseForSoftware. go_step. rewrite Hl.
      destruct l as [|x l]; [by apply elem_of_nil in Hp0l|].
      cbn -[sort_Slice].
      replace (latest_less (with_tape (tail (tape w)) w)) with (latest_less w)
        by (symmetry; by apply latest_less_heap).
      by rewrite Hsort.
    + intros version' q Hq. apply (Hmax q). apply Hin. eauto.
Qed.

Lemma latest_release_is_maximal_witness :
  exists first version,
    GetLatestReleaseForSoftware "acme" world_two
      = (Done (inl first), with_tape (tail (tape world_two)) world_two) /\
    ({[ "1.0.0" := 1%positive; "2.0.0" := 2%positive ]} : gmap string loc) !! version
      = Some first /\
    forall version' q,
      ({[ "1.0.0" := 1%positive; "2.0.0" := 2%positive ]} : gmap string loc) !! version'
        = Some q ->
      GreaterThan (version_at world_two q) (version_at world_two first) = false.
Proof.
  apply (proj2 (proj2 (latest_release_is_maximal world_two "acme" eq_refl))).
  - reflexivity.
  - intros H. apply (f_equal (fun m : gmap string loc => m !! "1.0.0")) in H.
    vm_compute in H. discriminate H.
Defined.

(** ** Listing the whole store *)

Lemma filed_by_key_spec w :
  filed_by_key w = true <->
  forall n sr v p,
    releases w !! n = Some sr -> sr !! v = Some p ->
    exists md, heap w !! p = Some md /\ SoftwareName md = n /\ Version md = v.
Proof.
  unfold filed_by_key. rewrite forallb_forall. split.
  - intros H n sr v p Hn Hv.
    specialize (H (n, sr)). rewrite forallb_forall in H.
    assert (Hin : In (n, sr) (map_to_list (releases w)))
      by (by apply list_elem_of_In, elem_of_map_to_list).
    specialize (H Hin (v, p)). simpl in H.
    assert (Hin' : In (v, p) (map_to_list sr))
      by (by apply list_elem_of_In, elem_of_map_to_list).
    specialize (H Hin'). destruct (heap w !! p) as [md|]; [|done].
    apply andb_true_iff in H as [H1%String.eqb_eq H2%String.eqb_eq]. eauto.
  - intros H [n sr] Hin%list_elem_of_In%elem_of_map_to_list.
    apply forallb_forall. intros [v p] Hin'%list_elem_of_In%elem_of_map_to_list.
    simpl. destruct (H n sr v p Hin Hin') as (md & -> & <- & <-).
    by rewrite !String.eqb_refl.
Qed.

Lemma flatten_perm outer u :
  exists ps t,
    flatten outer u = (Done ps, with_tape t u) /\
    ps ≡ₚ outer ≫= fun nsr => (map_to_list nsr.2).*2.
Proof.
  revert u. induction outer as [|[n sr] outer IH]; intros u.
  - exists [], (tape u). split; [by destruct u | done].
  - destruct (range_map_perm sr u) as (kvs & Hr & Hkvs).
    destruct (IH (with_tape (tail (tape u)) u)) as (ps & t & Hf & Hps).
    exists (kvs.*2 ++ ps), t. split.
    + simpl. go_step. rewrite Hr, Hf. done.
    + rewrite bind_cons. simpl. by rewrite Hkvs, Hps.
Qed.

Lemma all_pointers_perm u :
  exists ps t,
    all_pointers u = (Done ps, with_tape t u) /\ ps ≡ₚ held_pointers u.
Proof.
  destruct (range_map_perm (releases u) u) as (outer & Hr & Houter).
  destruct (flatten_perm outer (with_tape (tail (tape u)) u)) as (ps & t & Hf & Hps).
  exists ps, t. split.
  - unfold all_pointers. go_step. rewrite Hr, Hf. done.
  - unfold held_pointers. by rewrite Hps, Houter.
Qed.

Lemma held_pointers_elem u p : p ∈ held_pointers u <-> held u p.
Proof.
  unfold held_pointers, held. rewrite list_elem_of_bind. split.
  - intros ([n sr] & Hp & Hin). simpl in Hp.
    apply list_elem_of_fmap in Hp as ([v q] & -> & Hq).
    exists n, sr, v. split; by apply elem_of_map_to_list.
  - intros (n & sr & v & Hn & Hv). exists (n, sr). split.
    + simpl. apply list_elem_of_fmap. exists (v, p).
      split; [done | by apply elem_of_map_to_list].
    + by apply elem_of_map_to_list.
Qed.

Lemma ListAll_perm u :
  writer (mu u) = false ->
  exists ps t,
    ListAllReleasesMetadata u = (Done (inl ps), with_tape t u) /\
    ps ≡ₚ held_pointers u.
Proof.
  intros Hw.
  destruct (all_pointers_perm (with_mu (mkRWMutex false (S (readers (mu u)))) u))
    as (ps & t & Ha & Hps).
  exists ps, t. split; [|exact Hps].
  unfold ListAllReleasesMetadata, mu_RLock, mu_RUnlock. go_step.
  rewrite Hw, Ha. cbn. f_equal.
  destruct u as [? ? ? [? ?] ? ? ? ? ? ?]. simpl in *. by subst.
Qed.

(** X7.  [ListAllReleasesMetadata] never returns an error.  While no
    writer holds the mutex it returns every pointer of the store once and
    changes nothing but the order of the coming ranges; while a writer
    holds it, it waits. *)
Theorem list_all_is_the_store (w : World) :
  (forall e w', ListAllReleasesMetadata w <> (Done (inr e), w')) /\
  (writer (mu w) = false ->
   exists ps t,
     ListAllReleasesMetadata w = (Done (inl ps), with_tape t w) /\
     ps ≡ₚ held_pointers w /\
     (forall p, p ∈ ps <-> held w p)) /\
  (writer (mu w) = true -> ListAllReleasesMetadata w = (Blocked, w)).
Proof.
  split; [|split].
  - intros e w' H. destruct (writer (mu w)) eqn:Hw.
    + by rewrite ListAll_blocked in H.
    + destruct (ListAll_perm w Hw) as (ps & t & Hl & _). by rewrite Hl in H.
  - intros Hw. destruct (ListAll_perm w Hw) as (ps & t & Hl & Hps).
    exists ps, t. split; [done|]. split; [done|].
    intros p. by rewrite Hps, held_pointers_elem.
  - apply ListAll_blocked.
Qed.

(** ** Counting *)

Lemma held_pointers_length u :
  length (held_pointers u)
  = sum_list ((fun nsr : string * gmap string loc => size nsr.2)
                <$> map_to_list (releases u)).
Proof.
  unfold held_pointers. induction (map_to_list (releases u)) as [|[n sr] l IH]; [done|].
  rewrite bind_cons, length_app, IH. simpl.
  by rewrite length_fmap, length_map_to_list.
Qed.

Lemma mark_packages_spec ps (m : gmap string bool) u :
  (forall p, p ∈ ps -> is_Some (heap u !! p)) ->
  exists m',
    mark_packages ps m u = (Done m', u) /\
    forall n, is_Some (m' !! n) <->
      is_Some (m !! n) \/
      exists p md, p ∈ ps /\ heap u !! p = Some md /\ SoftwareName md = n.
Proof.
  revert m. induction ps as [|p ps IH]; intros m Hlive.
  - exists m. split; [done|]. intros n. split; [by left|].
    intros [H|(p & md & Hp%elem_of_nil & _)]; done.
  - destruct (Hlive p) as [md Hmd]; [by left|].
    destruct (IH (<[SoftwareName md := true]> m)) as (m' & Hrun & Hm').
    { intros q Hq. apply Hlive. by right. }
    exists m'. split.
    + simpl. go_step. rewrite Hmd. exact Hrun.
    + intros n. rewrite Hm'. rewrite lookup_insert_is_Some. split.
      * intros [[<-|[_ H]]|(q & md' & Hq & Hmd' & Hn)].
        -- right. exists p, md. split; [by left | done].
        -- by left.
        -- right. exists q, md'. split; [by right | done].
      * intros [H|(q & md' & Hq & Hmd' & Hn)].
        -- left. destruct (decide (SoftwareName md = n)); [by left | right; done].
        -- apply elem_of_cons in Hq as [->|Hq].
           ++ left. left. congruence.
           ++ right. eauto.
Qed.

(** X8.  While no writer holds the mutex, [GetTotalReleases] is the number
    of releases of the store, and, in a store whose records are filed
    under their own name and version, [GetTotalSoftwarePackages] is the
    number of software names that have a release. *)
Theorem totals_count_the_store (w : World) :
  writer (mu w) = false ->
  fst (GetTotalReleases w)
    = Done (Z.of_nat (sum_list ((fun nsr : string * gmap string loc => size nsr.2)
                                  <$> map_to_list (releases w)))) /\
  (filed_by_key w = true ->
   fst (GetTotalSoftwarePackages w) = Done (Z.of_nat (size (with_release w))) /\
   (no_empty_software w ->
    fst (GetTotalSoftwarePackages w) = Done (Z.of_nat (size (releases w))))).
Proof.
  intros Hw. destruct (ListAll_perm w Hw) as (ps & t & Hl & Hps). split.
  - unfold GetTotalReleases. go_step. rewrite Hl. cbn.
    by rewrite Hps, held_pointers_length.
  - intros Hfiled. pose proof (proj1 (filed_by_key_spec w) Hfiled) as Hkey.
    destruct (mark_packages_spec ps ∅ (with_tape t w)) as (m' & Hrun & Hm').
    { intros p Hp. rewrite Hps in Hp. apply held_pointers_elem in Hp.
      destruct Hp as (n & sr & v & Hn & Hv).
      destruct (Hkey n sr v p Hn Hv) as (md & Hmd & _). by exists md. }
    assert (Hsize : size m' = size (with_release w)).
    { rewrite <- !(size_dom (D := gset string)). f_equal. apply set_eq. intros n.
      rewrite !elem_of_dom, Hm'. unfold with_release.
      rewrite lookup_empty. split.
      - intros [[? [=]]|(p & md & Hp & Hmd & Hname)].
        rewrite Hps in Hp. apply held_pointers_elem in Hp.
        destruct Hp as (n' & sr & v & Hn & Hv).
        destruct (Hkey n' sr v p Hn Hv) as (md' & Hmd' & Hn' & _).
        simpl in Hmd. rewrite Hmd' in Hmd. injection Hmd as ->. subst n'.
        rewrite Hname in Hn.
        exists sr. apply map_lookup_filter_Some. split; [done|].
        simpl. intros ->. by rewrite lookup_empty in Hv.
      - intros [sr [Hn Hne]%map_lookup_filter_Some]. simpl in Hne.
        destruct (map_choose _ Hne) as (v & p & Hv).
        destruct (Hkey n sr v p Hn Hv) as (md & Hmd & Hname & _).
        right. exists p, md. split; [|done].
        rewrite Hps. apply held_pointers_elem. exists n, sr, v. done. }
    assert (Hcount : fst (GetTotalSoftwarePackages w)
                     = Done (Z.of_nat (size (with_release w)))).
    { unfold GetTotalSoftwarePackages. go_step. rewrite Hl. cbn -[mark_packages].
      rewrite Hrun. cbn. by rewrite Hsize. }
    split; [done|]. intros Hne. rewrite Hcount. do 2 f_equal.
    unfold with_release. f_equal. apply map_filter_id.
    intros n sr Hn. simpl. by apply (Hne n).
Qed.

Lemma totals_count_the_store_witness :
  fst (GetTotalReleases world_denied_both)
    = Done (Z.of_nat (sum_list ((fun nsr : string * gmap string loc => size nsr.2)
                                  <$> map_to_list (releases world_denied_both)))) /\
  fst (GetTotalSoftwarePackages world_denied_both)
    = Done (Z.of_nat (size (with_release world_denied_both))).
Proof.
  assert (Hfiled : filed_by_key world_denied_both = true) by (vm_compute; reflexivity).
  destruct (totals_count_the_store world_denied_both eq_refl) as [H1 H2].
  split; [exact H1|]. exact (proj1 (H2 Hfiled)).
Defined.

(** ** The overview of software packages *)

Lemma string_lt_le x y : string_lt x y = false <-> String.le y x.
Proof.
  unfold string_lt, String.le, String.leb. rewrite (String.compare_antisym y x).
  destruct (String.compare x y); simpl; split; done.
Qed.

Lemma string_lt_asym x y : string_lt x y = true -> string_lt y x = false.
Proof.
  unfold string_lt. rewrite (String.compare_antisym y x).
  by destruct (String.compare x y).
Qed.

Lemma string_lt_negtrans x y z :
  string_lt x y = false -> string_lt y z = false -> string_lt x z = false.
Proof.
  rewrite !string_lt_le. intros Hyx Hzy.
  by transitivity y.
Qed.

Lemma string_lt_total x y : x <> y -> string_lt y x = false -> string_lt x y = true.
Proof.
  unfold string_lt. rewrite (String.compare_antisym y x).
  destruct (String.compare x y) eqn:E; simpl; try done.
  intros H. by apply String.compare_eq_iff in E.
Qed.

Lemma GreaterThan_irrefl v : GreaterThan v v = false.
Proof. unfold GreaterThan. ltb_cases; (done || lia). Qed.

Lemma GreaterThan_trans x y z :
  GreaterThan x y = true -> GreaterThan y z = true -> GreaterThan x z = true.
Proof. unfold GreaterThan. ltb_cases; (done || lia). Qed.

Lemma collect_packages_spec ps visited packageMap u :
  (forall p, p ∈ ps -> is_Some (heap u !! p)) ->
  overview_of u visited packageMap ->
  exists packageMap',
    collect_packages ps packageMap u = (Done packageMap', u) /\
    overview_of u (visited ++ ps) packageMap'.
Proof.
  revert visited packageMap. induction ps as [|p ps IH]; intros visited m Hlive Hinv.
  { exists m. split; [done | by rewrite app_nil_r]. }
  destruct (Hlive p) as [md Hmd]; [by left|].
  assert (Hlive' : forall q, q ∈ ps -> is_Some (heap u !! q))
    by (intros q Hq; apply Hlive; by right).
  destruct Hinv as [Ha Hb].
  assert (Hstep : exists m1,
    collect_packages (p :: ps) m u = collect_packages ps m1 u /\
    overview_of u (visited ++ [p]) m1).
  { simpl. go_step. rewrite Hmd.
    destruct (m !! SoftwareName md) as [e|] eqn:He.
    - destruct (GreaterThan _ _) eqn:Hgt.
      + eexists. split; [reflexivity|]. split.
        * intros k e' Hk. apply lookup_insert_Some in Hk as [[<- <-]|[Hne Hk]].
          -- simpl. split; [by apply Ha in He as [? _]|].
             exists p, md. split; [apply elem_of_app; right; by left | done].
          -- destruct (Ha k e' Hk) as (Hn & q & mdq & Hq & Hrest).
             split; [done|]. exists q, mdq. split; [apply elem_of_app; by left | done].
        * intros q mdq Hq Hmdq. apply elem_of_app in Hq as [Hq|Hq].
          -- destruct (Hb q mdq Hq Hmdq) as (e' & He' & Hle).
             destruct (decide (SoftwareName md = SoftwareName mdq)) as [Heq|Hne].
             ++ rewrite <- Heq. rewrite lookup_insert_eq. eexists. split; [done|]. simpl.
                rewrite <- Heq, He in He'. injection He' as <-.
                destruct (GreaterThan (parseVersion (Version mdq)).1
                            (parseVersion (Version md)).1) eqn:Hq'; [|done].
                by rewrite (GreaterThan_trans _ _ _ Hq' Hgt) in Hle.
             ++ rewrite lookup_insert_ne by done. eauto.
          -- apply list_elem_of_singleton in Hq as ->.
             rewrite Hmd in Hmdq. injection Hmdq as <-.
             rewrite lookup_insert_eq. eexists. split; [done|]. simpl.
             apply GreaterThan_irrefl.
      + exists m. split; [reflexivity|]. split.
        * intros k e' Hk. destruct (Ha k e' Hk) as (Hn & q & mdq & Hq & Hrest).
          split; [done|]. exists q, mdq. split; [apply elem_of_app; by left | done].
        * intros q mdq Hq Hmdq. apply elem_of_app in Hq as [Hq|Hq]; [by eapply Hb|].
          apply list_elem_of_singleton in Hq as ->.
          rewrite Hmd in Hmdq. injection Hmdq as <-. eauto.
    - eexists. split; [reflexivity|]. split.
      + intros k e' Hk. apply lookup_insert_Some in Hk as [[<- <-]|[Hne Hk]].
        * simpl. split; [done|].
          exists p, md. split; [apply elem_of_app; right; by left | done].
        * destruct (Ha k e' Hk) as (Hn & q & mdq & Hq & Hrest).
          split; [done|]. exists q, mdq. split; [apply elem_of_app; by left | done].
      + intros q mdq Hq Hmdq. apply elem_of_app in Hq as [Hq|Hq].
        * destruct (Hb q mdq Hq Hmdq) as (e' & He' & Hle).
          destruct (decide (SoftwareName md = SoftwareName mdq)) as [Heq|Hne].
          -- rewrite <- Heq, He in He'. done.
          -- rewrite lookup_insert_ne by done. eauto.
        * apply list_elem_of_singleton in Hq as ->.
          rewrite Hmd in Hmdq. injection Hmdq as <-.
          rewrite lookup_insert_eq. eexists. split; [done|]. simpl.
          apply GreaterThan_irrefl. }
  destruct Hstep as (m1 & Heq & Hinv1).
  destruct (IH (visited ++ [p]) m1 Hlive' Hinv1) as (m' & Hrun & Hinv').
  exists m'. split; [by rewrite Heq|].
  by rewrite <- app_assoc in Hinv'.
Qed.

(** X9.  While no writer holds the mutex, [ListSoftwarePackages] returns
    one entry for each software name that has a release, in strictly
    ascending order of the names.  The entry carries the version and the
    date of one release of that name, and no release of the name has a
    greater version. *)
Theorem software_packages_overview (w : World) :
  writer (mu w) = false ->
  (forall p, held w p -> is_Some (heap w !! p)) ->
  exists l t,
    ListSoftwarePackages w = (Done (inl l), with_tape t w) /\
    StronglySorted (fun a b => string_lt (Name a) (Name b) = true) l /\
    (forall n, (exists e, e ∈ l /\ Name e = n) <->
               (exists p md, held w p /\ heap w !! p = Some md /\ SoftwareName md = n)) /\
    (forall e, e ∈ l ->
       (exists p md, held w p /\ heap w !! p = Some md /\ SoftwareName md = Name e /\
          Version md = LatestVersion e /\ ReleaseDate md = LatestReleaseDate e) /\
       (forall q md', held w q -> heap w !! q = Some md' -> SoftwareName md' = Name e ->
          GreaterThan (fst (parseVersion (Version md')))
                      (fst (parseVersion (LatestVersion e))) = false)).
Proof.
  intros Hw Hlive.
  destruct (ListAll_spec w Hw) as (ps & t & Hl & Hps).
  destruct (collect_packages_spec ps [] ∅ (with_tape t w)) as (m & Hrun & Ha & Hb).
  { intros p Hp. apply Hlive. by apply Hps. }
  { split; [intros k e Hk; by rewrite lookup_empty in Hk|].
    intros p md Hp. by apply elem_of_nil in Hp. }
  simpl in Ha, Hb.
  destruct (range_map_perm m (with_tape t w)) as (kvs & Hr & Hkvs).
  set (less := fun a b : SoftwarePackageInfo => string_lt (Name a) (Name b)).
  exists (sort_Slice less (kvs.*2)), (tail t).
  assert (Hin : forall e, e ∈ sort_Slice less (kvs.*2) <-> m !! Name e = Some e).
  { intros e. rewrite sort_Slice_perm, Hkvs, list_elem_of_fmap. split.
    - intros ([k e'] & -> & Hk%elem_of_map_to_list). simpl.
      by destruct (Ha k e' Hk) as [-> _].
    - intros He. exists (Name e, e). split; [done | by apply elem_of_map_to_list]. }
  split; [|split; [|split]].
  - unfold ListSoftwarePackages. go_step. rewrite Hl. cbn -[collect_packages range_map].
    rewrite Hrun. cbn -[range_map]. rewrite Hr. cbn. done.
  - assert (Hnd : NoDup (Name <$> sort_Slice less (kvs.*2))).
    { rewrite sort_Slice_perm, Hkvs.
      replace (Name <$> (map_to_list m).*2) with ((map_to_list m).*1).
      - apply NoDup_fst_map_to_list.
      - rewrite <- list_fmap_compose. apply list_fmap_ext.
        intros i [k e] Hi. simpl.
        apply list_elem_of_lookup_2, elem_of_map_to_list in Hi.
        by destruct (Ha k e Hi) as [-> _]. }
    pose proof (sort_Slice_sorted less
                  (fun x y => string_lt_asym (Name x) (Name y))
                  (fun x y z => string_lt_negtrans (Name x) (Name y) (Name z))
                  (kvs.*2)) as Hs.
    revert Hs Hnd. generalize (sort_Slice less (kvs.*2)). intros l Hs.
    induction Hs as [|a l Hs IH Hfa]; intros Hnd; [constructor|].
    rewrite fmap_cons in Hnd. apply NoDup_cons in Hnd as [Hnotin Hnd].
    constructor; [by apply IH|].
    apply Forall_forall. intros b Hb'.
    apply string_lt_total.
    + intros Heq. apply Hnotin. rewrite Heq. apply list_elem_of_fmap. eauto.
    + eapply Forall_forall in Hfa; [exact Hfa | done].
  - intros n. split.
    + intros (e & He & <-). apply Hin in He.
      destruct (Ha _ _ He) as (_ & p & md & Hp & Hmd & Hn & _).
      exists p, md. split; [by apply Hps | done].
    + intros (p & md & Hp & Hmd & <-).
      destruct (Hb p md) as (e & He & _); [by apply Hps | done |].
      exists e. destruct (Ha _ _ He) as [Hn _].
      split; [apply Hin; by rewrite Hn | done].
  - intros e He. apply Hin in He. split.
    + destruct (Ha _ _ He) as (_ & p & md & Hp & Hmd & Hrest).
      exists p, md. split; [by apply Hps | done].
    + intros q md' Hq Hmd' Hn.
      destruct (Hb q md') as (e' & He' & Hle); [by apply Hps | done |].
      rewrite Hn, He in He'. by injection He' as <-.
Qed.

Lemma software_packages_overview_witness :
  exists l t,
    ListSoftwarePackages world_denied_both = (Done (inl l), with_tape t world_denied_both) /\
    StronglySorted (fun a b => string_lt (Name a) (Name b) = true) l.
Proof.
  destruct (software_packages_overview world_denied_both eq_refl) as (l & t & H1 & H2 & _).
  - intros p (n & sr & v & Hn & Hv).
    assert (Hkey : filed_by_key world_denied_both = true) by (vm_compute; reflexivity).
    destruct (proj1 (filed_by_key_spec _) Hkey n sr v p Hn Hv) as (md & Hmd & _).
    by exists md.
  - exact (ex_intro _ l (ex_intro _ t (conj H1 H2))).
Defined.

(** ** The path of a release, as the service gives it out *)

Lemma GetReleaseMetadata_free softwareName version w :
  mu w = free_mu ->
  GetReleaseMetadata softwareName version w =
  (Done (match releases w !! softwareName with
         | None => inr (Errorf "software package not found: %s" [softwareName])
         | Some softwareReleases =>
             match softwareReleases !! version with
             | None => inr (Errorf "release version not found for software %s: %s"
                                   [softwareName; version])
             | Some metadata => inl metadata
             end
         end), w).
Proof.
  intros Hmu. unfold GetReleaseMetadata, mu_RLock, mu_RUnlock. go_step.
  rewrite Hmu. cbn.
  destruct (releases w !! softwareName) as [sr|]; cbn.
  - destruct (sr !! version); cbn; f_equal; destruct w; simpl in *; by subst.
  - f_equal. destruct w; simpl in *; by subst.
Qed.

Lemma Service_GetReleaseFilePath_spec (w : World) (softwareName version : string) :
  mu w = free_mu ->
  (forall path w',
     Service_GetReleaseFilePath softwareName version w = (Done (path, None), w') <->
     w' = w /\
     exists metadata md,
       lookup_release softwareName version w = Some metadata /\
       heap w !! metadata = Some md /\
       ReleaseState md = "available" /\
       getReleaseFilePath (RepositoryPath w) md = Done path /\
       fault_of SysOpen path w = None /\
       is_Some (nodes w !! path)) /\
  snd (Service_GetReleaseFilePath softwareName version w) = w.
Proof.
  intros Hmu.
  unfold Service_GetReleaseFilePath, GetReleaseTGZReader, GetReleaseFilePath,
    lookup_release.
  go_step. rewrite (GetReleaseMetadata_free _ _ _ Hmu).
  destruct (releases w !! softwareName) as [sr|]; simpl.
  2: { split; [|done]. intros path w'. split; [done|]. by intros (_ & ? & ? & ? & _). }
  destruct (sr !! version) as [metadata|]; simpl.
  2: { split; [|done]. intros path w'. split; [done|]. by intros (_ & ? & ? & ? & _). }
  destruct (heap w !! metadata) as [md|] eqn:Hmd; simpl.
  2: { split; [|done]. intros path w'. split; [done|].
       intros (_ & ? & ? & [= <-] & ? & _). congruence. }
  destruct (String.eqb (ReleaseState md) "available") eqn:Hst; simpl.
  2: { split; [|done]. intros path w'. split; [done|].
       intros (_ & ? & md' & [= <-] & Hmd' & Hav & _).
       rewrite Hmd in Hmd'. injection Hmd' as <-.
       apply String.eqb_neq in Hst. done. }
  apply String.eqb_eq in Hst. rewrite ?Hmd. simpl.
  destruct (getReleaseFilePath (RepositoryPath w) md) as [p| |] eqn:Hp; simpl.
  2,3: split; [|done]; intros path w'; split; [done|];
       intros (_ & ? & md' & [= <-] & Hmd' & _ & Hp' & _);
       rewrite Hmd in Hmd'; injection Hmd' as <-; congruence.
  unfold fault_of.
  destruct (lookup_fault SysOpen p (faults w)) as [no|] eqn:Hf; simpl.
  { split; [|done]. intros path w'. split; [done|].
    intros (_ & ? & md' & [= <-] & Hmd' & _ & Hp' & Hf' & _).
    rewrite Hmd in Hmd'. injection Hmd' as <-.
    rewrite Hp in Hp'. injection Hp' as <-. unfold fault_of in Hf'. congruence. }
  destruct (nodes w !! p) as [fi|] eqn:Hnode; simpl.
  2: { split; [|done]. intros path w'. split; [done|].
       intros (_ & ? & md' & [= <-] & Hmd' & _ & Hp' & _ & Hn).
       rewrite Hmd in Hmd'. injection Hmd' as <-.
       rewrite Hp in Hp'. injection Hp' as <-. rewrite Hnode in Hn.
       by destruct Hn. }
  rewrite ?Hmd. simpl. rewrite ?Hp. simpl.
  split; [|done]. intros path w'. split.
  - intros [= <- <-]. split; [done|]. exists metadata, md.
    rewrite Hnode. unfold fault_of. eauto 10.
  - intros (-> & ? & md' & [= <-] & Hmd' & _ & Hp' & _).
    rewrite Hmd in Hmd'. injection Hmd' as <-.
    rewrite Hp in Hp'. by injection Hp' as <-.
Qed.

(** X10.  With the mutex free, the service gives out a path for a release
    exactly when the store holds the release, its record is marked
    available and its file can be opened; the path is then the derived
    path of the record.  The call changes nothing. *)
Theorem service_path_only_for_available_file
  (w : World) (softwareName version : string) :
  mu w = free_mu ->
  (forall path w',
     Service_GetReleaseFilePath softwareName version w = (Done (path, None), w') <->
     w' = w /\
     exists metadata md,
       lookup_release softwareName version w = Some metadata /\
       heap w !! metadata = Some md /\
       ReleaseState md = "available" /\
       getReleaseFilePath (RepositoryPath w) md = Done path /\
       fault_of SysOpen path w = None /\
       is_Some (nodes w !! path)) /\
  snd (Service_GetReleaseFilePath softwareName version w) = w.
Proof. apply Service_GetReleaseFilePath_spec. Qed.

Lemma service_path_only_for_available_file_witness :
  Service_GetReleaseFilePath "acme" "1.0.0" world_retry
  = (Done (acme_path, None), world_retry).
Proof.
  apply (proj1 (service_path_only_for_available_file world_retry "acme" "1.0.0" eq_refl)).
  split; [reflexivity|].
  exists 1%positive, (md0 "acme" "1.0.0" 1024 "available").
  repeat split; try (vm_compute; reflexivity).
  exists (mkFileInfo 1024 false). vm_compute. reflexivity.
Defined.

(** ** Uploads *)

(** X11.  [UploadRelease] never reports success: the only way to its
    [return nil] is a [CreateReleaseMetadata] that returns nil, and that
    call either refuses the record or waits for ever on the mutex it
    holds. *)
Theorem upload_never_reports_success
  (tgzFilePath : string) (metadata : ReleaseMetadata) (w w' : World) :
  UploadRelease tgzFilePath metadata w <> (Done None, w').
Proof.
  unfold UploadRelease. go_step.
  cbn -[StoreReleaseFile os_Stat CreateReleaseMetadata os_Remove fresh].
  destruct (StoreReleaseFile _ _ _ _) as [[[dest [e|]]| |] w1]; try done.
  rewrite os_Stat_unfold.
  cbn -[CreateReleaseMetadata os_Remove fresh].
  destruct (match fault_of SysStat dest w1 with Some _ => _ | None => _ end)
    as [fileInfo|e]; [|done].
  cbn -[CreateReleaseMetadata os_Remove fresh].
  destruct (heap w1 !! _) as [md|]; [|done].
  cbn -[CreateReleaseMetadata os_Remove fresh].
  rewrite lookup_insert_eq.
  cbn -[CreateReleaseMetadata os_Remove fresh].
  destruct (CreateReleaseMetadata _ _) as [[[e|]| |] w2] eqn:HC; try done.
  - destruct (os_Remove_returns dest w2) as (r & w3 & ->). done.
  - apply Create_returns in HC as [e [=]].
Qed.

Lemma getReleaseFilePath_key repoPath md md' :
  SoftwareName md' = SoftwareName md -> Version md' = Version md ->
  getReleaseFilePath repoPath md' = getReleaseFilePath repoPath md.
Proof. intros Hn Hv. unfold getReleaseFilePath. by rewrite Hn, Hv. Qed.

(** With no failing system call and the archive on disk, the archive is
    copied to the derived path; the directory of the software is made when
    it is not there. *)
Lemma StoreReleaseFile_ok repoPath tgz p u md dest src :
  heap u !! p = Some md ->
  getReleaseFilePath repoPath md = Done dest ->
  faults u = [] ->
  nodes u !! tgz = Some src ->
  exists nodes',
    StoreReleaseFile repoPath tgz p u
      = (Done (dest, None),
         with_nodes (<[dest := mkFileInfo (Size src) false]> nodes') u) /\
    (forall path, path <> getSoftwareDirPath repoPath (SoftwareName md) ->
       nodes' !! path = nodes u !! path).
Proof.
  intros Hmd Hdest Hf Hsrc.
  unfold StoreReleaseFile, EnsureReleaseDirExists, copyFile, os_MkdirAll. go_step.
  rewrite Hmd, os_Stat_unfold.
  unfold fault_of. rewrite Hf. simpl lookup_fault. cbv iota.
  set (dir := getSoftwareDirPath repoPath (SoftwareName md)).
  destruct (nodes u !! dir) as [fi|] eqn:Hdir;
    cbn -[getReleaseFilePath getSoftwareDirPath].
  - rewrite Hdest. cbn. rewrite Hf. cbn. rewrite Hsrc. cbn.
    exists (nodes u). split; [|done].
    f_equal. rewrite insert_insert_eq. by destruct u.
  - rewrite Hf. cbn -[getReleaseFilePath getSoftwareDirPath]. fold dir. rewrite Hdir.
    cbn -[getReleaseFilePath getSoftwareDirPath]. rewrite Hdest.
    cbn -[getSoftwareDirPath]. rewrite Hf. cbn -[getSoftwareDirPath]. fold dir.
    assert (Hne : dir <> tgz) by congruence.
    rewrite lookup_insert_ne by done. rewrite Hsrc. cbn -[getSoftwareDirPath].
    exists (<[dir := mkFileInfo 0 true]> (nodes u)). split.
    + f_equal. rewrite insert_insert_eq. by destruct u.
    + intros path Hpath. by rewrite lookup_insert_ne.
Qed.

(** X12.  After the first record that [CreateReleaseMetadata] accepts, the
    store is out of service: the call waits for ever with the write lock
    held, the record is in the map and not in the file of the database,
    and every later operation of the store waits as well. *)
Theorem first_accepted_create_stops_the_store
  (w : World) (metadata : loc) (md : ReleaseMetadata) :
  mu w = free_mu ->
  heap w !! metadata = Some md ->
  lookup_release (SoftwareName md) (Version md) w = None ->
  let run := CreateReleaseMetadata metadata w in
  fst run = Blocked /\
  lookup_release (SoftwareName md) (Version md) (snd run) = Some metadata /\
  datafile (snd run) = datafile w /\
  (forall n v, fst (GetReleaseMetadata n v (snd run)) = Blocked) /\
  (forall n, fst (ListReleasesMetadataForSoftware n (snd run)) = Blocked) /\
  fst (ListAllReleasesMetadata (snd run)) = Blocked /\
  (forall p, fst (CreateReleaseMetadata p (snd run)) = Blocked) /\
  (forall p, fst (UpdateReleaseMetadata p (snd run)) = Blocked) /\
  (forall n v, fst (DeleteReleaseMetadata n v (snd run)) = Blocked) /\
  (forall repoPath, fst (ReconcileReleases repoPath (snd run)) = Blocked).
Proof.
  intros Hmu Hp Hq run. unfold run. rewrite (Create_free_fresh _ _ _ Hmu Hp Hq).
  cbn [fst snd].
  match goal with |- context [lookup_release _ _ ?u] =>
    destruct (locked_store_parks u eq_refl) as (H1 & H2 & H3 & H4 & H5 & H6 & H7 & _)
  end.
  split; [done|]. split.
  { unfold lookup_release. simpl. rewrite lookup_insert_eq. simpl.
    by rewrite lookup_insert_eq. }
  split; [done|].
  repeat split; intros; by rewrite ?H1, ?H2, ?H3, ?H4, ?H5, ?H6, ?H7.
Qed.

Lemma first_accepted_create_stops_the_store_witness :
  fst (CreateReleaseMetadata 2%positive world_second) = Blocked /\
  fst (ListAllReleasesMetadata (snd (CreateReleaseMetadata 2%positive world_second)))
    = Blocked.
Proof.
  destruct (first_accepted_create_stops_the_store world_second 2%positive
              (md0 "acme" "2.0.0" 10 "available") eq_refl eq_refl eq_refl)
    as (H1 & _ & _ & _ & _ & H2 & _).
  exact (conj H1 H2).
Defined.

(** With no failing system call and the archive on disk, an upload gets as
    far as [CreateReleaseMetadata]: the archive is at the derived path, and
    the record, with its size and marked available, is behind a new
    pointer. *)
Lemma UploadRelease_reaches_create tgz metadata w dest src :
  faults w = [] ->
  nodes w !! tgz = Some src ->
  getReleaseFilePath (RepositoryPath w) metadata = Done dest ->
  let p := fresh (dom (heap w)) in
  let md := set_ReleaseState "available"
              (set_FileSize (Size src) (set_ReleaseTimestamp (clock w) metadata)) in
  exists nodes',
    let w2 := with_heap (<[p := md]> (heap w))
                (with_nodes (<[dest := mkFileInfo (Size src) false]> nodes') w) in
    UploadRelease tgz metadata w =
      match CreateReleaseMetadata p w2 with
      | (Done (Some e), w3) =>
          (Done (Some (Wrapf "failed to create release metadata and rollback file storage: %w"
                         [] e)), snd (os_Remove dest w3))
      | (Done None, w3) => (Done None, w3)
      | (Panic msg, w3) => (Panic msg, w3)
      | (Blocked, w3) => (Blocked, w3)
      end.
Proof.
  intros Hf Hsrc Hdest p md.
  set (md1 := set_ReleaseTimestamp (clock w) metadata).
  set (u := with_heap (<[p := md1]> (heap w)) w).
  destruct (StoreReleaseFile_ok (RepositoryPath w) tgz p u md1 dest src)
    as (nodes' & Hstore & _).
  { unfold u. simpl. by rewrite lookup_insert_eq. }
  { rewrite <- Hdest. by apply getReleaseFilePath_key. }
  { done. }
  { done. }
  exists nodes'. intros w2.
  unfold UploadRelease. go_step.
  cbn -[StoreReleaseFile os_Stat CreateReleaseMetadata os_Remove fresh].
  fold p. fold md1. fold u. rewrite Hstore.
  rewrite os_Stat_unfold. unfold fault_of.
  cbn -[CreateReleaseMetadata os_Remove fresh].
  rewrite Hf. cbn -[CreateReleaseMetadata os_Remove fresh].
  repeat (rewrite lookup_insert_eq; cbn -[CreateReleaseMetadata os_Remove fresh]).
  rewrite !insert_insert_eq.
  replace (with_heap _ _) with w2.
  2: { unfold w2, md, md1, u. by destruct w. }
  destruct (CreateReleaseMetadata p w2) as [[[e|]| |] w3]; try done.
  destruct (os_Remove_returns dest w3) as (r & w4 & Hr). by rewrite Hr.
Qed.

(** X13.  An upload of a release the store does not hold, with the mutex
    free, the archive on disk (and not itself the file of the release) and
    no failing system call, never returns: the archive has been copied to
    the path of the release, the record is in the map, marked available
    with the size of the archive, the file of the database is as before,
    and the write lock stays held. *)
Theorem upload_of_new_release_parks
  (tgzFilePath : string) (metadata : ReleaseMetadata) (w : World)
  (dest : string) (src : FileInfo) :
  mu w = free_mu ->
  faults w = [] ->
  nodes w !! tgzFilePath = Some src ->
  getReleaseFilePath (RepositoryPath w) metadata = Done dest ->
  tgzFilePath <> dest ->
  lookup_release (SoftwareName metadata) (Version metadata) w = None ->
  let run := UploadRelease tgzFilePath metadata w in
  fst run = Blocked /\
  nodes (snd run) !! dest = Some (mkFileInfo (Size src) false) /\
  (exists p,
     lookup_release (SoftwareName metadata) (Version metadata) (snd run) = Some p /\
     heap (snd run) !! p
       = Some (set_ReleaseState "available"
                 (set_FileSize (Size src) (set_ReleaseTimestamp (clock w) metadata)))) /\
  datafile (snd run) = datafile w /\
  mu (snd run) = mkRWMutex true 0.
Proof.
  intros Hmu Hf Hsrc Hdest _ Hnew run. unfold run.
  destruct (UploadRelease_reaches_create tgzFilePath metadata w dest src Hf Hsrc Hdest)
    as (nodes' & ->).
  set (p := fresh (dom (heap w))).
  set (md := set_ReleaseState "available" _).
  erewrite (Create_free_fresh _ p md).
  - cbn [fst snd]. split; [done|]. split; [simpl; by rewrite lookup_insert_eq|].
    split; [|done]. exists p. split.
    + unfold lookup_release. simpl. rewrite lookup_insert_eq. simpl.
      by rewrite lookup_insert_eq.
    + simpl. by rewrite lookup_insert_eq.
  - done.
  - simpl. by rewrite lookup_insert_eq.
  - exact Hnew.
Qed.

Lemma upload_of_new_release_parks_witness :
  fst (UploadRelease "/tmp/x.tgz" (md0 "acme" "2.0.0" 0 "") world_clear) = Blocked /\
  mu (snd (UploadRelease "/tmp/x.tgz" (md0 "acme" "2.0.0" 0 "") world_clear))
    = mkRWMutex true 0.
Proof.
  assert (Hsrc : nodes world_clear !! "/tmp/x.tgz" = Some (mkFileInfo 77 false))
    by (vm_compute; reflexivity).
  assert (Hdest : getReleaseFilePath (RepositoryPath world_clear) (md0 "acme" "2.0.0" 0 "")
                  = Done "/repo/891194_acme/891194_acme_02.00.00.tgz")
    by (vm_compute; reflexivity).
  assert (Hnew : lookup_release "acme" "2.0.0" world_clear = None)
    by (vm_compute; reflexivity).
  destruct (upload_of_new_release_parks "/tmp/x.tgz" (md0 "acme" "2.0.0" 0 "") world_clear
              _ _ eq_refl eq_refl Hsrc Hdest ltac:(discriminate) Hnew)
    as (H1 & _ & _ & _ & H2).
  exact (conj H1 H2).
Defined.

(** X14.  An upload of a release the store already holds, under the same
    conditions, copies the archive over the file of that release and then
    removes it as its rollback: the call returns the already-exists error,
    the record of the release is as before, and its file is gone, so that
    the service no longer gives out a path for it. *)
Theorem upload_of_existing_release_removes_its_file
  (tgzFilePath : string) (metadata : ReleaseMetadata) (w : World)
  (dest : string) (src : FileInfo) (q : loc) (mq : ReleaseMetadata) :
  mu w = free_mu ->
  faults w = [] ->
  nodes w !! tgzFilePath = Some src ->
  getReleaseFilePath (RepositoryPath w) metadata = Done dest ->
  tgzFilePath <> dest ->
  lookup_release (SoftwareName metadata) (Version metadata) w = Some q ->
  heap w !! q = Some mq ->
  SoftwareName mq = SoftwareName metadata ->
  Version mq = Version metadata ->
  let run := UploadRelease tgzFilePath metadata w in
  fst run
    = Done (Some (Wrapf "failed to create release metadata and rollback file storage: %w" []
                    (Errorf "release version already exists for software %s: %s"
                            [SoftwareName metadata; Version metadata]))) /\
  nodes (snd run) !! dest = None /\
  releases (snd run) = releases w /\
  heap (snd run) !! q = Some mq /\
  datafile (snd run) = datafile w /\
  mu (snd run) = free_mu /\
  (forall path w',
     Service_GetReleaseFilePath (SoftwareName metadata) (Version metadata) (snd run)
     <> (Done (path, None), w')).
Proof.
  intros Hmu Hf Hsrc Hdest _ Hq Hmq Hname Hversion run. unfold run.
  destruct (UploadRelease_reaches_create tgzFilePath metadata w dest src Hf Hsrc Hdest)
    as (nodes' & ->).
  set (p := fresh (dom (heap w))).
  set (md := set_ReleaseState "available" _).
  assert (Hpq : p <> q).
  { intros Heq. pose proof (is_fresh (dom (heap w))) as Hfresh.
    apply Hfresh, elem_of_dom. fold p. rewrite Heq. by exists mq. }
  erewrite (Create_free_existing _ p md q); [| done | simpl; by rewrite lookup_insert_eq
                                            | exact Hq].
  unfold os_Remove, fault_of. cbn [fst snd]. simpl faults. rewrite Hf.
  simpl lookup_fault. cbv iota. simpl nodes. rewrite lookup_insert_eq.
  cbn [fst snd].
  split; [done|]. split; [simpl; by rewrite lookup_delete_eq|].
  split; [done|]. split; [simpl; by rewrite lookup_insert_ne|].
  split; [done|]. split; [done|].
  intros path w' Hok.
  match type of Hok with Service_GetReleaseFilePath _ _ ?u = _ =>
    apply (proj1 (Service_GetReleaseFilePath_spec u _ _ Hmu)) in Hok
      as (_ & q' & mq' & Hq' & Hmq' & _ & Hpath & _ & Hnode)
  end.
  unfold lookup_release in Hq'. simpl in Hq'. unfold lookup_release in Hq.
  rewrite Hq in Hq'. injection Hq' as <-.
  simpl in Hmq'. rewrite lookup_insert_ne in Hmq' by done.
  rewrite Hmq in Hmq'. injection Hmq' as <-.
  simpl in Hpath.
  rewrite (getReleaseFilePath_key _ metadata mq Hname Hversion), Hdest in Hpath.
  injection Hpath as <-. simpl in Hnode. rewrite lookup_delete_eq in Hnode.
  by destruct Hnode.
Qed.

Lemma upload_of_existing_release_removes_its_file_witness :
  nodes world_clear !! acme_path = Some (mkFileInfo 1024 false) /\
  nodes (snd (UploadRelease "/tmp/x.tgz" (md0 "acme" "1.0.0" 0 "") world_clear))
    !! acme_path = None.
Proof.
  assert (Hsrc : nodes world_clear !! "/tmp/x.tgz" = Some (mkFileInfo 77 false))
    by (vm_compute; reflexivity).
  assert (Hdest : getReleaseFilePath (RepositoryPath world_clear) (md0 "acme" "1.0.0" 0 "")
                  = Done acme_path)
    by (vm_compute; reflexivity).
  assert (Hq : lookup_release "acme" "1.0.0" world_clear = Some 1%positive)
    by (vm_compute; reflexivity).
  assert (Hmq : heap world_clear !! 1%positive = Some (md0 "acme" "1.0.0" 1024 "available"))
    by (vm_compute; reflexivity).
  assert (Hnode : nodes world_clear !! acme_path = Some (mkFileInfo 1024 false))
    by (vm_compute; reflexivity).
  destruct (upload_of_existing_release_removes_its_file
              "/tmp/x.tgz" (md0 "acme" "1.0.0" 0 "") world_clear
              _ _ _ _ eq_refl eq_refl Hsrc Hdest ltac:(discriminate) Hq Hmq eq_refl eq_refl)
    as (_ & H & _).
  exact (conj Hnode H).
Defined.

(** ** Writes and the file of the database *)

(** X15.  [CreateReleaseMetadata], [UpdateReleaseMetadata] and
    [DeleteReleaseMetadata] never write: however a call ends, the file of
    the database, the records and the files of the repository are as
    before.  What they change is the map in memory, and the mutex. *)
Theorem store_writes_never_reach_the_file (w : World) :
  (forall p,
     datafile (snd (CreateReleaseMetadata p w)) = datafile w /\
     heap (snd (CreateReleaseMetadata p w)) = heap w /\
     nodes (snd (CreateReleaseMetadata p w)) = nodes w) /\
  (forall p,
     datafile (snd (UpdateReleaseMetadata p w)) = datafile w /\
     heap (snd (UpdateReleaseMetadata p w)) = heap w /\
     nodes (snd (UpdateReleaseMetadata p w)) = nodes w) /\
  (forall n v,
     datafile (snd (DeleteReleaseMetadata n v w)) = datafile w /\
     heap (snd (DeleteReleaseMetadata n v w)) = heap w /\
     nodes (snd (DeleteReleaseMetadata n v w)) = nodes w).
Proof.
  split; [|split].
  - intros p. unfold CreateReleaseMetadata, mu_Lock, mu_Unlock. go_step.
    destruct (writer (mu w) || negb (readers (mu w) =? 0)%nat); [done|].
    cbn -[saveReleasesMetadata has_software lookup_release store_release].
    destruct (heap w !! p) as [md|]; [|done].
    destruct (has_software _ _);
      cbn -[saveReleasesMetadata has_software lookup_release store_release].
    + destruct (lookup_release _ _ _); [done|].
      unfold store_release. cbn -[saveReleasesMetadata lookup_release].
      destruct (releases w !! SoftwareName md); [|done].
      by rewrite save_parks_under_write_lock.
    + destruct (lookup_release _ _ _); [done|].
      unfold store_release. cbn -[saveReleasesMetadata lookup_release].
      rewrite lookup_insert_eq.
      by rewrite save_parks_under_write_lock.
  - intros p. unfold UpdateReleaseMetadata, mu_Lock, mu_Unlock. go_step.
    destruct (writer (mu w) || negb (readers (mu w) =? 0)%nat); [done|].
    cbn -[saveReleasesMetadata has_software lookup_release store_release].
    destruct (heap w !! p) as [md|]; [|done].
    destruct (has_software _ _); [|done].
    cbn -[saveReleasesMetadata has_software lookup_release store_release].
    destruct (lookup_release _ _ _); [|done].
    unfold store_release. cbn -[saveReleasesMetadata lookup_release].
    destruct (releases w !! SoftwareName md); [|done].
    by rewrite save_parks_under_write_lock.
  - intros n v. unfold DeleteReleaseMetadata, mu_Lock, mu_Unlock. go_step.
    destruct (writer (mu w) || negb (readers (mu w) =? 0)%nat); [done|].
    cbn -[saveReleasesMetadata has_software lookup_release].
    destruct (has_software _ _); [|done].
    cbn -[saveReleasesMetadata has_software lookup_release].
    destruct (lookup_release _ _ _); [|done].
    cbn -[saveReleasesMetadata].
    destruct (size _ =? 0)%nat; cbn -[saveReleasesMetadata];
      by rewrite save_parks_under_write_lock.
Qed.

(** ** Loading the database *)

Lemma with_heap_heap h u : heap (with_heap h u) = h.
Proof. done. Qed.

(** Decoding gives every record of the array a pointer of its own, and
    leaves the records that were there alone. *)
Lemma decode_records rs u :
  exists ps h,
    decode (Some <$> rs) u = (Done (Some <$> ps), with_heap h u) /\
    Forall2 (fun p r => h !! p = Some r) ps rs /\
    (forall q, is_Some (heap u !! q) -> h !! q = heap u !! q).
Proof.
  revert u. induction rs as [|r rs IH]; intros u.
  - exists [], (heap u). split; [by destruct u|]. split; [constructor | done].
  - set (p := fresh (dom (heap u))).
    destruct (IH (with_heap (<[p := r]> (heap u)) u)) as (ps & h & Hrun & Hall & Hold).
    exists (p :: ps), h. split; [|split].
    + rewrite fmap_cons. simpl. go_step. cbn -[decode fresh]. fold p.
      rewrite Hrun. by destruct u.
    + constructor; [|done].
      rewrite Hold; simpl; by rewrite lookup_insert_eq.
    + intros q Hq. rewrite Hold.
      * simpl. rewrite lookup_insert_ne; [done|].
        intros <-. apply (is_fresh (dom (heap u))). by apply elem_of_dom.
      * simpl. destruct (decide (p = q)) as [<-|Hne];
          [by rewrite lookup_insert_eq | by rewrite lookup_insert_ne].
Qed.

(** Whatever the array holds, decoding returns: the pointers it makes lead
    to records, and a [null] of the array is a nil pointer of the slice. *)
Lemma decode_shape elems u :
  exists qs h,
    decode elems u = (Done qs, with_heap h u) /\
    (forall p, Some p ∈ qs -> is_Some (h !! p)) /\
    (None ∈ elems -> None ∈ qs) /\
    (forall q, is_Some (heap u !! q) -> is_Some (h !! q)).
Proof.
  revert u. induction elems as [|[r|] elems IH]; intros u.
  - exists [], (heap u). split; [by destruct u|].
    split; [by intros p Hp%elem_of_nil|]. split; [by intros H%elem_of_nil | done].
  - set (p := fresh (dom (heap u))).
    destruct (IH (with_heap (<[p := r]> (heap u)) u)) as (qs & h & Hrun & Hlive & Hnull & Hold).
    assert (Hp : is_Some (h !! p)).
    { apply Hold. simpl. rewrite lookup_insert_eq. by eexists. }
    exists (Some p :: qs), h. split; [|split; [|split]].
    + simpl. go_step. cbn -[decode fresh]. fold p. rewrite Hrun. by destruct u.
    + intros q Hq. apply elem_of_cons in Hq as [[= ->]|Hq]; [done | by apply Hlive].
    + intros Hin. apply elem_of_cons in Hin as [[=]|Hin]. right. by apply Hnull.
    + intros q Hq. apply Hold. simpl.
      destruct (decide (p = q)) as [<-|Hne];
        [rewrite lookup_insert_eq; by eexists | by rewrite lookup_insert_ne].
  - destruct (IH u) as (qs & h & Hrun & Hlive & Hnull & Hold).
    exists (None :: qs), h. split; [|split; [|split]].
    + simpl. go_step. by rewrite Hrun.
    + intros q Hq. apply elem_of_cons in Hq as [[=]|Hq]. by apply Hlive.
    + intros _. by left.
    + done.
Qed.

Lemma last_pointer_cons h n v p ps :
  last_pointer h n v (p :: ps) =
  match last_pointer h n v ps with
  | Some q => Some q
  | None => if bool_decide (has_key n v <$> h !! p = Some true) then Some p else None
  end.
Proof.
  unfold last_pointer. rewrite filter_cons.
  destruct (decide (has_key n v <$> h !! p = Some true)) as [Hk|Hk].
  - rewrite bool_decide_true by done. rewrite last_cons.
    by destruct (last _).
  - rewrite bool_decide_false by done. by destruct (last _).
Qed.

(** One turn of the loop on a pointer that leads to a record. *)
Lemma populate_step p ps u md :
  heap u !! p = Some md ->
  populate (Some p :: ps) u =
  populate ps
    (with_releases
       (<[SoftwareName md :=
            <[Version md := p]> (default ∅ (releases u !! SoftwareName md))]>
          (releases u)) u).
Proof.
  intros Hmd. simpl. unfold deref_ptr. go_step. rewrite Hmd.
  unfold has_software, store_release. cbn -[populate].
  destruct (releases u !! SoftwareName md) as [sr|] eqn:Hsr.
  - rewrite bool_decide_true by done. cbn -[populate]. by rewrite Hsr.
  - rewrite bool_decide_false by (by intros [? ?]). cbn -[populate].
    rewrite lookup_insert_eq. cbn -[populate]. by rewrite insert_insert_eq.
Qed.

(** The loop files every pointer under the name and the version of its
    record; a later pointer with the same key takes the place of an
    earlier one, and no name is left without a release. *)
Lemma populate_spec ps u :
  (forall p, p ∈ ps -> is_Some (heap u !! p)) ->
  exists R,
    populate (Some <$> ps) u = (Done tt, with_releases R u) /\
    (forall n v,
       R !! n ≫= (fun sr => sr !! v) =
       match last_pointer (heap u) n v ps with
       | Some p => Some p
       | None => releases u !! n ≫= (fun sr => sr !! v)
       end) /\
    (forall n, R !! n = Some ∅ -> releases u !! n = Some ∅).
Proof.
  revert u. induction ps as [|p ps IH]; intros u Hlive.
  - exists (releases u). split; [by destruct u|]. split; [done | done].
  - destruct (Hlive p) as [md Hmd]; [by left|].
    set (R1 := <[SoftwareName md :=
                   <[Version md := p]> (default ∅ (releases u !! SoftwareName md))]>
                 (releases u)).
    destruct (IH (with_releases R1 u)) as (R & Hrun & Hlook & Hemp).
    { intros q Hq. simpl. apply Hlive. by right. }
    exists R. split; [|split].
    + rewrite fmap_cons, (populate_step _ _ _ md Hmd). fold R1.
      rewrite Hrun. by destruct u.
    + intros n v. rewrite Hlook, last_pointer_cons. simpl.
      destruct (last_pointer (heap u) n v ps); [done|].
      rewrite Hmd. simpl. unfold has_key, R1.
      destruct (decide (SoftwareName md = n)) as [<-|Hn].
      * rewrite String.eqb_refl, lookup_insert_eq. simpl.
        destruct (decide (Version md = v)) as [<-|Hv].
        -- rewrite String.eqb_refl, lookup_insert_eq.
           by rewrite bool_decide_true.
        -- rewrite lookup_insert_ne by done.
           apply String.eqb_neq in Hv. rewrite Hv.
           rewrite bool_decide_false by done.
           by destruct (releases u !! SoftwareName md).
      * rewrite lookup_insert_ne by done.
        apply String.eqb_neq in Hn. rewrite Hn. simpl. done.
    + intros n Hn. apply Hemp in Hn. simpl in Hn. unfold R1 in Hn.
      apply lookup_insert_Some in Hn as [[_ Hn]|[_ Hn]]; [|done].
      by apply insert_non_empty in Hn.
Qed.

(** The loop stops with a panic at the first nil pointer of the slice. *)
Lemma populate_null qs u :
  (forall p, Some p ∈ qs -> is_Some (heap u !! p)) ->
  None ∈ qs ->
  exists u',
    populate qs u = (Panic "invalid memory address or nil pointer dereference", u').
Proof.
  revert u. induction qs as [|[p|] qs IH]; intros u Hlive Hnull.
  - by apply elem_of_nil in Hnull.
  - destruct (Hlive p) as [md Hmd]; [by left|].
    rewrite (populate_step _ _ _ md Hmd). apply IH.
    + intros q Hq. simpl. apply Hlive. by right.
    + by apply elem_of_cons in Hnull as [[=]|Hnull].
  - exists u. done.
Qed.

Lemma last_pointer_keyed h n v ps q :
  last_pointer h n v ps = Some q ->
  exists r, h !! q = Some r /\ has_key n v r = true.
Proof.
  unfold last_pointer. intros Hq%last_Some_elem_of.
  apply list_elem_of_filter in Hq as [Hk _].
  destruct (h !! q) as [r|]; [|done]. simpl in Hk. exists r. split; congruence.
Qed.

Lemma last_pointer_record h n v ps rs :
  Forall2 (fun p r => h !! p = Some r) ps rs ->
  last_pointer h n v ps ≫= (fun p => h !! p) = last_filed n v rs.
Proof.
  induction 1 as [|p r ps rs Hp Hall IH]; [done|].
  rewrite last_pointer_cons. unfold last_filed in *. rewrite filter_cons.
  rewrite Hp. simpl.
  destruct (last_pointer h n v ps) as [q|] eqn:Hq.
  - destruct (last_pointer_keyed _ _ _ _ _ Hq) as (rq & Hrq & _).
    simpl in *. rewrite Hrq in *.
    destruct (decide (has_key n v r = true)); [|done].
    by rewrite last_cons, <- IH.
  - simpl in IH. destruct (decide (has_key n v r = true)) as [Hk|Hk].
    + rewrite bool_decide_true by (by rewrite Hk). rewrite last_cons, <- IH. done.
    + rewrite bool_decide_false by (intros [= ?]; done). done.
Qed.

Lemma has_key_true n v r :
  has_key n v r = true <-> SoftwareName r = n /\ Version r = v.
Proof.
  unfold has_key. rewrite andb_true_iff, !String.eqb_eq. done.
Qed.

(** The load, once the file has been opened, as the loop on the decoded
    slice in the emptied store. *)
Lemma load_opened (w : World) decoded :
  fault_of SysStat (filepath w) w = None ->
  fault_of SysOpen (filepath w) w = None ->
  is_Some (datafile w) ->
  let w0 := with_mu (mkRWMutex false 0) (with_releases ∅ w) in
  NewJSONReleaseDatabase decoded w =
  match decoded with
  | inr e =>
      (Done (Some (Wrapf "failed to decode release metadata database: %w" [] e)), w0)
  | inl elems =>
      match decode elems w0 with
      | (Done releasesMetadata, w1) =>
          match populate releasesMetadata (with_releases ∅ w1) with
          | (Done _, w2) => (Done None, w2)
          | (Panic msg, w2) => (Panic msg, w2)
          | (Blocked, w2) => (Blocked, w2)
          end
      | (Panic msg, w1) => (Panic msg, w1)
      | (Blocked, w1) => (Blocked, w1)
      end
  end.
Proof.
  intros Hstat Hopen [rs Hfile] w0.
  unfold NewJSONReleaseDatabase, loadReleasesMetadata, stat_datafile, open_datafile.
  go_step. cbn -[decode populate]. fold w0.
  unfold fault_of in *. simpl in Hstat, Hopen. rewrite Hstat, Hfile.
  cbn -[decode populate]. rewrite Hopen. cbn -[decode populate].
  rewrite Hfile. cbn -[decode populate].
  destruct decoded as [elems|e]; [|done].
  cbn -[decode populate].
  destruct (decode elems w0) as [[qs| |] w1]; [|done|done].
  cbn -[populate]. by destruct (populate qs _) as [[[]| |] w2].
Qed.

(** Opening the database on a file that the decoder turns into the
    records [rs]. *)
Lemma load_spec (w : World) (rs : list ReleaseMetadata) :
  fault_of SysStat (filepath w) w = None ->
  fault_of SysOpen (filepath w) w = None ->
  is_Some (datafile w) ->
  exists w',
    NewJSONReleaseDatabase (inl (Some <$> rs)) w = (Done None, w') /\
    mu w' = free_mu /\ datafile w' = datafile w /\ nodes w' = nodes w /\
    (forall n v, record_at w' n v = last_filed n v rs) /\
    filed_by_key w' = true /\
    no_empty_software w'.
Proof.
  intros Hstat Hopen Hfile.
  set (w0 := with_mu (mkRWMutex false 0) (with_releases ∅ w)).
  destruct (decode_records rs w0) as (ps & h & Hdec & Hall & Hold).
  destruct (populate_spec ps (with_releases ∅ (with_heap h w0))) as (R & Hpop & Hlook & Hemp).
  { intros p Hp. simpl.
    apply list_elem_of_lookup in Hp as [i Hi].
    destruct (Forall2_lookup_l _ _ _ _ _ Hall Hi) as (r & _ & Hr). by exists r. }
  simpl in Hlook, Hemp.
  exists (with_releases R (with_releases ∅ (with_heap h w0))).
  split; [|split; [done|split; [done|split; [done|]]]].
  { rewrite (load_opened w _ Hstat Hopen Hfile). fold w0. cbv zeta.
    rewrite Hdec. by rewrite Hpop. }
  assert (Hptr : forall n v, R !! n ≫= (fun sr => sr !! v) = last_pointer h n v ps).
  { intros n v. rewrite Hlook, lookup_empty. simpl. by destruct (last_pointer _ _ _ _). }
  split; [|split].
  - intros n v. unfold record_at, lookup_release. simpl.
    rewrite Hptr. by apply last_pointer_record.
  - apply filed_by_key_spec. simpl. intros n sr v p Hn Hv.
    assert (Hp : last_pointer h n v ps = Some p)
      by (rewrite <- Hptr, Hn; exact Hv).
    destruct (last_pointer_keyed _ _ _ _ _ Hp) as (r & Hr & Hk).
    apply has_key_true in Hk as [? ?]. by exists r.
  - intros n sr Hn ->. simpl in Hn. apply Hemp in Hn.
    by rewrite lookup_empty in Hn.
Qed.

(** X16.  [NewJSONReleaseDatabase], with the result of the JSON decoder
    taken as given.  With no file, the store is empty and nothing else
    changes.  With a file that opens: an error of the decoder is returned
    wrapped and the store is empty; a decoded array that holds a [null]
    makes the load panic on a nil pointer; and a decoded array of records
    gives a store that holds, for each name and version, the last record
    of the array that carries them (a later record replaces an earlier one
    with the same key), with every record filed under its own name and
    version, no name left without a release, and the mutex free. *)
Theorem load_files_last_record_per_key
  (w : World) (decoded : list (option ReleaseMetadata) + error) :
  fault_of SysStat (filepath w) w = None ->
  fault_of SysOpen (filepath w) w = None ->
  let emptied := with_mu free_mu (with_releases ∅ w) in
  (datafile w = None -> NewJSONReleaseDatabase decoded w = (Done None, emptied)) /\
  (is_Some (datafile w) ->
     (forall e, decoded = inr e ->
        NewJSONReleaseDatabase decoded w
          = (Done (Some (Wrapf "failed to decode release metadata database: %w" [] e)),
             emptied)) /\
     (forall elems, decoded = inl elems -> None ∈ elems ->
        fst (NewJSONReleaseDatabase decoded w)
          = Panic "invalid memory address or nil pointer dereference") /\
     (forall rs, decoded = inl (Some <$> rs) ->
        exists w',
          NewJSONReleaseDatabase decoded w = (Done None, w') /\
          mu w' = free_mu /\ datafile w' = datafile w /\ nodes w' = nodes w /\
          (forall n v, record_at w' n v = last_filed n v rs) /\
          filed_by_key w' = true /\
          no_empty_software w')).
Proof.
  intros Hstat Hopen emptied. split.
  - intros Hfile.
    unfold NewJSONReleaseDatabase, loadReleasesMetadata, stat_datafile. go_step.
    unfold fault_of in *. cbn. rewrite Hstat, Hfile. done.
  - intros Hfile. split; [|split].
    + intros e ->. by rewrite (load_opened w _ Hstat Hopen Hfile).
    + intros elems -> Hnull. rewrite (load_opened w _ Hstat Hopen Hfile). cbv zeta.
      destruct (decode_shape elems (with_mu (mkRWMutex false 0) (with_releases ∅ w)))
        as (qs & h & -> & Hlive & Hnull' & _).
      destruct (populate_null qs
                  (with_releases ∅
                     (with_heap h (with_mu (mkRWMutex false 0) (with_releases ∅ w)))))
        as (u' & ->); [exact Hlive | by apply Hnull' | done].
    + intros rs ->. by apply load_spec.
Qed.

Lemma load_files_last_record_per_key_witness :
  exists w',
    NewJSONReleaseDatabase (inl (Some <$> default [] (datafile world_twice))) world_twice
      = (Done None, w') /\
    record_at w' "acme" "1.0.0" = Some (md0 "acme" "1.0.0" 2048 "available").
Proof.
  destruct (load_files_last_record_per_key world_twice
              (inl (Some <$> default [] (datafile world_twice))) eq_refl eq_refl)
    as [_ H].
  destruct H as (_ & _ & H); [by eexists|].
  destruct (H _ eq_refl) as (w' & H1 & _ & _ & _ & H2 & _).
  exists w'. split; [exact H1|]. rewrite H2. vm_compute. reflexivity.
Defined.

Lemma last_all_same {A} (l : list A) (r : A) :
  l <> [] -> (forall x, x ∈ l -> x = r) -> last l = Some r.
Proof.
  intros Hne Hall. destruct (last l) as [x|] eqn:Hl.
  - f_equal. apply Hall. by apply last_Some_elem_of.
  - by apply last_None in Hl.
Qed.

(** In a store whose records are filed under their own keys, the last
    record of a saved list that carries a key is the record of the key. *)
Lemma last_filed_of_store (w : World) (rs : list ReleaseMetadata) :
  filed_by_key w = true ->
  (forall r, r ∈ rs <-> exists p, held w p /\ heap w !! p = Some r) ->
  forall n v, last_filed n v rs = record_at w n v.
Proof.
  intros Hfiled Hrs n v. pose proof (proj1 (filed_by_key_spec w) Hfiled) as Hkey.
  unfold record_at, lookup_release, last_filed.
  destruct (releases w !! n ≫= (fun sr => sr !! v)) as [p|] eqn:Hp; simpl.
  - destruct (releases w !! n) as [sr|] eqn:Hn; [|done]. simpl in Hp.
    destruct (Hkey n sr v p Hn Hp) as (md & Hmd & Hname & Hversion).
    rewrite Hmd. apply last_all_same.
    + intros Hnil.
      assert (Hin : md ∈ filter (fun r => has_key n v r = true) rs).
      { apply list_elem_of_filter. split; [by apply has_key_true|].
        apply Hrs. exists p. split; [|done]. by exists n, sr, v. }
      rewrite Hnil in Hin. by apply elem_of_nil in Hin.
    + intros r [Hk Hr]%list_elem_of_filter.
      apply has_key_true in Hk as [Hrn Hrv].
      apply Hrs in Hr as (q & (n' & sr' & v' & Hn' & Hv') & Hq).
      destruct (Hkey n' sr' v' q Hn' Hv') as (mq & Hmq & Hqn & Hqv).
      rewrite Hq in Hmq. injection Hmq as <-.
      subst n' v'. rewrite Hrn, Hn in Hn'. injection Hn' as <-.
      rewrite Hrv, Hp in Hv'. injection Hv' as <-. congruence.
  - apply last_None.
    destruct (filter (fun r => has_key n v r = true) rs) as [|r l] eqn:E; [done|].
    exfalso.
    assert (Hin : r ∈ filter (fun r => has_key n v r = true) rs)
      by (rewrite E; by left).
    apply list_elem_of_filter in Hin as [Hk Hr].
    apply has_key_true in Hk as [Hrn Hrv].
    apply Hrs in Hr as (q & (n' & sr' & v' & Hn' & Hv') & Hq).
    destruct (Hkey n' sr' v' q Hn' Hv') as (mq & Hmq & Hqn & Hqv).
    rewrite Hq in Hmq. injection Hmq as <-.
    subst n' v'. rewrite Hrn in Hn'. rewrite Hn' in Hp. simpl in Hp.
    rewrite Hrv in Hv'. congruence.
Qed.

(** X17.  The records that a save hands to the encoder are enough to
    rebuild the store.  When no writer holds the mutex, the records are
    filed under their own names and versions and the file can be written,
    [saveReleasesMetadata] returns nil and has handed the encoder the record
    of every key; and if the decoder later returns those records (the JSON
    codec itself is no part of the statement), [NewJSONReleaseDatabase]
    returns a store that holds, for every name and version, the record the
    store held before. *)
Theorem saved_records_rebuild_the_store (w : World) :
  writer (mu w) = false ->
  filed_by_key w = true ->
  fault_of SysCreate (filepath w) w = None ->
  fault_of SysWrite (filepath w) w = None ->
  fault_of SysStat (filepath w) w = None ->
  fault_of SysOpen (filepath w) w = None ->
  exists w1 rs w2,
    saveReleasesMetadata w = (Done None, w1) /\
    datafile w1 = Some rs /\
    (forall r, r ∈ rs <-> exists n v, record_at w n v = Some r) /\
    NewJSONReleaseDatabase (inl (Some <$> rs)) w1 = (Done None, w2) /\
    (forall n v, record_at w2 n v = record_at w n v) /\
    filed_by_key w2 = true /\
    no_empty_software w2.
Proof.
  intros Hw Hfiled Hcreate Hwrite Hstat Hopen.
  pose proof (proj1 (filed_by_key_spec w) Hfiled) as Hkey.
  destruct (save_unfold w Hw) as (ps & t & Hps & Hsave).
  rewrite Hcreate, Hwrite in Hsave.
  destruct (mapM_heap_live (heap w) ps) as [rs Hrs].
  { intros p (n & sr & v & Hn & Hv)%Hps.
    destruct (Hkey n sr v p Hn Hv) as (md & Hmd & _). by exists md. }
  rewrite Hrs in Hsave.
  assert (Helem : forall r, r ∈ rs <-> exists p, held w p /\ heap w !! p = Some r).
  { intros r. rewrite (mapM_heap_elem _ _ _ Hrs). split.
    - intros (p & Hp & Hr). exists p. split; [by apply Hps | done].
    - intros (p & Hp & Hr). exists p. split; [by apply Hps | done]. }
  destruct (load_spec (saved rs t w) rs) as (w2 & Hload & _ & _ & _ & Hrec & Hf2 & Hne2);
    [done | done | by eexists |].
  exists (saved rs t w), rs, w2.
  split; [done|]. split; [done|]. split; [|split; [done|split; [|done]]].
  - intros r. rewrite Helem. unfold record_at, lookup_release. split.
    + intros (p & (n & sr & v & Hn & Hv) & Hr). exists n, v.
      rewrite Hn. simpl. by rewrite Hv.
    + intros (n & v & Hr). destruct (releases w !! n) as [sr|] eqn:Hn; [|done].
      simpl in Hr. destruct (sr !! v) as [p|] eqn:Hv; [|done]. simpl in Hr.
      exists p. split; [by exists n, sr, v | done].
  - intros n v. rewrite Hrec. by apply last_filed_of_store.
Qed.

Lemma saved_records_rebuild_the_store_witness :
  exists w1 rs w2,
    saveReleasesMetadata world_denied_both = (Done None, w1) /\
    datafile w1 = Some rs /\
    NewJSONReleaseDatabase (inl (Some <$> rs)) w1 = (Done None, w2) /\
    (forall n v, record_at w2 n v = record_at world_denied_both n v).
Proof.
  assert (Hfiled : filed_by_key world_denied_both = true) by (vm_compute; reflexivity).
  destruct (saved_records_rebuild_the_store world_denied_both
              eq_refl Hfiled eq_refl eq_refl eq_refl eq_refl)
    as (w1 & rs & w2 & H1 & H2 & _ & H3 & H4 & _).
  exact (ex_intro _ w1 (ex_intro _ rs (ex_intro _ w2 (conj H1 (conj H2 (conj H3 H4)))))).
Defined.

(** * The user database *)

Ltac ugo_step :=
  cbv beta iota zeta delta
    [ubind uret udefer uget_world umodify uassign uderef].

Lemma urange_map_perm {V} (m : gmap string V) (w : UserWorld) :
  exists kvs,
    urange_map m w = (Done kvs, with_utape (tail (utape w)) w) /\
    kvs ≡ₚ map_to_list m.
Proof.
  eexists. split; [reflexivity|].
  rewrite arrange_perm by apply NoDup_fst_map_to_list.
  apply reflexive_eq, omap_lookup_keys.
  intros k v. apply elem_of_map_to_list.
Qed.

Lemma uencode_heap ps u :
  uencode ps u =
  match mapM (fun p => uheap u !! p) ps with
  | Some rs => (Done rs, u)
  | None => (Panic "invalid memory address or nil pointer dereference", u)
  end.
Proof.
  induction ps as [|p ps IH]; [done|].
  simpl. ugo_step. destruct (uheap u !! p) as [r|]; [|done].
  simpl. rewrite IH. by destruct (mapM _ ps).
Qed.

Lemma keyed_by_name_spec w :
  keyed_by_name w = true <->
  forall n p, users w !! n = Some p ->
    exists u, uheap w !! p = Some u /\ Username u = n.
Proof.
  unfold keyed_by_name. rewrite forallb_forall. split.
  - intros H n p Hn.
    assert (Hin : In (n, p) (map_to_list (users w)))
      by (by apply list_elem_of_In, elem_of_map_to_list).
    specialize (H _ Hin). simpl in H.
    destruct (uheap w !! p) as [u|]; [|done].
    apply String.eqb_eq in H. eauto.
  - intros H [n p] Hin%list_elem_of_In%elem_of_map_to_list. simpl.
    destruct (H n p Hin) as (u & -> & <-). apply String.eqb_refl.
Qed.

Lemma mapM_users_elem (h : gmap loc User) ps rs :
  mapM (fun p => h !! p) ps = Some rs ->
  length rs = length ps /\
  forall r, r ∈ rs <-> exists p, p ∈ ps /\ h !! p = Some r.
Proof.
  intros H. apply mapM_Some in H. split; [symmetry; by eapply Forall2_length|].
  intros r. split.
  - intros Hr. apply list_elem_of_lookup in Hr as [i Hi].
    destruct (Forall2_lookup_r _ _ _ _ _ H Hi) as (p & Hp & Hpr).
    exists p. split; [by eapply list_elem_of_lookup_2 | done].
  - intros (p & Hp & Hpr). apply list_elem_of_lookup in Hp as [i Hi].
    destruct (Forall2_lookup_l _ _ _ _ _ H Hi) as (r' & Hr' & Hpr').
    rewrite Hpr in Hpr'. injection Hpr' as <-. by eapply list_elem_of_lookup_2.
Qed.

(** Outside the lock, with the file writable and every pointer of the map
    alive, [saveUsers] writes the records of the map. *)
Lemma saveUsers_ok w :
  umu w = free_mu ->
  ufault_of SysCreate (ufilepath w) w = None ->
  ufault_of SysWrite (ufilepath w) w = None ->
  (forall n p, users w !! n = Some p -> is_Some (uheap w !! p)) ->
  exists rs,
    saveUsers w = (Done None, with_userfile (Some rs) (with_utape (tail (utape w)) w)) /\
    length rs = size (users w) /\
    forall r, r ∈ rs <-> exists n, user_at w n = Some r.
Proof.
  intros Hmu Hcreate Hwrite Hlive.
  destruct (urange_map_perm (users w)
              (with_umu (mkRWMutex false 1) w)) as (kvs & Hr & Hkvs).
  destruct (mapM (fun p => uheap w !! p) (kvs.*2)) as [rs|] eqn:Hrs.
  2: { exfalso. apply mapM_None in Hrs. apply Exists_exists in Hrs as (p & Hp & Hnone).
       apply list_elem_of_fmap in Hp as ([n q] & -> & Hin).
       rewrite Hkvs in Hin. apply elem_of_map_to_list in Hin.
       destruct (Hlive n q Hin) as [u Hu]. simpl in Hnone. by rewrite Hu in Hnone. }
  exists rs. destruct (mapM_users_elem _ _ _ Hrs) as [Hlen Helem].
  split; [|split].
  - unfold saveUsers, umu_RLock, umu_RUnlock. ugo_step.
    rewrite Hmu. cbn -[urange_map uencode ufault_of].
    rewrite Hr.
    cbn -[uencode ufault_of]. unfold ufault_of in *. cbn -[uencode].
    rewrite Hcreate. cbn -[uencode]. rewrite Hwrite. cbn -[uencode].
    rewrite uencode_heap. cbn. rewrite Hrs.
    f_equal. destruct w. simpl in *. by subst.
  - rewrite Hlen, length_fmap, Hkvs. apply length_map_to_list.
  - intros r. rewrite Helem. unfold user_at. split.
    + intros (p & Hp & Hpr). apply list_elem_of_fmap in Hp as ([n q] & -> & Hin).
      rewrite Hkvs in Hin. apply elem_of_map_to_list in Hin.
      exists n. by rewrite Hin.
    + intros (n & Hn). destruct (users w !! n) as [p|] eqn:Hp; [|done].
      exists p. split; [|done]. apply list_elem_of_fmap. exists (n, p).
      split; [done|]. rewrite Hkvs. by apply elem_of_map_to_list.
Qed.

Lemma GetUserByUsername_free username w :
  umu w = free_mu ->
  GetUserByUsername username w =
  (Done (match users w !! username with
         | Some user => inl user
         | None => inr (Errorf "user not found: %s" [username])
         end), w).
Proof.
  intros Hmu. unfold GetUserByUsername, umu_RLock, umu_RUnlock. ugo_step.
  rewrite Hmu. cbn.
  destruct (users w !! username); cbn; f_equal; destruct w; simpl in *; by subst.
Qed.

Lemma with_umu_free w : umu w = free_mu -> with_umu (mkRWMutex false 0) w = w.
Proof. intros H. destruct w. simpl in *. by subst. Qed.

(** X18.  [CreateUser] with a name the database does not hold, the mutex
    free and the file writable, files the pointer under the name of its
    record, writes the records of the map to the file, leaves the mutex
    free and returns nil; the user is then found under that name. *)
Theorem create_user_files_and_saves (w : UserWorld) (user : loc) (u : User) :
  umu w = free_mu ->
  uheap w !! user = Some u ->
  users w !! Username u = None ->
  (forall n p, users w !! n = Some p -> is_Some (uheap w !! p)) ->
  ufault_of SysCreate (ufilepath w) w = None ->
  ufault_of SysWrite (ufilepath w) w = None ->
  exists w',
    CreateUser user w = (Done None, w') /\
    users w' = <[Username u := user]> (users w) /\
    uheap w' = uheap w /\
    umu w' = free_mu /\
    on_file w' /\
    GetUserByUsername (Username u) w' = (Done (inl user), w').
Proof.
  intros Hmu Hu Hnone Hlive Hcreate Hwrite.
  set (w1 := with_users (<[Username u := user]> (users w)) w).
  destruct (saveUsers_ok w1) as (rs & Hsave & Hlen & Helem); try done.
  { intros n p Hn. simpl in Hn. apply lookup_insert_Some in Hn as [[_ <-]|[_ Hn]].
    - by exists u.
    - by apply (Hlive n). }
  assert (Hrun : CreateUser user w = saveUsers w1).
  { unfold CreateUser, umu_Lock, umu_Unlock. ugo_step. rewrite Hmu.
    cbn -[saveUsers]. rewrite Hu. cbn -[saveUsers]. rewrite Hnone.
    cbn -[saveUsers]. f_equal. unfold w1. destruct w. simpl in *. by subst. }
  eexists. split; [by rewrite Hrun, Hsave|].
  split; [done|]. split; [done|]. split; [done|]. split.
  - exists rs. split; [done|]. split; [exact Hlen | exact Helem].
  - rewrite GetUserByUsername_free by done. simpl. by rewrite lookup_insert_eq.
Qed.

Lemma create_user_files_and_saves_witness :
  exists w',
    CreateUser 2%positive users_one = (Done None, w') /\
    GetUserByUsername "bob" w' = (Done (inl 2%positive), w').
Proof.
  assert (Hlive : forall n p, users users_one !! n = Some p ->
                              is_Some (uheap users_one !! p)).
  { assert (Hkeyed : keyed_by_name users_one = true) by (vm_compute; reflexivity).
    intros n p Hn.
    destruct (proj1 (keyed_by_name_spec _) Hkeyed n p Hn) as (u & Hu & _).
    by exists u. }
  destruct (create_user_files_and_saves users_one 2%positive bob
              eq_refl eq_refl eq_refl Hlive eq_refl eq_refl)
    as (w' & H1 & _ & _ & _ & _ & H2).
  exact (ex_intro _ w' (conj H1 H2)).
Defined.

(** While a writer holds the mutex, every operation of the user database
    waits. *)
Lemma locked_users_park w :
  writer (umu w) = true ->
  (forall n, GetUserByUsername n w = (Blocked, w)) /\
  ListUsers w = (Blocked, w) /\
  (forall p, CreateUser p w = (Blocked, w)) /\
  (forall n h, UpdateUserPassword n h w = (Blocked, w)) /\
  (forall n, DeleteUser n w = (Blocked, w)) /\
  (forall n e, EnableDisableUser n e w = (Blocked, w)) /\
  saveUsers w = (Blocked, w).
Proof.
  intros Hw. repeat split; intros;
    unfold GetUserByUsername, ListUsers, CreateUser, UpdateUserPassword, DeleteUser,
      EnableDisableUser, saveUsers, umu_Lock, umu_RLock; ugo_step; by rewrite Hw.
Qed.

(** X19.  A write that the user database refuses keeps the write lock:
    [CreateUser] with a name already taken, and [UpdateUserPassword],
    [DeleteUser] and [EnableDisableUser] with an unknown name, return
    their error with the mutex still locked and nothing else changed, and
    every later operation of the user database waits for ever. *)
Theorem refused_user_write_keeps_the_lock (w : UserWorld) :
  umu w = free_mu ->
  let locked := with_umu (mkRWMutex true 0) w in
  (forall user u q,
     uheap w !! user = Some u -> users w !! Username u = Some q ->
     CreateUser user w
       = (Done (Some (Errorf "user already exists: %s" [Username u])), locked)) /\
  (forall username h,
     users w !! username = None ->
     UpdateUserPassword username h w
       = (Done (Some (Errorf "user not found: %s" [username])), locked)) /\
  (forall username,
     users w !! username = None ->
     DeleteUser username w
       = (Done (Some (Errorf "user not found: %s" [username])), locked)) /\
  (forall username e,
     users w !! username = None ->
     EnableDisableUser username e w
       = (Done (Some (Errorf "user not found: %s" [username])), locked)) /\
  (forall n, GetUserByUsername n locked = (Blocked, locked)) /\
  ListUsers locked = (Blocked, locked) /\
  (forall p, CreateUser p locked = (Blocked, locked)) /\
  (forall n h, UpdateUserPassword n h locked = (Blocked, locked)) /\
  (forall n, DeleteUser n locked = (Blocked, locked)) /\
  (forall n e, EnableDisableUser n e locked = (Blocked, locked)).
Proof.
  intros Hmu locked.
  destruct (locked_users_park locked eq_refl) as (H1 & H2 & H3 & H4 & H5 & H6 & _).
  split; [|split; [|split; [|split]]].
  - intros user u q Hu Hq. unfold CreateUser, umu_Lock. ugo_step.
    rewrite Hmu. cbn. rewrite Hu. cbn. by rewrite Hq.
  - intros username h Hn. unfold UpdateUserPassword, umu_Lock. ugo_step.
    rewrite Hmu. cbn. by rewrite Hn.
  - intros username Hn. unfold DeleteUser, umu_Lock. ugo_step.
    rewrite Hmu. cbn. by rewrite Hn.
  - intros username e Hn. unfold EnableDisableUser, umu_Lock. ugo_step.
    rewrite Hmu. cbn. by rewrite Hn.
  - by repeat split.
Qed.

Lemma refused_user_write_keeps_the_lock_witness :
  CreateUser 3%positive users_one
    = (Done (Some (Errorf "user already exists: %s" ["alice"])),
       with_umu (mkRWMutex true 0) users_one) /\
  GetUserByUsername "alice" (with_umu (mkRWMutex true 0) users_one)
    = (Blocked, with_umu (mkRWMutex true 0) users_one).
Proof.
  destruct (refused_user_write_keeps_the_lock users_one eq_refl)
    as (H1 & _ & _ & _ & H2 & _).
  split.
  - exact (H1 3%positive (mkUser "alice" "" [] false) 1%positive eq_refl eq_refl).
  - exact (H2 "alice").
Defined.

(** X20.  [UpdateUserPassword] and [EnableDisableUser] on a user the
    database holds, with the mutex free and the file writable, change the
    one field of the record behind the pointer of the map, so that every
    holder of the pointer sees the change; the other records and the map
    are as before, the records are written to the file, the mutex is free
    again and the call returns nil. *)
Theorem user_update_goes_through_the_pointer
  (w : UserWorld) (username : string) (p : loc) (u : User) :
  umu w = free_mu ->
  users w !! username = Some p ->
  uheap w !! p = Some u ->
  (forall n q, users w !! n = Some q -> is_Some (uheap w !! q)) ->
  ufault_of SysCreate (ufilepath w) w = None ->
  ufault_of SysWrite (ufilepath w) w = None ->
  (forall newPasswordHash, exists w',
     UpdateUserPassword username newPasswordHash w = (Done None, w') /\
     uheap w' = <[p := set_PasswordHash newPasswordHash u]> (uheap w) /\
     users w' = users w /\ umu w' = free_mu /\ on_file w') /\
  (forall enabled, exists w',
     EnableDisableUser username enabled w = (Done None, w') /\
     uheap w' = <[p := set_Enabled enabled u]> (uheap w) /\
     users w' = users w /\ umu w' = free_mu /\ on_file w').
Proof.
  intros Hmu Hp Hu Hlive Hcreate Hwrite.
  assert (Hgen : forall f : User -> User,
    exists rs,
      let w1 := with_uheap (<[p := f u]> (uheap w)) w in
      saveUsers w1 = (Done None, with_userfile (Some rs) (with_utape (tail (utape w1)) w1)) /\
      on_file (with_userfile (Some rs) (with_utape (tail (utape w1)) w1))).
  { intros f. set (w1 := with_uheap (<[p := f u]> (uheap w)) w).
    destruct (saveUsers_ok w1) as (rs & Hsave & Hlen & Helem); try done.
    { intros n q Hn. simpl. destruct (decide (p = q)) as [<-|Hne].
      - rewrite lookup_insert_eq. by eexists.
      - rewrite lookup_insert_ne by done. by apply (Hlive n). }
    exists rs. split; [exact Hsave|].
    exists rs. split; [done|]. split; [exact Hlen | exact Helem]. }
  split.
  - intros h. destruct (Hgen (set_PasswordHash h)) as (rs & Hsave & Hfile).
    assert (Hrun : UpdateUserPassword username h w
                   = saveUsers (with_uheap (<[p := set_PasswordHash h u]> (uheap w)) w)).
    { unfold UpdateUserPassword, umu_Lock, umu_Unlock. ugo_step. rewrite Hmu.
      cbn -[saveUsers]. rewrite Hp. cbn -[saveUsers]. rewrite Hu. cbn -[saveUsers].
      f_equal. destruct w. simpl in *. by subst. }
    eexists. split; [by rewrite Hrun, Hsave|].
    split; [done|]. split; [done|]. split; [done|]. exact Hfile.
  - intros e. destruct (Hgen (set_Enabled e)) as (rs & Hsave & Hfile).
    assert (Hrun : EnableDisableUser username e w
                   = saveUsers (with_uheap (<[p := set_Enabled e u]> (uheap w)) w)).
    { unfold EnableDisableUser, umu_Lock, umu_Unlock. ugo_step. rewrite Hmu.
      cbn -[saveUsers]. rewrite Hp. cbn -[saveUsers]. rewrite Hu. cbn -[saveUsers].
      f_equal. destruct w. simpl in *. by subst. }
    eexists. split; [by rewrite Hrun, Hsave|].
    split; [done|]. split; [done|]. split; [done|]. exact Hfile.
Qed.

Lemma user_update_goes_through_the_pointer_witness :
  exists w',
    EnableDisableUser "alice" false users_one = (Done None, w') /\
    uheap w' = <[1%positive := set_Enabled false alice]> (uheap users_one).
Proof.
  assert (Hlive : forall n p, users users_one !! n = Some p ->
                              is_Some (uheap users_one !! p)).
  { assert (Hkeyed : keyed_by_name users_one = true) by (vm_compute; reflexivity).
    intros n p Hn.
    destruct (proj1 (keyed_by_name_spec _) Hkeyed n p Hn) as (u & Hu & _).
    by exists u. }
  destruct (user_update_goes_through_the_pointer users_one "alice" 1%positive alice
              eq_refl eq_refl eq_refl Hlive eq_refl eq_refl) as [_ H].
  destruct (H false) as (w' & H1 & H2 & _).
  exact (ex_intro _ w' (conj H1 H2)).
Defined.

(** X21.  [DeleteUser] on a user the database holds, with the mutex free
    and the file writable, takes the name out of the map, writes the
    remaining records to the file and returns nil; the name is then not
    found, and the record behind the pointer is left as it is. *)
Theorem delete_user_removes_the_name (w : UserWorld) (username : string) (p : loc) :
  umu w = free_mu ->
  users w !! username = Some p ->
  (forall n q, users w !! n = Some q -> is_Some (uheap w !! q)) ->
  ufault_of SysCreate (ufilepath w) w = None ->
  ufault_of SysWrite (ufilepath w) w = None ->
  exists w',
    DeleteUser username w = (Done None, w') /\
    users w' = delete username (users w) /\
    uheap w' = uheap w /\
    umu w' = free_mu /\
    on_file w' /\
    GetUserByUsername username w'
      = (Done (inr (Errorf "user not found: %s" [username])), w').
Proof.
  intros Hmu Hp Hlive Hcreate Hwrite.
  set (w1 := with_users (delete username (users w)) w).
  destruct (saveUsers_ok w1) as (rs & Hsave & Hlen & Helem); try done.
  { intros n q Hn. simpl in Hn. apply lookup_delete_Some in Hn as [_ Hn].
    by apply (Hlive n). }
  assert (Hrun : DeleteUser username w = saveUsers w1).
  { unfold DeleteUser, umu_Lock, umu_Unlock. ugo_step. rewrite Hmu.
    cbn -[saveUsers]. rewrite Hp. cbn -[saveUsers].
    f_equal. unfold w1. destruct w. simpl in *. by subst. }
  eexists. split; [by rewrite Hrun, Hsave|].
  split; [done|]. split; [done|]. split; [done|]. split.
  - exists rs. split; [done|]. split; [exact Hlen | exact Helem].
  - rewrite GetUserByUsername_free by done. simpl. by rewrite lookup_delete_eq.
Qed.

Lemma delete_user_removes_the_name_witness :
  exists w',
    DeleteUser "alice" users_one = (Done None, w') /\
    GetUserByUsername "alice" w'
      = (Done (inr (Errorf "user not found: %s" ["alice"])), w').
Proof.
  assert (Hlive : forall n p, users users_one !! n = Some p ->
                              is_Some (uheap users_one !! p)).
  { assert (Hkeyed : keyed_by_name users_one = true) by (vm_compute; reflexivity).
    intros n p Hn.
    destruct (proj1 (keyed_by_name_spec _) Hkeyed n p Hn) as (u & Hu & _).
    by exists u. }
  destruct (delete_user_removes_the_name users_one "alice" 1%positive
              eq_refl eq_refl Hlive eq_refl eq_refl)
    as (w' & H1 & _ & _ & _ & _ & H2).
  exact (ex_intro _ w' (conj H1 H2)).
Defined.

(** ** Loading the user database *)

Lemma udecode_records us w :
  exists ps h,
    udecode (Some <$> us) w = (Done (Some <$> ps), with_uheap h w) /\
    Forall2 (fun p u => h !! p = Some u) ps us.
Proof.
  assert (H : forall w, exists ps h,
    udecode (Some <$> us) w = (Done (Some <$> ps), with_uheap h w) /\
    Forall2 (fun p u => h !! p = Some u) ps us /\
    (forall q, is_Some (uheap w !! q) -> h !! q = uheap w !! q)).
  { clear w. induction us as [|u us IH]; intros w.
    - exists [], (uheap w). split; [by destruct w|]. split; [constructor | done].
    - set (p := fresh (dom (uheap w))).
      destruct (IH (with_uheap (<[p := u]> (uheap w)) w)) as (ps & h & Hrun & Hall & Hold).
      exists (p :: ps), h. split; [|split].
      + rewrite fmap_cons. simpl. ugo_step. cbn -[udecode fresh]. fold p.
        rewrite Hrun. by destruct w.
      + constructor; [|done].
        rewrite Hold; simpl; by rewrite lookup_insert_eq.
      + intros q Hq. rewrite Hold.
        * simpl. rewrite lookup_insert_ne; [done|].
          intros <-. apply (is_fresh (dom (uheap w))). by apply elem_of_dom.
        * simpl. destruct (decide (p = q)) as [<-|Hne];
            [by rewrite lookup_insert_eq | by rewrite lookup_insert_ne]. }
  destruct (H w) as (ps & h & H1 & H2 & _). eauto.
Qed.

Lemma udecode_shape elems w :
  exists qs h,
    udecode elems w = (Done qs, with_uheap h w) /\
    (forall p, Some p ∈ qs -> is_Some (h !! p)) /\
    (None ∈ elems -> None ∈ qs) /\
    (forall q, is_Some (uheap w !! q) -> is_Some (h !! q)).
Proof.
  revert w. induction elems as [|[u|] elems IH]; intros w.
  - exists [], (uheap w). split; [by destruct w|].
    split; [by intros p Hp%elem_of_nil|]. split; [by intros H%elem_of_nil | done].
  - set (p := fresh (dom (uheap w))).
    destruct (IH (with_uheap (<[p := u]> (uheap w)) w))
      as (qs & h & Hrun & Hlive & Hnull & Hold).
    assert (Hp : is_Some (h !! p)).
    { apply Hold. simpl. rewrite lookup_insert_eq. by eexists. }
    exists (Some p :: qs), h. split; [|split; [|split]].
    + simpl. ugo_step. cbn -[udecode fresh]. fold p. rewrite Hrun. by destruct w.
    + intros q Hq. apply elem_of_cons in Hq as [[= ->]|Hq]; [done | by apply Hlive].
    + intros Hin. apply elem_of_cons in Hin as [[=]|Hin]. right. by apply Hnull.
    + intros q Hq. apply Hold. simpl.
      destruct (decide (p = q)) as [<-|Hne];
        [rewrite lookup_insert_eq; by eexists | by rewrite lookup_insert_ne].
  - destruct (IH w) as (qs & h & Hrun & Hlive & Hnull & Hold).
    exists (None :: qs), h. split; [|split; [|split]].
    + simpl. ugo_step. by rewrite Hrun.
    + intros q Hq. apply elem_of_cons in Hq as [[=]|Hq]. by apply Hlive.
    + intros _. by left.
    + done.
Qed.

(** The loop files every pointer under the name of its record; a later
    pointer with the same name takes the place of an earlier one. *)
Lemma upopulate_spec ps w :
  (forall p, p ∈ ps -> is_Some (uheap w !! p)) ->
  exists m,
    upopulate (Some <$> ps) w = (Done tt, with_users m w) /\
    forall n,
      m !! n =
      match last (filter (fun p => Username <$> uheap w !! p = Some n) ps) with
      | Some p => Some p
      | None => users w !! n
      end.
Proof.
  revert w. induction ps as [|p ps IH]; intros w Hlive.
  - exists (users w). split; [by destruct w | done].
  - destruct (Hlive p) as [u Hu]; [by left|].
    destruct (IH (with_users (<[Username u := p]> (users w)) w)) as (m & Hrun & Hlook).
    { intros q Hq. simpl. apply Hlive. by right. }
    exists m. split.
    + rewrite fmap_cons. simpl. ugo_step. rewrite Hu. cbn -[upopulate].
      rewrite Hrun. by destruct w.
    + intros n. rewrite Hlook. simpl. rewrite filter_cons.
      destruct (decide (Username <$> uheap w !! p = Some n)) as [Hk|Hk].
      * rewrite last_cons. destruct (last _); [done|].
        rewrite Hu in Hk. injection Hk as <-. by rewrite lookup_insert_eq.
      * destruct (last _); [done|].
        rewrite lookup_insert_ne; [done|]. intros <-. by rewrite Hu in Hk.
Qed.

(** The loop stops with a panic at the first nil pointer of the slice. *)
Lemma upopulate_null qs w :
  (forall p, Some p ∈ qs -> is_Some (uheap w !! p)) ->
  None ∈ qs ->
  exists w',
    upopulate qs w = (Panic "invalid memory address or nil pointer dereference", w').
Proof.
  revert w. induction qs as [|[p|] qs IH]; intros w Hlive Hnull.
  - by apply elem_of_nil in Hnull.
  - destruct (Hlive p) as [u Hu]; [by left|].
    simpl. ugo_step. rewrite Hu. cbn -[upopulate]. apply IH.
    + intros q Hq. simpl. apply Hlive. by right.
    + by apply elem_of_cons in Hnull as [[=]|Hnull].
  - exists w. done.
Qed.

Lemma last_named_pointer (h : gmap loc User) n ps us :
  Forall2 (fun p u => h !! p = Some u) ps us ->
  last (filter (fun p => Username <$> h !! p = Some n) ps) ≫= (fun p => h !! p)
  = last_named n us.
Proof.
  unfold last_named.
  induction 1 as [|p u ps us Hp Hall IH]; [done|].
  rewrite !filter_cons, Hp. simpl.
  destruct (decide (Username u = n)) as [Hn|Hn].
  - rewrite decide_True by (by rewrite Hn). rewrite !last_cons, <- IH.
    destruct (last (filter _ ps)) as [q|] eqn:Hq; simpl; [|done].
    apply last_Some_elem_of, list_elem_of_filter in Hq as [Hq _].
    by destruct (h !! q).
  - rewrite decide_False by (intros [= ?]; done). done.
Qed.

(** The load, once the file has been opened, as the loop on the decoded
    slice in the emptied database. *)
Lemma load_users_opened (w : UserWorld) decoded :
  ufault_of SysStat (ufilepath w) w = None ->
  ufault_of SysOpen (ufilepath w) w = None ->
  is_Some (userfile w) ->
  let w0 := with_umu (mkRWMutex false 0) (with_users ∅ w) in
  NewJSONUserDatabase decoded w =
  match decoded with
  | inr e => (Done (Some (Wrapf "failed to decode user database: %w" [] e)), w0)
  | inl elems =>
      match udecode elems w0 with
      | (Done us, w1) =>
          match upopulate us (with_users ∅ w1) with
          | (Done _, w2) => (Done None, w2)
          | (Panic msg, w2) => (Panic msg, w2)
          | (Blocked, w2) => (Blocked, w2)
          end
      | (Panic msg, w1) => (Panic msg, w1)
      | (Blocked, w1) => (Blocked, w1)
      end
  end.
Proof.
  intros Hstat Hopen [us Hfile] w0.
  unfold NewJSONUserDatabase, loadUsers. ugo_step.
  cbn -[udecode upopulate]. fold w0.
  unfold ufault_of in *. simpl in Hstat, Hopen. rewrite Hstat, Hfile.
  cbn -[udecode upopulate]. rewrite Hopen.
  destruct decoded as [elems|e]; [|done].
  cbn -[udecode upopulate].
  destruct (udecode elems w0) as [[qs| |] w1]; [|done|done].
  cbn -[upopulate]. by destruct (upopulate qs _) as [[[]| |] w2].
Qed.

Lemma load_users_spec (w : UserWorld) (us : list User) :
  ufault_of SysStat (ufilepath w) w = None ->
  ufault_of SysOpen (ufilepath w) w = None ->
  is_Some (userfile w) ->
  exists w',
    NewJSONUserDatabase (inl (Some <$> us)) w = (Done None, w') /\
    umu w' = free_mu /\ userfile w' = userfile w /\
    (forall n, user_at w' n = last_named n us) /\
    keyed_by_name w' = true.
Proof.
  intros Hstat Hopen Hfile.
  set (w0 := with_umu (mkRWMutex false 0) (with_users ∅ w)).
  destruct (udecode_records us w0) as (ps & h & Hdec & Hall).
  destruct (upopulate_spec ps (with_users ∅ (with_uheap h w0))) as (m & Hpop & Hlook).
  { intros p Hp. simpl.
    apply list_elem_of_lookup in Hp as [i Hi].
    destruct (Forall2_lookup_l _ _ _ _ _ Hall Hi) as (r & _ & Hr). by exists r. }
  simpl in Hlook.
  assert (Hm : forall n,
            m !! n = last (filter (fun p => Username <$> h !! p = Some n) ps)).
  { intros n. rewrite Hlook, lookup_empty. by destruct (last _). }
  exists (with_users m (with_users ∅ (with_uheap h w0))).
  split; [|split; [done|split; [done|split]]].
  - rewrite (load_users_opened w _ Hstat Hopen Hfile). fold w0. cbv zeta.
    rewrite Hdec. by rewrite Hpop.
  - intros n. unfold user_at. simpl. rewrite Hm. by apply last_named_pointer.
  - apply keyed_by_name_spec. simpl. intros n p Hn. rewrite Hm in Hn.
    apply last_Some_elem_of, list_elem_of_filter in Hn as [Hk _].
    destruct (h !! p) as [u|]; [|done]. injection Hk as <-. by exists u.
Qed.

(** X22.  [NewJSONUserDatabase], with the result of the JSON decoder taken
    as given.  With no file the database is empty.  With a file that
    opens: an error of the decoder is returned wrapped and the database is
    empty; a decoded array that holds a [null] makes the load panic on a
    nil pointer; and a decoded array of records gives a database that
    holds for each name the last record of the array with that name, every
    record filed under its own name, and the mutex free. *)
Theorem load_users_last_record_per_name
  (w : UserWorld) (decoded : list (option User) + error) :
  ufault_of SysStat (ufilepath w) w = None ->
  ufault_of SysOpen (ufilepath w) w = None ->
  let emptied := with_umu free_mu (with_users ∅ w) in
  (userfile w = None -> NewJSONUserDatabase decoded w = (Done None, emptied)) /\
  (is_Some (userfile w) ->
     (forall e, decoded = inr e ->
        NewJSONUserDatabase decoded w
          = (Done (Some (Wrapf "failed to decode user database: %w" [] e)), emptied)) /\
     (forall elems, decoded = inl elems -> None ∈ elems ->
        fst (NewJSONUserDatabase decoded w)
          = Panic "invalid memory address or nil pointer dereference") /\
     (forall us, decoded = inl (Some <$> us) ->
        exists w',
          NewJSONUserDatabase decoded w = (Done None, w') /\
          umu w' = free_mu /\
          userfile w' = userfile w /\
          (forall n, user_at w' n = last_named n us) /\
          keyed_by_name w' = true)).
Proof.
  intros Hstat Hopen emptied. split.
  - intros Hfile. unfold NewJSONUserDatabase, loadUsers. ugo_step.
    unfold ufault_of in *. cbn. rewrite Hstat, Hfile. done.
  - intros Hfile. split; [|split].
    + intros e ->. by rewrite (load_users_opened w _ Hstat Hopen Hfile).
    + intros elems -> Hnull. rewrite (load_users_opened w _ Hstat Hopen Hfile). cbv zeta.
      destruct (udecode_shape elems (with_umu (mkRWMutex false 0) (with_users ∅ w)))
        as (qs & h & -> & Hlive & Hnull' & _).
      destruct (upopulate_null qs
                  (with_users ∅
                     (with_uheap h (with_umu (mkRWMutex false 0) (with_users ∅ w)))))
        as (u' & ->); [exact Hlive | by apply Hnull' | done].
    + intros us ->. by apply load_users_spec.
Qed.

Lemma load_users_last_record_per_name_witness :
  exists w',
    NewJSONUserDatabase (inl (Some <$> default [] (userfile users_twice))) users_twice
      = (Done None, w') /\
    user_at w' "alice" = Some (mkUser "alice" "0d107d09" ["user"] false).
Proof.
  destruct (load_users_last_record_per_name users_twice
              (inl (Some <$> default [] (userfile users_twice))) eq_refl eq_refl)
    as [_ H].
  destruct H as (_ & _ & H); [by eexists|].
  destruct (H _ eq_refl) as (w' & H1 & _ & _ & H2 & _).
  exists w'. split; [exact H1|]. rewrite H2. vm_compute. reflexivity.
Defined.

(** In a database whose records are filed under their names, the last
    record of a saved list with a name is the record of the name. *)
Lemma last_named_of_store (w : UserWorld) (rs : list User) :
  keyed_by_name w = true ->
  (forall r, r ∈ rs <-> exists n, user_at w n = Some r) ->
  forall n, last_named n rs = user_at w n.
Proof.
  intros Hkeyed Hrs n. pose proof (proj1 (keyed_by_name_spec w) Hkeyed) as Hkey.
  assert (Hname : forall m r, user_at w m = Some r -> Username r = m).
  { intros m r Hm. unfold user_at in Hm.
    destruct (users w !! m) as [p|] eqn:Hp; [|done]. simpl in Hm.
    destruct (Hkey m p Hp) as (u & Hu & Hun). congruence. }
  unfold last_named.
  destruct (user_at w n) as [r|] eqn:Hr.
  - apply last_all_same.
    + intros Hnil.
      assert (Hin : r ∈ filter (fun u => Username u = n) rs).
      { apply list_elem_of_filter. split; [by apply Hname|]. apply Hrs. eauto. }
      rewrite Hnil in Hin. by apply elem_of_nil in Hin.
    + intros r' [Hk [m Hm]%Hrs]%list_elem_of_filter.
      apply Hname in Hm as Hm'. rewrite Hk in Hm'. subst m. congruence.
  - apply last_None.
    destruct (filter (fun u => Username u = n) rs) as [|r l] eqn:E; [done|].
    exfalso.
    assert (Hin : r ∈ filter (fun u => Username u = n) rs) by (rewrite E; by left).
    apply list_elem_of_filter in Hin as [Hk [m Hm]%Hrs].
    apply Hname in Hm as Hm'. rewrite Hk in Hm'. subst m. congruence.
Qed.

(** X23.  The records that [saveUsers] hands to the encoder are enough to
    rebuild the user database: with the mutex free, the records filed
    under their names and the file writable, [saveUsers] returns nil and
    has handed the encoder the record of every name; and if the decoder
    later returns those records (the JSON codec itself is no part of the
    statement), [NewJSONUserDatabase] returns a database that holds for
    every name the record it held before. *)
Theorem saved_users_rebuild_the_database (w : UserWorld) :
  umu w = free_mu ->
  keyed_by_name w = true ->
  ufault_of SysCreate (ufilepath w) w = None ->
  ufault_of SysWrite (ufilepath w) w = None ->
  ufault_of SysStat (ufilepath w) w = None ->
  ufault_of SysOpen (ufilepath w) w = None ->
  exists w1 rs w2,
    saveUsers w = (Done None, w1) /\
    userfile w1 = Some rs /\
    (forall r, r ∈ rs <-> exists n, user_at w n = Some r) /\
    NewJSONUserDatabase (inl (Some <$> rs)) w1 = (Done None, w2) /\
    (forall n, user_at w2 n = user_at w n) /\
    keyed_by_name w2 = true.
Proof.
  intros Hmu Hkeyed Hcreate Hwrite Hstat Hopen.
  pose proof (proj1 (keyed_by_name_spec w) Hkeyed) as Hkey.
  destruct (saveUsers_ok w Hmu Hcreate Hwrite) as (rs & Hsave & _ & Helem).
  { intros n p Hn. destruct (Hkey n p Hn) as (u & Hu & _). by exists u. }
  destruct (load_users_spec (with_userfile (Some rs) (with_utape (tail (utape w)) w)) rs)
    as (w2 & Hload & _ & _ & Hrec & Hk2); [done | done | by eexists |].
  eexists _, rs, w2. split; [exact Hsave|]. split; [done|]. split; [exact Helem|].
  split; [exact Hload|]. split; [|done].
  intros n. rewrite Hrec. by apply last_named_of_store.
Qed.

Lemma saved_users_rebuild_the_database_witness :
  exists w1 rs w2,
    saveUsers users_one = (Done None, w1) /\
    userfile w1 = Some rs /\
    NewJSONUserDatabase (inl (Some <$> rs)) w1 = (Done None, w2) /\
    (forall n, user_at w2 n = user_at users_one n).
Proof.
  assert (Hkeyed : keyed_by_name users_one = true) by (vm_compute; reflexivity).
  destruct (saved_users_rebuild_the_database users_one
              eq_refl Hkeyed eq_refl eq_refl eq_refl eq_refl)
    as (w1 & rs & w2 & H1 & H2 & _ & H3 & H4 & _).
  exact (ex_intro _ w1 (ex_intro _ rs (ex_intro _ w2 (conj H1 (conj H2 (conj H3 H4)))))).
Defined.

(** ** The names of the users are their keys *)

Lemma saveUsers_frame w :
  uheap (snd (saveUsers w)) = uheap w /\ users (snd (saveUsers w)) = users w.
Proof.
  unfold saveUsers, umu_RLock, umu_RUnlock. ugo_step.
  destruct (writer (umu w)); [done|].
  cbn -[uencode ufault_of]. unfold ufault_of. cbn -[uencode].
  destruct (lookup_fault SysCreate _ _); [done|]. cbn -[uencode].
  destruct (lookup_fault SysWrite _ _); [done|]. cbn -[uencode].
  rewrite uencode_heap. by destruct (mapM _ _).
Qed.

Lemma keyed_by_name_frame w w' :
  uheap w' = uheap w -> users w' = users w -> keyed_by_name w' = keyed_by_name w.
Proof. intros Hh Hu. unfold keyed_by_name. by rewrite Hh, Hu. Qed.

Lemma keyed_after_save w : keyed_by_name (snd (saveUsers w)) = keyed_by_name w.
Proof. destruct (saveUsers_frame w). by apply keyed_by_name_frame. Qed.

(** X24.  However a write to the user database ends, every user of the map
    is still filed under the name its record carries: [CreateUser] files
    the pointer under the name of its record, and [UpdateUserPassword],
    [DeleteUser] and [EnableDisableUser] do not touch a name. *)
Theorem user_names_stay_keys (w : UserWorld) :
  keyed_by_name w = true ->
  (forall p, keyed_by_name (snd (CreateUser p w)) = true) /\
  (forall n h, keyed_by_name (snd (UpdateUserPassword n h w)) = true) /\
  (forall n, keyed_by_name (snd (DeleteUser n w)) = true) /\
  (forall n e, keyed_by_name (snd (EnableDisableUser n e w)) = true).
Proof.
  intros Hkeyed. pose proof (proj1 (keyed_by_name_spec w) Hkeyed) as Hkey.
  assert (Hfield : forall (f : User -> User) n p u,
            (forall x, Username (f x) = Username x) ->
            users w !! n = Some p -> uheap w !! p = Some u ->
            forall m, keyed_by_name
              (with_umu m (with_uheap (<[p := f u]> (uheap w)) w)) = true).
  { intros f n p u Hf Hn Hu m. apply keyed_by_name_spec. simpl. intros n' q Hq.
    destruct (decide (p = q)) as [<-|Hne].
    - rewrite lookup_insert_eq. eexists. split; [done|].
      destruct (Hkey n' p Hq) as (u' & Hu' & <-). rewrite Hf. congruence.
    - rewrite lookup_insert_ne by done. by apply Hkey. }
  split; [|split; [|split]].
  - intros p. unfold CreateUser, umu_Lock, umu_Unlock. ugo_step.
    destruct (writer (umu w) || negb (readers (umu w) =? 0)%nat); [done|].
    cbn -[saveUsers]. destruct (uheap w !! p) as [u|] eqn:Hu; [|done].
    cbn -[saveUsers]. destruct (users w !! Username u); [done|].
    cbn -[saveUsers].
    match goal with |- context [saveUsers ?u] =>
      change (keyed_by_name (snd (saveUsers u)) = true) end.
    rewrite keyed_after_save. apply keyed_by_name_spec. simpl. intros n q Hq.
    apply lookup_insert_Some in Hq as [[<- <-]|[_ Hq]]; [by exists u | by apply Hkey].
  - intros n h. unfold UpdateUserPassword, umu_Lock, umu_Unlock. ugo_step.
    destruct (writer (umu w) || negb (readers (umu w) =? 0)%nat); [done|].
    cbn -[saveUsers]. destruct (users w !! n) as [p|] eqn:Hn; [|done].
    cbn -[saveUsers]. destruct (uheap w !! p) as [u|] eqn:Hu; [|done].
    cbn -[saveUsers].
    match goal with |- context [saveUsers ?u] =>
      change (keyed_by_name (snd (saveUsers u)) = true) end.
    rewrite keyed_after_save. by apply (Hfield (set_PasswordHash h) n).
  - intros n. unfold DeleteUser, umu_Lock, umu_Unlock. ugo_step.
    destruct (writer (umu w) || negb (readers (umu w) =? 0)%nat); [done|].
    cbn -[saveUsers]. destruct (users w !! n) as [p|] eqn:Hn; [|done].
    cbn -[saveUsers].
    match goal with |- context [saveUsers ?u] =>
      change (keyed_by_name (snd (saveUsers u)) = true) end.
    rewrite keyed_after_save. apply keyed_by_name_spec. simpl. intros n' q Hq.
    apply lookup_delete_Some in Hq as [_ Hq]. by apply Hkey.
  - intros n e. unfold EnableDisableUser, umu_Lock, umu_Unlock. ugo_step.
    destruct (writer (umu w) || negb (readers (umu w) =? 0)%nat); [done|].
    cbn -[saveUsers]. destruct (users w !! n) as [p|] eqn:Hn; [|done].
    cbn -[saveUsers]. destruct (uheap w !! p) as [u|] eqn:Hu; [|done].
    cbn -[saveUsers].
    match goal with |- context [saveUsers ?u] =>
      change (keyed_by_name (snd (saveUsers u)) = true) end.
    rewrite keyed_after_save. by apply (Hfield (set_Enabled e) n).
Qed.

Lemma user_names_stay_keys_witness :
  keyed_by_name (snd (CreateUser 2%positive users_one)) = true.
Proof.
  assert (Hkeyed : keyed_by_name users_one = true) by (vm_compute; reflexivity).
  exact (proj1 (user_names_stay_keys users_one Hkeyed) 2%positive).
Defined.

(** * Configuration *)

Section configuration.
Import Configuration.


Lemma validateConfig_None cfg :
  validateConfig cfg = None <->
  APIServerAddress cfg <> "" /\ DataPath cfg <> "" /\ RepositoryPath cfg <> "" /\
  0 <= ShutdownDelay cfg.
Proof.
  unfold validateConfig.
  destruct (String.eqb (APIServerAddress cfg) "") eqn:E1.
  { apply String.eqb_eq in E1. split; [done | by intros [? _]]. }
  destruct (String.eqb (DataPath cfg) "") eqn:E2.
  { apply String.eqb_eq in E2. split; [done | by intros (_ & ? & _)]. }
  destruct (String.eqb (RepositoryPath cfg) "") eqn:E3.
  { apply String.eqb_eq in E3. split; [done | by intros (_ & _ & ? & _)]. }
  apply String.eqb_neq in E1, E2, E3.
  destruct (Z.ltb_spec (ShutdownDelay cfg) 0).
  - split; [done | intros (_ & _ & _ & ?); lia].
  - done.
Qed.

(** [LoadConfig] returns the configuration that [applyEnvironmentVariables]
    leaves, on the defaults overwritten by the file when it decodes. *)
Lemma LoadConfig_inl h cfg out :
  LoadConfig h = (inl cfg, out) ->
  exists base,
    cfg = fst (applyEnvironmentVariables h base) /\
    validateConfig cfg = None /\
    ((files h !! getConfigFilePath h = None \/
      files h !! getConfigFilePath h = Some (Unopenable ENOENT)) /\
       base = DefaultConfig \/
     exists fields,
       files h !! getConfigFilePath h = Some (Decodable fields) /\
       base = with_ConfigFileUsed (getConfigFilePath h) (decode_into DefaultConfig fields)).
Proof.
  unfold LoadConfig, loadConfigFile.
  destruct (files h !! getConfigFilePath h) as [[no|cause|fields]|] eqn:Hfile.
  - destruct no; simpl; try done.
    destruct (applyEnvironmentVariables h DefaultConfig) as [c o] eqn:Ha.
    destruct (validateConfig c) eqn:Hv; [done|]. intros [= <- <-].
    exists DefaultConfig. rewrite Ha. split; [done|]. split; [done|]. left. auto.
  - done.
  - destruct (applyEnvironmentVariables h _) as [c o] eqn:Ha.
    destruct (validateConfig c) eqn:Hv; [done|]. intros [= <- <-].
    eexists. rewrite Ha. split; [done|]. split; [done|]. right. eauto.
  - simpl.
    destruct (applyEnvironmentVariables h DefaultConfig) as [c o] eqn:Ha.
    destruct (validateConfig c) eqn:Hv; [done|]. intros [= <- <-].
    exists DefaultConfig. rewrite Ha. split; [done|]. split; [done|]. left. auto.
Qed.

Lemma applyEnvironmentVariables_fields h base :
  let pick := fun envName configValue =>
    if negb (String.eqb (os_Getenv h envName) "") then os_Getenv h envName
    else configValue in
  let cfg := fst (applyEnvironmentVariables h base) in
  LogFilePath cfg = pick "QFT_RELMAN_LOG_FILE_PATH" (LogFilePath base) /\
  APIServerAddress cfg = pick "QFT_RELMAN_API_ADDRESS" (APIServerAddress base) /\
  DataPath cfg = pick "QFT_RELMAN_DATA_PATH" (DataPath base) /\
  RepositoryPath cfg = pick "QFT_RELMAN_REPO_PATH" (RepositoryPath base) /\
  ShutdownDelay cfg =
    match Strconv.Atoi (os_Getenv h "QFT_RELMAN_SHUTDOWN_DELAY") with
    | inl delay => delay
    | inr _ => ShutdownDelay base
    end /\
  ConfigFileUsed cfg = ConfigFileUsed base.
Proof.
  intros pick cfg. unfold cfg, applyEnvironmentVariables, setIfEnvExists, pick.
  destruct (String.eqb (os_Getenv h "QFT_RELMAN_SHUTDOWN_DELAY") "") eqn:E.
  - apply String.eqb_eq in E. rewrite E. simpl. done.
  - simpl. destruct (Strconv.Atoi _); simpl; done.
Qed.

(** X25.  A configuration that [LoadConfig] returns has been validated
    (listener address, data path and repository path not empty, shutdown
    delay not negative), and each of its values comes from the first of
    three places that has one: the environment variable when it is set to
    a non-empty string (for the delay: to an integer), else the
    configuration file when it decodes and has the member, else the
    default.  The file is named only when it was decoded. *)
Theorem loaded_config_is_valid_and_layered
  (h : Host) (cfg : Config) (out : list printed) :
  LoadConfig h = (inl cfg, out) ->
  let pick := fun envName fromFile dflt =>
    if negb (String.eqb (os_Getenv h envName) "") then os_Getenv h envName
    else default dflt fromFile in
  let f := file_fields h in
  (APIServerAddress cfg <> "" /\ DataPath cfg <> "" /\ RepositoryPath cfg <> "" /\
   0 <= ShutdownDelay cfg) /\
  LogFilePath cfg = pick "QFT_RELMAN_LOG_FILE_PATH" (log_file_path f) defaultLogFilePath /\
  APIServerAddress cfg
    = pick "QFT_RELMAN_API_ADDRESS" (api_listener f) defaultAPIServerAddress /\
  DataPath cfg = pick "QFT_RELMAN_DATA_PATH" (data_path f) defaultDataPath /\
  RepositoryPath cfg
    = pick "QFT_RELMAN_REPO_PATH" (repository_path f) defaultRepositoryPath /\
  ShutdownDelay cfg =
    match Strconv.Atoi (os_Getenv h "QFT_RELMAN_SHUTDOWN_DELAY") with
    | inl delay => delay
    | inr _ => default defaultShutdownDelay (shutdown_delay_seconds f)
    end /\
  ConfigFileUsed cfg =
    match files h !! getConfigFilePath h with
    | Some (Decodable _) => getConfigFilePath h
    | _ => ""
    end.
Proof.
  intros Hload pick f.
  destruct (LoadConfig_inl h cfg out Hload) as (base & -> & Hv & Hbase).
  split; [by apply validateConfig_None|].
  destruct (applyEnvironmentVariables_fields h base) as (H1 & H2 & H3 & H4 & H5 & H6).
  rewrite H1, H2, H3, H4, H5, H6. unfold pick, f, file_fields.
  destruct Hbase as [[[Hfile|Hfile] ->]|(fields & Hfile & ->)]; rewrite Hfile; done.
Qed.

Lemma loaded_config_is_valid_and_layered_witness :
  exists cfg out,
    LoadConfig layered_host = (inl cfg, out) /\
    DataPath cfg = "/srv/data" /\ APIServerAddress cfg = ":9090" /\
    LogFilePath cfg = defaultLogFilePath.
Proof.
  assert (Hload : LoadConfig layered_host
                  = (inl (mkConfig "gemini.rel-man.log" ":9090" "/srv/data" "./repository" 5
                                   "gemini.rel-man.config.json"),
                     [Printf "Configuration loaded from file: %s\n"
                             ["gemini.rel-man.config.json"]]))
    by (vm_compute; reflexivity).
  destruct (loaded_config_is_valid_and_layered layered_host _ _ Hload)
    as (_ & H1 & H2 & H3 & _).
  exact (ex_intro _ _ (ex_intro _ _ (conj Hload (conj H3 (conj H2 H1))))).
Defined.


End configuration.
